(** * PainScript: the stack machine ([machine.py]) and its instruction
    encoding ([isa.py]), embedded as executable definitions.

    Python objects are records, methods are computations in a state and
    exception monad, Python integers are [Z].  A memory cell or a stack slot
    holds whatever Python object was stored there: an integer, a float or an
    instruction dictionary.  A Python float is an IEEE 754 double, a
    [spec_float] of precision 53.  A string is a string of bytes; where the
    machine takes the code point of a character ([ord]), it reads them as
    UTF-8, the encoding in which [main] reads the input. *)

From Stdlib Require Import ZArith String Ascii Lia DecimalString SpecFloat.
From stdpp Require Import base numbers list strings pretty.
From Equations Require Import Equations.

Local Open Scope Z_scope.

(** ** isa.py *)

Module Isa.

(** [class Opcode(str, Enum)]: a member compares and hashes as its string
    value, so [op == Opcode.X], [op == Opcode.X.value] and membership in a set
    of members or of values are all equality of members. *)
Inductive Opcode : Type :=
| WR_DIR | WR_NDR | READ_DIR | READ_NDR
| PRINT
| BEGIN | NOP
| MOD | PLUS | MINUS | MULT | DIV | POW | LT | NEG | INV
| DUP | OVER | ROT | SWAP
| PUSH | DROP
| JMP | JNT
| HALT.

#[global] Instance Opcode_eq_dec : EqDecision Opcode.
Proof. solve_decision. Defined.

(** The string value of each member. *)
Definition Opcode_value (op : Opcode) : string :=
  match op with
  | WR_DIR => "WRITE_DIR" | WR_NDR => "WRITE_NDR"
  | READ_DIR => "READ_DIR" | READ_NDR => "READ_NDR"
  | PRINT => "PRINT"
  | BEGIN => "BEGIN" | NOP => "NOP"
  | MOD => "MOD" | PLUS => "PLUS" | MINUS => "MINUS" | MULT => "MULT"
  | DIV => "DIV" | POW => "POW" | LT => "LT" | NEG => "NEG" | INV => "INVERT"
  | DUP => "DUP" | OVER => "OVER" | ROT => "ROT" | SWAP => "SWAP"
  | PUSH => "PUSH" | DROP => "DROP"
  | JMP => "JMP" | JNT => "JNT"
  | HALT => "HALT"
  end.

Definition all_opcodes : list Opcode :=
  [WR_DIR; WR_NDR; READ_DIR; READ_NDR; PRINT; BEGIN; NOP; MOD; PLUS; MINUS;
   MULT; DIV; POW; LT; NEG; INV; DUP; OVER; ROT; SWAP; PUSH; DROP; JMP; JNT;
   HALT].

(** [Opcode(name)]: the member with that value, [None] for [ValueError]. *)
Definition Opcode_of_value (name : string) : option Opcode :=
  find (fun op => bool_decide (Opcode_value op = name)) all_opcodes.

(** A JSON scalar as it occurs in an instruction: an integer or a string. *)
Inductive scalar : Type :=
| SInt (z : Z)
| SStr (s : string).

#[global] Instance scalar_eq_dec : EqDecision scalar.
Proof. solve_decision. Defined.

(** [Term = namedtuple('Term', 'line_num com arg')]. *)
Record Term : Type := mkTerm {
  line_num : scalar;
  com : scalar;
  t_arg : scalar
}.

#[global] Instance Term_eq_dec : EqDecision Term.
Proof. solve_decision. Defined.

(** An instruction dictionary: key ['opcode'], optional keys ['arg'] and
    ['term']. *)
Record Instr : Type := mkInstr {
  opcode : Opcode;
  arg : option scalar;
  term : option Term
}.

#[global] Instance Instr_eq_dec : EqDecision Instr.
Proof. solve_decision. Defined.

End Isa.
Export Isa.

(** ** Python values, exceptions and list indexing *)

#[global] Instance spec_float_eq_dec : EqDecision spec_float.
Proof. solve_decision. Defined.

(** What a memory cell or a stack slot can hold. *)
Inductive value : Type :=
| VInt (z : Z)
| VFloat (f : spec_float)
| VInstr (i : Instr).

#[global] Instance value_eq_dec : EqDecision value.
Proof. solve_decision. Defined.

(** The exceptions of the machine and of the decoder, [StopIteration] apart.
    The last one is not a Python exception: [NotAProgram] marks where the
    decoder meets a JSON value that is no part of a program container. *)
Inductive error : Type :=
| AssertionError | TypeError | IndexError | KeyError | ValueError
| ZeroDivisionError | OverflowError | JSONDecodeError | UnboundLocalError
| NotAProgram.

(** [l[i]] on a Python list: a negative index counts from the end, an index
    out of range raises [IndexError] ([None]). *)
Definition py_index {A} (l : list A) (i : Z) : option nat :=
  let n := Z.of_nat (length l) in
  if bool_decide (0 <= i < n) then Some (Z.to_nat i)
  else if bool_decide (- n <= i < 0) then Some (Z.to_nat (i + n))
  else None.

Definition getitem {A} (l : list A) (i : Z) : option A :=
  k ← py_index l i; l !! k.

Definition setitem {A} (l : list A) (i : Z) (v : A) : option (list A) :=
  k ← py_index l i; Some (<[k:=v]> l).

Definition len {A} (l : list A) : Z := Z.of_nat (length l).

(** ** Python floats *)

(** [sys.float_info.mant_dig] and [sys.float_info.max_exp]. *)
Definition mant_dig : Z := 53.
Definition max_exp : Z := 1024.

(** [float(z)]: the double nearest to the integer [z], a tie going to the
    even one; an infinity where Python raises [OverflowError]. *)
Definition float_of_Z (z : Z) : spec_float :=
  binary_normalize mant_dig max_exp z 0 false.

(** The integer part of a float, rounded toward zero. *)
Definition trunc (f : spec_float) : Z :=
  match f with
  | S754_finite s m e => cond_Zopp s (Z.shiftl (Z.pos m) e)
  | _ => 0
  end.

(** How the float [f] compares with the integer [z]: Python compares the
    two exactly; a nan compares with nothing. *)
Definition float_compare (f : spec_float) (z : Z) : option comparison :=
  match f with
  | S754_nan => None
  | S754_infinity s => Some (if s then Lt else Gt)
  | S754_zero _ => Some (0 ?= z)
  | S754_finite s m e =>
      let x := cond_Zopp s (Z.pos m) in
      Some (if 0 <=? e then x * 2 ^ e ?= z else x ?= z * 2 ^ (- e))
  end.

(** [int(v)]: an integer is itself, a float is cut to its integer part,
    an infinity, a nan and a dictionary have none. *)
Definition to_int (v : value) : Z + error :=
  match v with
  | VInt z => inl z
  | VFloat (S754_infinity _) => inr OverflowError
  | VFloat S754_nan => inr ValueError
  | VFloat f => inl (trunc f)
  | VInstr _ => inr TypeError
  end.

(** [float(z)] does not overflow. *)
Definition fits_double (z : Z) : bool :=
  match float_of_Z z with
  | S754_infinity _ => false
  | _ => true
  end.

(** The integer that is the value of [float(z)]: [z] itself up to [2 ^ 53]. *)
Definition nearest (z : Z) : Z := trunc (float_of_Z z).

(** [f + 1]: the integer becomes the float 1.0. *)
Definition float_add_1 (f : spec_float) : spec_float :=
  SFadd mant_dig max_exp f (float_of_Z 1).

(** [float(b) ** float(e)] for integers [b <> 0] and [e < 0] that are
    doubles: the double nearest to [1 / b ** (- e)], with the sign of the
    power.  CPython hands this power to the [pow] of the C library; its
    result is taken as correctly rounded. *)
Definition float_pow (b e : Z) : spec_float :=
  let '(q, e', l) :=
    SFdiv_core_binary mant_dig max_exp 1 0 (Z.abs b ^ (- e)) 0 in
  binary_round_aux mant_dig max_exp ((b <? 0) && Z.odd e) q e' l.

(** *** [repr] of a float

    The shortest decimal numeral that reads back as the same double, and
    among those of that length the one nearest to it. *)

(** [d * 10 ^ k] against [b * 2 ^ e], for [d] and [b] that are not
    negative. *)
Definition compare_dec_bin (d k b e : Z) : comparison :=
  d * 10 ^ Z.max k 0 * 2 ^ Z.max (- e) 0
  ?= b * 2 ^ Z.max e 0 * 10 ^ Z.max (- k) 0.

(** The decimal exponent [p] of [m * 2 ^ e]: [10 ^ p <= m * 2 ^ e < 10 ^ (p + 1)];
    the estimate from the binary logarithm is off by one at most. *)
Definition decimal_exponent (m e : Z) : Z :=
  let p := (Z.log2 m + e) * 30103 / 100000 in
  match compare_dec_bin 1 p m e with
  | Gt => p - 1
  | _ => match compare_dec_bin 1 (p + 1) m e with
         | Gt => p
         | _ => p + 1
         end
  end.

(** [d * 10 ^ k] rounds to the double [m * 2 ^ e]: it lies between the
    midpoints to the two neighbours, which count when [m] is even.  In units
    of [2 ^ (e - 2)] the double is [4 * m]; the neighbour below is half as far
    when [m] is a power of two above the subnormal numbers. *)
Definition reads_back (m e d k : Z) : bool :=
  let below :=
    if bool_decide (m = 2 ^ (mant_dig - 1) /\ 3 - max_exp - mant_dig < e)
    then 4 * m - 1 else 4 * m - 2 in
  let above := 4 * m + 2 in
  match compare_dec_bin d k below (e - 2), compare_dec_bin d k above (e - 2) with
  | Gt, Lt => true
  | Eq, Lt | Gt, Eq => Z.even m
  | _, _ => false
  end.

(** The digits of the shortest numeral, tried from [n] digits on, with the
    exponent of the last one. *)
Fixpoint shortest_from (fuel : nat) (m e p n : Z) : Z * Z :=
  let k := p - n + 1 in
  let num := m * 2 ^ Z.max e 0 * 10 ^ Z.max (- k) 0 in
  let den := 2 ^ Z.max (- e) 0 * 10 ^ Z.max k 0 in
  let d := num / den in
  let nearest :=
    match 2 * (num `mod` den) ?= den with
    | Lt => d
    | Eq => if Z.even d then d else d + 1
    | Gt => d + 1
    end in
  match fuel with
  | O => (nearest, k)
  | S fuel' =>
      match reads_back m e d k, reads_back m e (d + 1) k with
      | true, true => (nearest, k)
      | true, false => (d, k)
      | false, true => (d + 1, k)
      | false, false => shortest_from fuel' m e p (n + 1)
      end
  end.

(** Seventeen digits tell any two doubles apart. *)
Definition shortest (m e : Z) : Z * Z :=
  let '(d, k) := shortest_from 16 m e (decimal_exponent m e) 1 in
  if bool_decide (d `mod` 10 = 0) then (d / 10, k + 1) else (d, k).

Definition digits (n : Z) : string := pretty n.

(** The numeral of the digits [ds] with the decimal point after the first
    [decpt] of them: with an exponent when the point is far from the digits,
    as [repr] writes it. *)
Definition float_numeral (ds : string) (decpt : Z) : string :=
  let nd := Z.of_nat (String.length ds) in
  if bool_decide (decpt <= -4 \/ 16 < decpt) then
    let x := decpt - 1 in
    String.substring 0 1 ds
    +:+ (if bool_decide (1 < nd)
         then "." +:+ String.substring 1 (String.length ds - 1) ds
         else EmptyString)
    +:+ "e" +:+ (if bool_decide (x < 0) then "-" else "+")
    +:+ (if bool_decide (Z.abs x < 10) then "0" else EmptyString)
    +:+ digits (Z.abs x)
  else if bool_decide (decpt <= 0) then
    "0." +:+ String.concat EmptyString (replicate (Z.to_nat (- decpt)) "0") +:+ ds
  else if bool_decide (nd <= decpt) then
    ds +:+ String.concat EmptyString (replicate (Z.to_nat (decpt - nd)) "0") +:+ ".0"
  else
    String.substring 0 (Z.to_nat decpt) ds +:+ "."
    +:+ String.substring (Z.to_nat decpt) (String.length ds - Z.to_nat decpt) ds.

(** [repr(f)], which is [str(f)]. *)
Definition float_repr (f : spec_float) : string :=
  match f with
  | S754_nan => "nan"
  | S754_infinity s => if s then "-inf" else "inf"
  | S754_zero s => if s then "-0.0" else "0.0"
  | S754_finite s m e =>
      let '(d, k) := shortest (Z.pos m) e in
      let ds := digits d in
      (if s then "-" else EmptyString)
      +:+ float_numeral ds (k + Z.of_nat (String.length ds))
  end.

(** ** The state and exception monad of the methods *)

(** The outcome of a method call on an object in state [S]: it returns [a]
    leaving the object in state [s]; or [StopIteration] propagates, the object
    being in state [s]; or another exception propagates. *)
Inductive result (S A : Type) : Type :=
| Ok (a : A) (s : S)
| Stop (s : S)
| Raise (e : error).
Arguments Ok {S A} a s.
Arguments Stop {S A} s.
Arguments Raise {S A} e.

Definition M (S A : Type) : Type := S -> result S A.

#[global] Instance M_ret {S} : MRet (M S) := fun A a s => Ok a s.

#[global] Instance M_bind {S} : MBind (M S) := fun A B f m s =>
  match m s with
  | Ok a s' => f a s'
  | Stop s' => Stop s'
  | Raise e => Raise e
  end.

Definition raise {S A} (e : error) : M S A := fun _ => Raise e.
Definition StopIteration {S A} : M S A := fun s => Stop s.
Definition gets {S A} (f : S -> A) : M S A := fun s => Ok (f s) s.
Definition modify {S} (f : S -> S) : M S unit := fun s => Ok tt (f s).

(** [assert b] *)
Definition assert {S} (b : bool) : M S unit :=
  if b then mret tt else raise AssertionError.

(** [if b: body] *)
Definition when {S} (b : bool) (body : M S unit) : M S unit :=
  if b then body else mret tt.

(** Index errors of list accesses. *)
Definition index_ok {S A} (o : option A) : M S A :=
  match o with Some a => mret a | None => raise IndexError end.

(** [int(v)] on a stored value. *)
Definition int {S} (v : value) : M S Z :=
  match to_int v with
  | inl z => mret z
  | inr e => raise e
  end.

(** [float(z)] on an integer. *)
Definition float_of_int {S} (z : Z) : M S spec_float :=
  match float_of_Z z with
  | S754_infinity _ => raise OverflowError
  | f => mret f
  end.

(** How a stored value compares with the integer [z]: the operand of [<=];
    an ordering of a dictionary and an integer is a [TypeError]. *)
Definition compare_int {S} (v : value) (z : Z) : M S (option comparison) :=
  match v with
  | VInt x => mret (Some (x ?= z))
  | VFloat f => mret (float_compare f z)
  | VInstr _ => raise TypeError
  end.

(** [lo <= v <= hi] *)
Definition between {S} (lo : Z) (v : value) (hi : Z) : M S bool :=
  c0 ← compare_int v lo;
  c1 ← compare_int v hi;
  mret (match c0, c1 with
        | Some (Eq | Gt), Some (Lt | Eq) => true
        | _, _ => false
        end).

(** [v == z]: a float equals the integer of its value, a dictionary equals
    no integer. *)
Definition eq_int (v : value) (z : Z) : bool :=
  match v with
  | VInt x => bool_decide (x = z)
  | VFloat f => bool_decide (float_compare f z = Some Eq)
  | VInstr _ => false
  end.

(** A value used as a list index or as the argument of [chr]: only an
    integer is one. *)
Definition as_index {S} (v : value) : M S Z :=
  match v with VInt z => mret z | _ => raise TypeError end.

(** Run a method of a component object [T] held in a field of [S]. *)
Definition on {S T A} (proj : S -> T) (upd : T -> S -> S) (m : M T A) : M S A :=
  fun s =>
    match m (proj s) with
    | Ok a t => Ok a (upd t s)
    | Stop t => Stop (upd t s)
    | Raise e => Raise e
    end.

(** ** isa.py: [write_code] and [read_code] *)

(** *** Python strings *)

(** The first character of a string and what follows it: the code point
    that the UTF-8 sequence at its head encodes.  [None] for the empty string
    (and for bytes that are no UTF-8, which stand for no Python string). *)
Definition byte (c : ascii) : Z := Z.of_N (N_of_ascii c).

Definition continuation (c : ascii) : option Z :=
  let b := byte c in
  if bool_decide (128 <= b < 192) then Some (b - 128) else None.

Definition utf8_head (s : string) : option (Z * string) :=
  match s with
  | EmptyString => None
  | String c r =>
      let b := byte c in
      if bool_decide (b < 128) then Some (b, r)
      else if bool_decide (b < 192) then None
      else if bool_decide (b < 224) then
        match r with
        | String c1 r1 =>
            x1 ← continuation c1;
            let cp := (b - 192) * 64 + x1 in
            if bool_decide (128 <= cp) then Some (cp, r1) else None
        | _ => None
        end
      else if bool_decide (b < 240) then
        match r with
        | String c1 (String c2 r2) =>
            x1 ← continuation c1;
            x2 ← continuation c2;
            let cp := (b - 224) * 4096 + x1 * 64 + x2 in
            if bool_decide (2048 <= cp /\ ~ 55296 <= cp <= 57343)
            then Some (cp, r2) else None
        | _ => None
        end
      else if bool_decide (b < 248) then
        match r with
        | String c1 (String c2 (String c3 r3)) =>
            x1 ← continuation c1;
            x2 ← continuation c2;
            x3 ← continuation c3;
            let cp := (b - 240) * 262144 + x1 * 4096 + x2 * 64 + x3 in
            if bool_decide (65536 <= cp <= 1114111) then Some (cp, r3) else None
        | _ => None
        end
      else None
  end.

Definition LF : ascii := ascii_of_nat 10.
Definition DQ : ascii := ascii_of_nat 34.
Definition str1 (c : ascii) : string := String c EmptyString.

(** [sep.join(l)] *)
Fixpoint join (sep : string) (l : list string) : string :=
  match l with
  | [] => EmptyString
  | [x] => x
  | x :: l' => x +:+ sep +:+ join sep l'
  end.

(** [s.startswith(p)], with what follows the prefix. *)
Fixpoint strip_prefix (p s : string) : option string :=
  match p, s with
  | EmptyString, _ => Some s
  | String a p', String b s' => if Ascii.eqb a b then strip_prefix p' s' else None
  | _, _ => None
  end.

(** [p in s] *)
Fixpoint contains (p s : string) : bool :=
  match strip_prefix p s with
  | Some _ => true
  | None => match s with
            | EmptyString => false
            | String _ s' => contains p s'
            end
  end.

(** [s.split(sep)] for a non-empty [sep]: [skip] characters of a separator
    just matched are still to be passed, [cur] is the piece read so far, in
    reverse. *)
Fixpoint split_go (sep s : string) (skip : nat) (cur : string) : list string :=
  match s with
  | EmptyString => [String.rev cur]
  | String a s' =>
      match skip with
      | S k => split_go sep s' k cur
      | O =>
          match strip_prefix sep s with
          | Some _ =>
              String.rev cur
              :: split_go sep s' (String.length sep - 1) EmptyString
          | None => split_go sep s' 0 (String a cur)
          end
      end
  end.

Definition split (sep s : string) : list string := split_go sep s 0 EmptyString.

(** [s.replace(old, new)] for a non-empty [old]. *)
Definition replace (old new s : string) : string := join new (split old s).

(** *** JSON values and [json.dumps(v, indent=4)] *)

(** The values of the program container: no floating point numbers. *)
#[local] Unset Elimination Schemes.
Inductive json : Type :=
| JNull
| JBool (b : bool)
| JInt (z : Z)
| JStr (s : string)
| JArr (l : list json)
| JObj (l : list (string * json)).
#[local] Set Elimination Schemes.

Definition hex_digit (n : N) : ascii :=
  match n with
  | 0 => "0" | 1 => "1" | 2 => "2" | 3 => "3" | 4 => "4" | 5 => "5" | 6 => "6"
  | 7 => "7" | 8 => "8" | 9 => "9" | 10 => "a" | 11 => "b" | 12 => "c"
  | 13 => "d" | 14 => "e" | _ => "f"
  end%N%char.

(** One character of a string literal as [ensure_ascii] writes it. *)
Definition escape_char (c : ascii) : string :=
  let n := N_of_ascii c in
  if (n =? 34)%N then String "\" (str1 DQ)
  else if (n =? 92)%N then "\\"
  else if (n =? 10)%N then "\n"
  else if (n =? 13)%N then "\r"
  else if (n =? 9)%N then "\t"
  else if (n =? 8)%N then "\b"
  else if (n =? 12)%N then "\f"
  else if ((32 <=? n) && (n <=? 126))%N then str1 c
  else "\u00" +:+ String (hex_digit (n / 16)) (str1 (hex_digit (n mod 16))).

Fixpoint escape (s : string) : string :=
  match s with
  | EmptyString => EmptyString
  | String c s' => escape_char c +:+ escape s'
  end.

Definition encode_string (s : string) : string :=
  String DQ (escape s +:+ str1 DQ).

Fixpoint spaces (n : nat) : string :=
  match n with
  | O => EmptyString
  | S n' => String " " (spaces n')
  end.

Definition newline_indent (level : nat) : string :=
  String LF (spaces (4 * level)).

Fixpoint dumps_at (level : nat) (v : json) : string :=
  match v with
  | JNull => "null"
  | JBool true => "true"
  | JBool false => "false"
  | JInt z => pretty z
  | JStr s => encode_string s
  | JArr [] => "[]"
  | JArr l =>
      "[" +:+ newline_indent (S level)
      +:+ join ("," +:+ newline_indent (S level)) (map (dumps_at (S level)) l)
      +:+ newline_indent level +:+ "]"
  | JObj [] => "{}"
  | JObj l =>
      "{" +:+ newline_indent (S level)
      +:+ join ("," +:+ newline_indent (S level))
            (map (fun kv => encode_string (fst kv) +:+ ": "
                            +:+ dumps_at (S level) (snd kv)) l)
      +:+ newline_indent level +:+ "}"
  end.

(** [json.dumps(v, indent=4)] *)
Definition dumps (v : json) : string := dumps_at 0 v.

(** *** [json.loads] *)

Definition is_ws (c : ascii) : bool :=
  let n := N_of_ascii c in
  ((n =? 32) || (n =? 9) || (n =? 10) || (n =? 13))%N.

Fixpoint skip_ws (s : string) : string :=
  match s with
  | String c s' => if is_ws c then skip_ws s' else s
  | EmptyString => s
  end.

Definition digit_of (c : ascii) : option Z :=
  let n := N_of_ascii c in
  if ((48 <=? n) && (n <=? 57))%N then Some (Z.of_N (n - 48)) else None.

Definition hex_of (c : ascii) : option N :=
  let n := N_of_ascii c in
  if ((48 <=? n) && (n <=? 57))%N then Some (n - 48)%N
  else if ((97 <=? n) && (n <=? 102))%N then Some (n - 87)%N
  else if ((65 <=? n) && (n <=? 70))%N then Some (n - 55)%N
  else None.

(** The digits at the head of [s], read after [acc], and the rest. *)
Fixpoint scan_digits (s : string) (acc : Z) : Z * string :=
  match s with
  | String c s' =>
      match digit_of c with
      | Some d => scan_digits s' (10 * acc + d)
      | None => (acc, s)
      end
  | EmptyString => (acc, s)
  end.

(** An integer literal: an optional minus sign, then 0 or a digit that is
    not 0 followed by digits; not followed by a fraction or an exponent
    (those make a float, which the container does not hold). *)
Definition scan_int (s : string) : option (Z * string) :=
  let '(neg, s1) := match s with
                    | String "-" r => (true, r)
                    | _ => (false, s)
                    end in
  match s1 with
  | String c r =>
      match digit_of c with
      | None => None
      | Some d =>
          let '(n, rest) := if (d =? 0) then (0, r) else scan_digits r d in
          match rest with
          | String "." _ | String "e" _ | String "E" _ => None
          | _ => Some (if neg then - n else n, rest)
          end
      end
  | EmptyString => None
  end.

(** The rest of a string literal, after its opening quote: the string and
    what follows its closing quote.  An escape [\uXXXX] above 255 is outside
    the characters of [ascii]. *)
Fixpoint scan_string (s : string) (acc : string) : option (string * string) :=
  match s with
  | EmptyString => None
  | String c s' =>
      if Ascii.eqb c DQ then Some (String.rev acc, s')
      else if Ascii.eqb c "\" then
        match s' with
        | String e s'' =>
            if Ascii.eqb e DQ then scan_string s'' (String DQ acc)
            else if Ascii.eqb e "\" then scan_string s'' (String "\" acc)
            else if Ascii.eqb e "/" then scan_string s'' (String "/" acc)
            else if Ascii.eqb e "b" then scan_string s'' (String (ascii_of_nat 8) acc)
            else if Ascii.eqb e "f" then scan_string s'' (String (ascii_of_nat 12) acc)
            else if Ascii.eqb e "n" then scan_string s'' (String (ascii_of_nat 10) acc)
            else if Ascii.eqb e "r" then scan_string s'' (String (ascii_of_nat 13) acc)
            else if Ascii.eqb e "t" then scan_string s'' (String (ascii_of_nat 9) acc)
            else if Ascii.eqb e "u" then
              match s'' with
              | String h1 (String h2 (String h3 (String h4 r))) =>
                  match hex_of h1, hex_of h2, hex_of h3, hex_of h4 with
                  | Some 0%N, Some 0%N, Some a, Some b =>
                      scan_string r (String (ascii_of_N (16 * a + b)) acc)
                  | _, _, _, _ => None
                  end
              | _ => None
              end
            else None
        | EmptyString => None
        end
      else if (N_of_ascii c <? 32)%N then None
      else scan_string s' (String c acc)
  end.

(** One JSON value at the head of [s] and what follows it; [fuel] bounds the
    nesting and the number of items. *)
Fixpoint parse_value (fuel : nat) (s : string) : option (json * string) :=
  match fuel with
  | O => None
  | S fuel' =>
      let fix items (n : nat) (s : string) (acc : list json)
          : option (list json * string) :=
        match n with
        | O => None
        | S n' =>
            match parse_value fuel' s with
            | None => None
            | Some (v, rest) =>
                match skip_ws rest with
                | String "," r => items n' (skip_ws r) (v :: acc)
                | String "]" r => Some (reverse (v :: acc), r)
                | _ => None
                end
            end
        end in
      let fix members (n : nat) (s : string) (acc : list (string * json))
          : option (list (string * json) * string) :=
        match n with
        | O => None
        | S n' =>
            match s with
            | String q r =>
                if Ascii.eqb q DQ then
                  match scan_string r EmptyString with
                  | None => None
                  | Some (k, rest) =>
                      match skip_ws rest with
                      | String ":" r' =>
                          match parse_value fuel' (skip_ws r') with
                          | None => None
                          | Some (v, rest') =>
                              match skip_ws rest' with
                              | String "," r'' =>
                                  members n' (skip_ws r'') ((k, v) :: acc)
                              | String "}" r'' => Some (reverse ((k, v) :: acc), r'')
                              | _ => None
                              end
                          end
                      | _ => None
                      end
                  end
                else None
            | EmptyString => None
            end
        end in
      match s with
      | EmptyString => None
      | String c r =>
          if Ascii.eqb c DQ then
            match scan_string r EmptyString with
            | Some (x, rest) => Some (JStr x, rest)
            | None => None
            end
          else if Ascii.eqb c "[" then
            match skip_ws r with
            | String "]" r' => Some (JArr [], r')
            | r' => match items fuel' r' [] with
                    | Some (l, rest) => Some (JArr l, rest)
                    | None => None
                    end
            end
          else if Ascii.eqb c "{" then
            match skip_ws r with
            | String "}" r' => Some (JObj [], r')
            | r' => match members fuel' r' [] with
                    | Some (l, rest) => Some (JObj l, rest)
                    | None => None
                    end
            end
          else
            match strip_prefix "null" s, strip_prefix "true" s, strip_prefix "false" s with
            | Some rest, _, _ => Some (JNull, rest)
            | _, Some rest, _ => Some (JBool true, rest)
            | _, _, Some rest => Some (JBool false, rest)
            | _, _, _ =>
                match scan_int s with
                | Some (z, rest) => Some (JInt z, rest)
                | None => None
                end
            end
      end
  end.

(** [json.loads(s)]; [None] is [JSONDecodeError] (or a float, which [json]
    does not hold). *)
Definition loads (s : string) : option json :=
  match parse_value (S (String.length s)) (skip_ws s) with
  | Some (v, rest) =>
      match skip_ws rest with
      | EmptyString => Some v
      | _ => None
      end
  | None => None
  end.

(** *** The program container *)

Definition scalar_to_json (a : scalar) : json :=
  match a with
  | SInt z => JInt z
  | SStr s => JStr s
  end.

(** A [Term] is a tuple: [json.dumps] writes it as an array. *)
Definition Term_to_json (t : Term) : json :=
  JArr [scalar_to_json (line_num t); scalar_to_json (com t);
        scalar_to_json (t_arg t)].

(** An instruction dictionary, its keys in the order opcode, arg, term; an
    [Opcode] member is a [str] and is written as its value. *)
Definition Instr_to_json (i : Instr) : json :=
  JObj ([("opcode", JStr (Opcode_value (opcode i)))]
        ++ match arg i with
           | Some a => [("arg", scalar_to_json a)]
           | None => []
           end
        ++ match term i with
           | Some t => [("term", Term_to_json t)]
           | None => []
           end).

(** [write_code]: the text written to the file. *)
Definition write_code (code : list Instr) (data : list Z) : string :=
  (if negb (bool_decide (len data = 0)) then
     "data: " +:+ dumps (JArr (JInt <$> data)) +:+ str1 LF
   else EmptyString)
  +:+ dumps (JArr (Instr_to_json <$> code)).

(** [d[k]] on a JSON object: the last member with that key. *)
Definition member (k : string) (l : list (string * json)) : option json :=
  snd <$> last (filter (fun kv => fst kv = k) l).

Definition json_to_scalar (v : json) : option scalar :=
  match v with
  | JInt z => Some (SInt z)
  | JStr s => Some (SStr s)
  | _ => None
  end.

(** The body of the loop of [read_code] on one element of [code].
    [NotAProgram] stands for a JSON value that Python would keep but that is
    no instruction of the container: an argument or a term field that is
    neither an integer nor a string. *)
Definition rehydrate (v : json) : Instr + error :=
  match v with
  | JObj l =>
      match member "opcode" l with
      | None => inr KeyError
      | Some o =>
          match o with
          | JStr name =>
              match Opcode_of_value name with
              | None => inr ValueError
              | Some op =>
                  let a := match member "arg" l with
                           | None => inl None
                           | Some x => match json_to_scalar x with
                                       | Some a => inl (Some a)
                                       | None => inr NotAProgram
                                       end
                           end in
                  let t := match member "term" l with
                           | None => inl None
                           | Some (JArr (x :: y :: z :: _)) =>
                               match json_to_scalar x, json_to_scalar y,
                                     json_to_scalar z with
                               | Some x, Some y, Some z => inl (Some (mkTerm x y z))
                               | _, _, _ => inr NotAProgram
                               end
                           | Some (JArr _) => inr IndexError
                           | Some _ => inr NotAProgram
                           end in
                  match a, t with
                  | inl a, inl t => inl (mkInstr op a t)
                  | inr e, _ => inr e
                  | _, inr e => inr e
                  end
              end
          | _ => inr ValueError
          end
      end
  | _ => inr TypeError
  end.

(** Collect the results of a loop that stops at the first exception. *)
Fixpoint collect {A} (l : list (A + error)) : list A + error :=
  match l with
  | [] => inl []
  | inr e :: _ => inr e
  | inl a :: l' =>
      match collect l' with
      | inl r => inl (a :: r)
      | inr e => inr e
      end
  end.

Definition json_to_data (v : json) : list Z + error :=
  match v with
  | JArr l => collect ((fun x => match x with
                                 | JInt z => inl z
                                 | _ => inr NotAProgram
                                 end) <$> l)
  | _ => inr NotAProgram
  end.

(** [file.read()]: the text from the position of the file on, and the file
    at its end. *)
Definition file_read (file : string) : string * string := (file, EmptyString).

(** [read_code] on a file with the given text.  In the branch without data
    the file is read a second time, and [data] is bound nowhere. *)
Definition read_code (file : string) : list Instr * list Z + error :=
  let '(full, file) := file_read file in
  let parsed : json * option json + error :=
    if contains "data" full then
      let split_content := split (String "]" (String LF "[")) full in
      match split_content !! 0%nat with
      | None => inr IndexError
      | Some part0 =>
          let data_part := replace "data: " EmptyString part0 +:+ "]" in
          match split_content !! 1%nat with
          | None => inr IndexError
          | Some part1 =>
              let code_part := "[" +:+ part1 in
              match loads data_part with
              | None => inr JSONDecodeError
              | Some data =>
                  match loads code_part with
                  | None => inr JSONDecodeError
                  | Some code => inl (code, Some data)
                  end
              end
          end
      end
    else
      match loads (fst (file_read file)) with
      | None => inr JSONDecodeError
      | Some code => inl (code, None)
      end in
  match parsed with
  | inr e => inr e
  | inl (code, data) =>
      match code with
      | JArr l =>
          match collect (rehydrate <$> l) with
          | inr e => inr e
          | inl code =>
              match data with
              | None => inr UnboundLocalError
              | Some data =>
                  match json_to_data data with
                  | inl data => inl (code, data)
                  | inr e => inr e
                  end
              end
          end
      | _ => inr TypeError
      end
  end.

(** ** machine.py: [class Memory] *)

Record Memory : Type := mkMemory {
  data_address : value;
  memory_size : Z;
  data : list value;
  program_start : Z;
  program_len : Z;
  input_buffer : list string;
  output_buffer : list string
}.

Definition set_data_address (a : value) (m : Memory) : Memory :=
  mkMemory a (memory_size m) (data m) (program_start m) (program_len m)
           (input_buffer m) (output_buffer m).

Definition set_data (d : list value) (m : Memory) : Memory :=
  mkMemory (data_address m) (memory_size m) d (program_start m) (program_len m)
           (input_buffer m) (output_buffer m).

Definition set_input_buffer (b : list string) (m : Memory) : Memory :=
  mkMemory (data_address m) (memory_size m) (data m) (program_start m)
           (program_len m) b (output_buffer m).

Definition set_output_buffer (b : list string) (m : Memory) : Memory :=
  mkMemory (data_address m) (memory_size m) (data m) (program_start m)
           (program_len m) (input_buffer m) b.

(** [[0] * n]: the empty list for [n <= 0]. *)
Definition zeros (n : Z) : list value := replicate (Z.to_nat n) (VInt 0).

(** [Memory.__init__]; [inr e] when an assertion fails. *)
Definition Memory_init (memory_size : Z) (program : list Instr)
    (input_buffer : list string) (data : list Z) : Memory + error :=
  if negb (bool_decide (memory_size > 0)) then inr AssertionError
  else if negb (bool_decide (memory_size > len program + 128)) then inr AssertionError
  else inl {|
    data_address := VInt 0;
    memory_size := memory_size;
    data := (VInt <$> data) ++ zeros (memory_size - len program - len data)
            ++ (VInstr <$> program);
    program_start := memory_size - len program;
    program_len := len program;
    input_buffer := input_buffer;
    output_buffer := []
  |}.

Definition latch_data_address (val : value) : M Memory unit :=
  sz ← gets memory_size;
  b ← between 0 val sz;
  assert b;;
  modify (set_data_address val).

(** [ord(s[0])]: the code point of the first character; [None] is the
    [IndexError] of the empty string. *)
Definition ord_first (s : string) : option Z := fst <$> utf8_head s.

Definition read : M Memory value :=
  a ← gets data_address;
  assert (negb (eq_int a 1));;
  if negb (eq_int a 0) then
    d ← gets data; i ← as_index a; index_ok (getitem d i)
  else
    buf ← gets input_buffer;
    match buf with
    | [] => StopIteration
    | value_as_string :: rest =>
        modify (set_input_buffer rest);;
        value ← index_ok (ord_first value_as_string);
        d ← gets data;
        d' ← index_ok (setitem d 0 (VInt value));
        modify (set_data d');;
        mret (VInt value)
    end.

(** [chr(v)] for [0 <= v <= 127]. *)
Definition chr (v : Z) : string := String (ascii_of_N (Z.to_N v)) EmptyString.

(** [str(v)] for an integer. *)
Definition str (v : Z) : string := pretty v.

(** [str(v)] for a number; [Memory.write] reaches it with nothing else, a
    dictionary having failed the comparison before. *)
Definition str_value (v : value) : string :=
  match v with
  | VInt z => str z
  | VFloat f => float_repr f
  | VInstr _ => EmptyString
  end.

Definition write (value : value) : M Memory unit :=
  a ← gets data_address;
  assert (negb (eq_int a 0));;
  if negb (eq_int a 1) then
    d ← gets data;
    i ← as_index a;
    d' ← index_ok (setitem d i value);
    modify (set_data d')
  else
    d ← gets data;
    d' ← index_ok (setitem d 1 value);
    modify (set_data d');;
    b ← between 0 value 127;
    token ← (if b : bool then v ← as_index value; mret (chr v)
             else mret (str_value value) : M Memory string);
    out ← gets output_buffer;
    modify (set_output_buffer (out ++ [token])).

(** [Memory.get_instruction]; the program counter is whatever was latched,
    an integer or (after a jump to a string argument) a string. *)
Definition get_instruction (pc : scalar) : M Memory value :=
  p ← match pc with
      | SInt p => mret p
      | SStr _ => raise TypeError
      end;
  plen ← gets program_len;
  assert (bool_decide (p < plen));;
  start ← gets program_start;
  let pc' := p + start in
  sz ← gets memory_size;
  assert (bool_decide (128 <= pc' <= sz));;
  d ← gets data;
  index_ok (getitem d pc').

(** ** machine.py: [class DataPath] *)

Record DataPath : Type := mkDataPath {
  stack : list value;
  head : Z;
  dp_memory_size : Z;
  alu : value
}.

Definition set_stack (st : list value) (d : DataPath) : DataPath :=
  mkDataPath st (head d) (dp_memory_size d) (alu d).

Definition set_head (h : Z) (d : DataPath) : DataPath :=
  mkDataPath (stack d) h (dp_memory_size d) (alu d).

Definition set_alu (a : value) (d : DataPath) : DataPath :=
  mkDataPath (stack d) (head d) (dp_memory_size d) a.

(** [DataPath.__init__]; the [memory] field aliases the control unit's
    memory and is never used through the data path, so it lives once, in the
    control unit. *)
Definition DataPath_init (memory_size : Z) : DataPath + error :=
  if negb (bool_decide (memory_size > 0)) then inr AssertionError
  else inl {|
    stack := zeros memory_size;
    head := 0;
    dp_memory_size := memory_size;
    alu := VInt 0
  |}.

Definition get_tos (offset : Z) : M DataPath value :=
  assert (bool_decide (0 <= offset <= 3));;
  h ← gets head;
  assert (bool_decide (offset < h));;
  st ← gets stack;
  index_ok (getitem st (h - offset - 1)).

Definition latch_head (sel_val : Z) : M DataPath unit :=
  assert (bool_decide (sel_val ∈ [-1; -3; 1; -2]));;
  h ← gets head;
  modify (set_head (h + sel_val));;
  h' ← gets head;
  sz ← gets dp_memory_size;
  assert (bool_decide (0 <= h' < sz)).

Definition push (val : value) : M DataPath unit :=
  st ← gets stack;
  h ← gets head;
  st' ← index_ok (setitem st h val);
  modify (set_stack st');;
  latch_head 1.

Definition oe_stack (offset : Z) (selector : option Opcode) : M DataPath value :=
  h ← gets head;
  assert (bool_decide (h >= 1));;
  val ← get_tos offset;
  if bool_decide (selector ∈ [Some READ_NDR; Some WR_NDR]) then
    match val with
    | VInt v => mret (VInt (v + 1))
    | VFloat f => mret (VFloat (float_add_1 f))
    | VInstr _ => raise TypeError
    end
  else mret val.

(** [(0, -1)[b]] *)
Definition truth (b : bool) : Z := if b then -1 else 0.

Definition is_true : M DataPath Z :=
  t ← get_tos 0;
  let res := truth (eq_int t (-1)) in
  latch_head (-1);;
  mret res.

(** [b ** e] on integers.  With a negative exponent Python turns both into
    floats ([OverflowError] for one beyond the doubles) and returns the float
    power, [ZeroDivisionError] for the base zero. *)
Definition py_pow {S} (b e : Z) : M S value :=
  if bool_decide (0 <= e) then mret (VInt (b ^ e))
  else
    iv ← float_of_int b;
    iw ← float_of_int e;
    if bool_decide (b = 0) then raise ZeroDivisionError
    else mret (VFloat (float_pow (trunc iv) (trunc iw))).

(** What [int(t0) ** int(t1)] is for the integers [t0] and [t1], case by
    case: the integer power for an exponent that is not negative; for a
    negative one [OverflowError] when one of the two has no double, else
    [ZeroDivisionError] for the base zero, else the float power. *)
Definition power (t0 t1 : Z) : value + error :=
  if bool_decide (0 <= t1) then inl (VInt (t0 ^ t1))
  else if negb (fits_double t0 && fits_double t1) then inr OverflowError
  else if bool_decide (t0 = 0) then inr ZeroDivisionError
  else inl (VFloat (float_pow (nearest t0) (nearest t1))).

(** [a % b] on integers: the sign of the divisor, as [Z.modulo]. *)
Definition py_mod {S} (a b : Z) : M S Z :=
  if bool_decide (b = 0) then raise ZeroDivisionError else mret (a `mod` b).

Definition latch_alu (op_sel : Opcode) : M DataPath unit :=
  when (bool_decide (op_sel = READ_NDR))
    (a ← get_tos 1 ≫= int; modify (set_alu (VInt (a + 1))));;
  when (bool_decide (op_sel = MOD))
    (a ← get_tos 1 ≫= int; b ← get_tos 0 ≫= int;
     r ← py_mod a b; modify (set_alu (VInt r)));;
  when (bool_decide (op_sel = PLUS))
    (a ← get_tos 1 ≫= int; b ← get_tos 0 ≫= int;
     modify (set_alu (VInt (a + b))));;
  when (bool_decide (op_sel = MULT))
    (a ← get_tos 1 ≫= int; b ← get_tos 0 ≫= int;
     modify (set_alu (VInt (a * b))));;
  when (bool_decide (op_sel = POW))
    (a ← get_tos 0 ≫= int; b ← get_tos 1 ≫= int;
     r ← py_pow a b; modify (set_alu r));;
  when (bool_decide (op_sel = LT))
    (a ← get_tos 1 ≫= int; b ← get_tos 0 ≫= int;
     modify (set_alu (VInt (truth (bool_decide (a < b))))));;
  when (bool_decide (op_sel = NEG))
    (a ← get_tos 0 ≫= int; modify (set_alu (VInt (a * (-1)))));;
  when (bool_decide (op_sel = INV))
    (a ← get_tos 0 ≫= int; modify (set_alu (VInt ((a + 1) * (-1)))));;
  when (bool_decide (op_sel = JNT))
    (a ← get_tos 0 ≫= int;
     modify (set_alu (VInt (truth (bool_decide (a = -1)))))).

(** ** machine.py: [class ControlUnit] *)

Record ControlUnit : Type := mkControlUnit {
  data_path : DataPath;
  mem : Memory;
  pc : scalar;
  _tick : Z
}.

Definition set_data_path (d : DataPath) (c : ControlUnit) : ControlUnit :=
  mkControlUnit d (mem c) (pc c) (_tick c).

Definition set_mem (m : Memory) (c : ControlUnit) : ControlUnit :=
  mkControlUnit (data_path c) m (pc c) (_tick c).

Definition set_pc (p : scalar) (c : ControlUnit) : ControlUnit :=
  mkControlUnit (data_path c) (mem c) p (_tick c).

Definition set_tick (t : Z) (c : ControlUnit) : ControlUnit :=
  mkControlUnit (data_path c) (mem c) (pc c) t.

(** [self.data_path.m(...)] and [self.mem.m(...)] *)
Definition dp {A} (m : M DataPath A) : M ControlUnit A := on data_path set_data_path m.
Definition mm {A} (m : M Memory A) : M ControlUnit A := on mem set_mem m.

Definition ControlUnit_init (data_path : DataPath) (memory : Memory) : ControlUnit :=
  {| data_path := data_path; mem := memory; pc := SInt 0; _tick := 0 |}.

(** [ControlUnit.tick]; the logging call has no effect on the state. *)
Definition tick : M ControlUnit unit :=
  t ← gets _tick; modify (set_tick (t + 1)).

Definition cur_tick (c : ControlUnit) : Z := _tick c.

(** [instr[...]] needs a dictionary. *)
Definition as_instr {S} (v : value) : M S Instr :=
  match v with VInstr i => mret i | _ => raise TypeError end.

(** [instr["arg"]] *)
Definition get_arg {S} (instr : Instr) : M S scalar :=
  match arg instr with Some a => mret a | None => raise KeyError end.

Definition latch_pc (sel_next : bool) : M ControlUnit unit :=
  if sel_next then
    p ← gets pc;
    match p with
    | SInt p => modify (set_pc (SInt (p + 1)))
    | SStr _ => raise TypeError
    end
  else
    p ← gets pc;
    instr ← mm (get_instruction p) ≫= as_instr;
    assert (bool_decide (opcode instr ∈ [JMP; JNT]));;
    assert (bool_decide (is_Some (arg instr)));;
    a ← get_arg instr;
    modify (set_pc a).

Section Microcode.

(** [translator.is_number] is imported from a module that is not part of the
    sources at hand, and [int(s)] on a string is Python's literal parser:
    both are parameters of the microcode ([None] is [ValueError]). *)
Variable is_number : scalar -> bool.
Variable int_of_str : string -> option Z.

Definition micro_read_direct (instr : Instr) : M ControlUnit unit :=
  top ← dp (oe_stack 0 None);
  mm (latch_data_address top);;
  dp (latch_head (-1));;
  tick;;
  val ← mm read;
  dp (push val);;
  latch_pc true;;
  tick.

Definition micro_read_indirect (instr : Instr) : M ControlUnit unit :=
  address ← dp (oe_stack 0 None);
  mm (latch_data_address address);;
  tick;;
  val ← mm read;
  dp (push val);;
  tick;;
  address ← dp (oe_stack 0 None);
  mm (latch_data_address address);;
  tick;;
  val ← mm read;
  dp (push val);;
  tick;;
  v1 ← dp (get_tos 0);
  v2 ← dp (get_tos 1);
  v3 ← dp (get_tos 2);
  dp (latch_head (-3));;
  dp (push v1);;
  dp (push v2);;
  dp (push v3);;
  tick;;
  address ← dp (oe_stack 0 None);
  mm (latch_data_address address);;
  tick;;
  val ← dp (oe_stack 1 (Some (opcode instr)));
  mm (write val);;
  dp (latch_head (-2));;
  latch_pc true;;
  tick.

Definition micro_write_direct (instr : Instr) : M ControlUnit unit :=
  address ← dp (get_tos 0);
  mm (latch_data_address address);;
  tick;;
  val ← dp (oe_stack 1 None);
  mm (write val);;
  dp (latch_head (-2));;
  latch_pc true;;
  tick.

Definition micro_write_indirect (instr : Instr) : M ControlUnit unit :=
  address ← dp (oe_stack 0 None);
  mm (latch_data_address address);;
  tick;;
  val ← mm read;
  dp (push val);;
  tick;;
  address ← dp (oe_stack 0 None);
  mm (latch_data_address address);;
  tick;;
  val ← dp (oe_stack 2 None);
  mm (write val);;
  tick;;
  address ← dp (oe_stack 1 None);
  mm (latch_data_address address);;
  tick;;
  val ← dp (oe_stack 0 (Some (opcode instr)));
  mm (write val);;
  dp (latch_head (-3));;
  latch_pc true;;
  tick.

Definition micro_jump_if_not_true (instr : Instr) : M ControlUnit unit :=
  t ← dp is_true;
  (if negb (bool_decide (t = 0)) then latch_pc true else latch_pc false);;
  tick.

Definition micro_halt (instr : Instr) : M ControlUnit unit := StopIteration.

Definition micro_no_operation (instr : Instr) : M ControlUnit unit :=
  latch_pc true;;
  tick.

Definition micro_alu_operation (instr : Instr) : M ControlUnit unit :=
  dp (latch_alu (opcode instr));;
  (if bool_decide (opcode instr ∈ [NEG; INV])
   then dp (latch_head (-1))
   else dp (latch_head (-2)));;
  tick;;
  a ← dp (gets alu);
  dp (push a);;
  latch_pc true;;
  tick.

Definition micro_rotate (instr : Instr) : M ControlUnit unit :=
  v1 ← dp (get_tos 1);
  v2 ← dp (get_tos 0);
  v3 ← dp (get_tos 2);
  dp (latch_head (-3));;
  dp (push v1);;
  dp (push v2);;
  dp (push v3);;
  latch_pc true;;
  tick.

Definition micro_duplicate (instr : Instr) : M ControlUnit unit :=
  v ← dp (get_tos 0);
  dp (push v);;
  latch_pc true;;
  tick.

Definition micro_over (instr : Instr) : M ControlUnit unit :=
  v ← dp (get_tos 1);
  dp (push v);;
  latch_pc true;;
  tick.

Definition micro_swap (instr : Instr) : M ControlUnit unit :=
  v1 ← dp (get_tos 0);
  v2 ← dp (get_tos 1);
  dp (latch_head (-2));;
  dp (push v1);;
  dp (push v2);;
  latch_pc true;;
  tick.

(** [int(a)] and [ord(a)] on an instruction argument. *)
Definition int_arg {S} (a : scalar) : M S Z :=
  match a with
  | SInt z => mret z
  | SStr s => match int_of_str s with Some z => mret z | None => raise ValueError end
  end.

Definition ord_arg {S} (a : scalar) : M S Z :=
  match a with
  | SStr s =>
      match utf8_head s with
      | Some (cp, EmptyString) => mret cp
      | _ => raise TypeError
      end
  | SInt _ => raise TypeError
  end.

Definition micro_push (instr : Instr) : M ControlUnit unit :=
  a ← get_arg instr;
  value ← (if is_number a then int_arg a else ord_arg a);
  dp (push (VInt value));;
  latch_pc true;;
  tick.

Definition micro_drop (instr : Instr) : M ControlUnit unit :=
  dp (latch_head (-1));;
  latch_pc true;;
  tick.

Definition micro_jump (instr : Instr) : M ControlUnit unit :=
  addr ← get_arg instr;
  modify (set_pc addr);;
  tick.

(** The [handlers] dictionary of [execute_micro_operation]; [None] is what
    [handlers.get(opcode)] returns for a key that has no entry. *)
Definition handlers (op : Opcode) : option (Instr -> M ControlUnit unit) :=
  match op with
  | READ_DIR => Some micro_read_direct
  | READ_NDR => Some micro_read_indirect
  | WR_DIR => Some micro_write_direct
  | WR_NDR => Some micro_write_indirect
  | JNT => Some micro_jump_if_not_true
  | HALT => Some micro_halt
  | BEGIN => Some micro_no_operation
  | NOP => Some micro_no_operation
  | MOD => Some micro_alu_operation
  | PLUS => Some micro_alu_operation
  | MULT => Some micro_alu_operation
  | LT => Some micro_alu_operation
  | DIV => Some micro_alu_operation
  | POW => Some micro_alu_operation
  | NEG => Some micro_alu_operation
  | INV => Some micro_alu_operation
  | ROT => Some micro_rotate
  | DUP => Some micro_duplicate
  | OVER => Some micro_over
  | SWAP => Some micro_swap
  | PUSH => Some micro_push
  | DROP => Some micro_drop
  | JMP => Some micro_jump
  | _ => None
  end.

Definition execute_micro_operation (instr : Instr) : M ControlUnit unit :=
  match handlers (opcode instr) with
  | Some handler => handler instr
  | None => mret tt
  end.

Definition decode_and_execute : M ControlUnit unit :=
  p ← gets pc;
  instr ← mm (get_instruction p);
  i ← as_instr instr;
  execute_micro_operation i.

(** ** machine.py: [simulation] *)

(** What a call of [simulation] does: it returns the triple, or an exception
    other than [StopIteration] leaves it. *)
Inductive sim_result : Type :=
| Returned (output : list string) (instr_counter : Z) (ticks : Z)
| Raised (e : error).

(** The [while True] loop inside the [try]: it ends with the control unit
    and the instruction counter as they are after the [break] or when
    [StopIteration] is caught, or with an exception. *)
Equations? run (limit : Z) (instruct_counter : Z) (control_unit : ControlUnit)
    : ControlUnit * Z + error by wf (Z.to_nat (limit - instruct_counter)) lt :=
  run limit instruct_counter control_unit
    with decide (limit <= instruct_counter) => {
    | left _ => inl (control_unit, instruct_counter)
    | right _ with decode_and_execute control_unit => {
      | Ok _ control_unit' => run limit (instruct_counter + 1) control_unit'
      | Stop control_unit' => inl (control_unit', instruct_counter)
      | Raise e => inr e } }.
Proof. lia. Qed.

Definition simulation (code : list Instr) (data_memory_size : Z) (limit : Z)
    (input_buffer : list string) (data : list Z) : sim_result :=
  match Memory_init data_memory_size code input_buffer data with
  | inr e => Raised e
  | inl memory =>
      match DataPath_init 256 with
      | inr e => Raised e
      | inl data_path =>
          let control_unit := ControlUnit_init data_path memory in
          match run limit 0 control_unit with
          | inl (control_unit', instruct_counter) =>
              Returned (output_buffer (mem control_unit')) instruct_counter
                       (cur_tick control_unit')
          | inr e => Raised e
          end
      end
  end.

(** The states of a run of [simulation]: the control unit as constructed,
    and after each [decode_and_execute] that returned or that ended in the
    [StopIteration] the loop catches. *)
Inductive reachable (code : list Instr) (data_memory_size : Z)
    (input_buffer : list string) (data : list Z) : ControlUnit -> Prop :=
| reachable_init memory data_path :
    Memory_init data_memory_size code input_buffer data = inl memory ->
    DataPath_init 256 = inl data_path ->
    reachable code data_memory_size input_buffer data
              (ControlUnit_init data_path memory)
| reachable_ok c c' :
    reachable code data_memory_size input_buffer data c ->
    decode_and_execute c = Ok tt c' ->
    reachable code data_memory_size input_buffer data c'
| reachable_stop c c' :
    reachable code data_memory_size input_buffer data c ->
    decode_and_execute c = Stop c' ->
    reachable code data_memory_size input_buffer data c'.

(** [n] calls of [decode_and_execute] in a row that all return. *)
Inductive steps : nat -> ControlUnit -> ControlUnit -> Prop :=
| steps_O c : steps 0 c c
| steps_S n c c' c'' :
    decode_and_execute c = Ok tt c' ->
    steps n c' c'' ->
    steps (S n) c c''.

End Microcode.

(** ** The operand stack as a list, and the state invariants *)

(** The occupied slots of the operand stack, top first. *)
Definition operands (d : DataPath) : list value :=
  reverse (take (Z.to_nat (head d)) (stack d)).

(** The data path as its constructor and [latch_head] keep it. *)
Definition dp_wf (d : DataPath) : Prop :=
  len (stack d) = dp_memory_size d /\ 0 <= head d < dp_memory_size d.

(** The state after [push v]. *)
Definition pushed (v : value) (d : DataPath) : DataPath :=
  mkDataPath (<[Z.to_nat (head d):=v]> (stack d)) (head d + 1)
             (dp_memory_size d) (alu d).

(** [d'] holds the operands [ops] and the accumulator [a], and has the
    capacity of [d]. *)
Definition dp_next (d d' : DataPath) (ops : list value) (a : value) : Prop :=
  dp_wf d' /\ operands d' = ops /\ head d' = len ops /\
  dp_memory_size d' = dp_memory_size d /\ alu d' = a.

(** The instruction [i] runs to its end from [c] as an arithmetic
    instruction does: its operands are gone and [r] is pushed on [rest], [r]
    is also what the accumulator holds, the memory is as it was, the program
    counter has advanced by one and 2 ticks have elapsed. *)
Definition alu_pushes (is_number : scalar -> bool)
    (int_of_str : string -> option Z) (i : Instr) (c : ControlUnit)
    (r : value) (rest : list value) : Prop :=
  exists c',
    execute_micro_operation is_number int_of_str i c = Ok tt c' /\
    operands (data_path c') = r :: rest /\
    alu (data_path c') = r /\
    head (data_path c') = len rest + 1 /\
    dp_wf (data_path c') /\
    mem c' = mem c /\
    (exists p, pc c = SInt p /\ pc c' = SInt (p + 1)) /\
    _tick c' = _tick c + 2.

(** The opcodes that [handlers] maps to [micro_alu_operation]. *)
Definition alu_opcodes : list Opcode := [MOD; PLUS; MULT; LT; DIV; POW; NEG; INV].

(** A property of the control unit that only reads its data path. *)
Definition on_data_path (J : DataPath -> Prop) (c : ControlUnit) : Prop :=
  J (data_path c).

(** The data path of [simulation]: capacity 256, a stack of that length and
    the head inside it. *)
Definition stack_inv (d : DataPath) : Prop :=
  dp_memory_size d = 256 /\ dp_wf d.

(** The ticks of each opcode's microprogram when it runs to its end. *)
Definition cost (op : Opcode) : Z :=
  match op with
  | READ_DIR => 2
  | READ_NDR => 7
  | WR_DIR => 2
  | WR_NDR => 6
  | JNT | JMP => 1
  | HALT => 0
  | BEGIN | NOP => 1
  | MOD | PLUS | MULT | LT | DIV | POW | NEG | INV => 2
  | ROT | DUP | OVER | SWAP | PUSH | DROP => 1
  | MINUS | PRINT => 0
  end.

(** ** Sample inputs *)

(** Modelled from the spec: [translator.is_number] and Python's [int] on a
    string are not among the sources; the spec has [PUSH] push "a numeric
    literal, or the character code if the argument is a single character".
    Here a numeric literal is an integer or a string of decimal digits with
    an optional minus sign.  Only the closed examples use these two. *)
Definition int_of_decimal (s : string) : option Z :=
  Z.of_int <$> NilZero.int_of_string s.

Definition is_number_literal (a : scalar) : bool :=
  match a with
  | SInt _ => true
  | SStr s => bool_decide (is_Some (int_of_decimal s))
  end.

(** The unconditional self-jump. *)
Definition self_jump : Instr := mkInstr JMP (Some (SInt 0)) None.

(** An instruction without argument and term. *)
Definition op (o : Opcode) : Instr := mkInstr o None None.

(** A program with each shape of instruction. *)
Definition sample_code : list Instr :=
  [ mkInstr PUSH (Some (SInt 72)) (Some (mkTerm (SInt 1) (SInt 0) (SStr "72")));
    mkInstr PUSH (Some (SStr "A")) None;
    mkInstr WR_DIR None (Some (mkTerm (SInt 2) (SInt 1) (SStr "!")));
    mkInstr INV None None;
    mkInstr JMP (Some (SInt 0)) None;
    mkInstr HALT None None ].

(** A power with a negative exponent, two to the power minus one, then
    what follows. *)
Definition half_code (then_ : list Instr) : list Instr :=
  [mkInstr PUSH (Some (SInt (-1))) None; mkInstr PUSH (Some (SInt 2)) None;
   op POW] ++ then_.

(** The float one half. *)
Definition one_half : spec_float := S754_finite false 4503599627370496 (-53).

(** A memory of 600 words as [Memory.__init__] builds it. *)
Definition sample_memory (code : list Instr) (data : list Z) : Memory :=
  match Memory_init 600 code [] data with
  | inl m => m
  | inr _ => mkMemory (VInt 0) 0 [] 0 0 [] []
  end.

(** The data path of capacity 256 after pushing [ops], last one first, with
    [a] in the accumulator. *)
Definition sample_data_path (ops : list value) (a : Z) : DataPath :=
  foldr pushed (mkDataPath (zeros 256) 0 256 (VInt a)) ops.

Definition sample_unit (ops : list value) (a : Z) (code : list Instr)
    (data : list Z) : ControlUnit :=
  mkControlUnit (sample_data_path ops a) (sample_memory code data) (SInt 0) 0.

(** The accumulator holds [a]. *)
Definition alu_is (a : value) (d : DataPath) : Prop := alu d = a.

(** [m] leaves the program counter as it is. *)
Definition keeps_pc {A} (m : M ControlUnit A) : Prop :=
  forall c,
    match m c with
    | Ok _ c' => pc c' = pc c
    | _ => True
    end.

(** [m] latches the program counter to the next instruction. *)
Definition advances_pc {A} (m : M ControlUnit A) : Prop :=
  forall c,
    match m c with
    | Ok _ c' => exists p, pc c = SInt p /\ pc c' = SInt (p + 1)
    | _ => True
    end.

(** ** Weakest preconditions for the methods *)

(** [wp m Q s]: from [s], [m] returns normally, in a state and with a value
    that satisfy [Q]. *)
Definition wp {S A} (m : M S A) (Q : A -> S -> Prop) (s : S) : Prop :=
  match m s with
  | Ok a s' => Q a s'
  | _ => False
  end.

(** [preserves I m]: however [m] ends without an exception other than
    [StopIteration], a state that satisfied [I] still does. *)
Definition preserves {S A} (I : S -> Prop) (m : M S A) : Prop :=
  forall s, I s ->
    match m s with
    | Ok _ s' => I s'
    | Stop s' => I s'
    | Raise _ => True
    end.

(** [ticks n m]: when [m] returns normally, the tick counter has advanced
    by [n]. *)
Definition ticks {A} (n : Z) (m : M ControlUnit A) : Prop :=
  forall c,
    match m c with
    | Ok _ c' => _tick c' = _tick c + n
    | _ => True
    end.

(** ** Notions of the further properties *)

(** The result of the two-operand cases of [latch_alu], [t0] the top and
    [t1] the second; [MOD] has none for a zero divisor. *)
Definition binary_result (op : Opcode) (t0 t1 : Z) : option Z :=
  match op with
  | PLUS => Some (t1 + t0)
  | MULT => Some (t1 * t0)
  | LT => Some (truth (bool_decide (t1 < t0)))
  | MOD => if bool_decide (t0 = 0) then None else Some (t1 `mod` t0)
  | _ => None
  end.

(** What each operation of the arithmetic unit computes from the integers
    of its operands, [t0] that of the top and [t1] that of the second: [None]
    where it raises and for the opcodes that compute nothing. *)
Definition alu_result (op : Opcode) (t0 t1 : Z) : option value :=
  match op with
  | MOD | PLUS | MULT | LT => VInt <$> binary_result op t0 t1
  | POW => match power t0 t1 with inl r => Some r | inr _ => None end
  | NEG => Some (VInt (- t0))
  | INV => Some (VInt (- (t0 + 1)))
  | _ => None
  end.

(** [m'] has the size and the program bounds of [m]. *)
Definition same_geometry (m m' : Memory) : Prop :=
  memory_size m' = memory_size m /\ program_start m' = program_start m /\
  program_len m' = program_len m.

(** The token [Memory.write] appends for the integer [v]. *)
Definition output_token (v : Z) : string :=
  if bool_decide (0 <= v <= 127) then chr v else str v.

(** The instruction that [decode_and_execute] fetches in the state [c]. *)
Definition fetch (c : ControlUnit) : option Instr :=
  match get_instruction (pc c) (mem c) with
  | Ok (VInstr i) _ => Some i
  | _ => None
  end.

(** What an instruction may change in the memory [m]: not its size, its
    program bounds or the number of its cells; the output only grows at its
    end and the input is only consumed from its front. *)
Definition memory_frame (m m' : Memory) : Prop :=
  same_geometry m m' /\
  length (data m') = length (data m) /\
  prefix (output_buffer m) (output_buffer m') /\
  suffix (input_buffer m') (input_buffer m).

(** The loops of [parse_value] over the items of an array and the members
    of an object, with the parser of the values as a parameter. *)
Definition items_of (pv : string -> option (json * string))
    : nat -> string -> list json -> option (list json * string) :=
  fix items (n : nat) (s : string) (acc : list json)
      : option (list json * string) :=
    match n with
    | O => None
    | S n' =>
        match pv s with
        | None => None
        | Some (v, rest) =>
            match skip_ws rest with
            | String "," r => items n' (skip_ws r) (v :: acc)
            | String "]" r => Some (reverse (v :: acc), r)
            | _ => None
            end
        end
    end.

Definition members_of (pv : string -> option (json * string))
    : nat -> string -> list (string * json)
      -> option (list (string * json) * string) :=
  fix members (n : nat) (s : string) (acc : list (string * json))
      : option (list (string * json) * string) :=
    match n with
    | O => None
    | S n' =>
        match s with
        | String q r =>
            if Ascii.eqb q DQ then
              match scan_string r EmptyString with
              | None => None
              | Some (k, rest) =>
                  match skip_ws rest with
                  | String ":" r' =>
                      match pv (skip_ws r') with
                      | None => None
                      | Some (v, rest') =>
                          match skip_ws rest' with
                          | String "," r'' =>
                              members n' (skip_ws r'') ((k, v) :: acc)
                          | String "}" r'' => Some (reverse ((k, v) :: acc), r'')
                          | _ => None
                          end
                      end
                  | _ => None
                  end
              end
            else None
        | EmptyString => None
        end
    end.

(** Every character of [s] satisfies [p]. *)
Fixpoint all_chars (p : ascii -> bool) (s : string) : bool :=
  match s with
  | EmptyString => true
  | String c s' => p c && all_chars p s'
  end.

(** The characters of the text of a data segment. *)
Definition data_char (c : ascii) : bool :=
  let n := N_of_ascii c in
  ((n =? 10) || (n =? 32) || (n =? 44) || (n =? 45) || (n =? 91)
   || ((48 <=? n) && (n <=? 57)))%N.

(** No line feed of [s] is followed by an opening bracket; [prev] tells
    whether a line feed precedes [s]. *)
Fixpoint lf_safe (prev : bool) (s : string) : bool :=
  match s with
  | EmptyString => true
  | String c s' =>
      if prev && Ascii.eqb c "[" then false else lf_safe (Ascii.eqb c LF) s'
  end.

(** The first character of an integer literal. *)
Definition int_char (c : ascii) : bool :=
  let n := N_of_ascii c in
  ((n =? 45) || ((48 <=? n) && (n <=? 57)))%N.

(** The text of a value starts with a character that is neither white space
    nor a closing bracket or brace. *)
Definition value_head (s : string) : Prop :=
  exists c r, s = String c r /\ is_ws c = false /\ c <> "]"%char /\ c <> "}"%char.

(** What follows a value in the text of an array or an object: a comma or a
    line feed. *)
Definition delimited (r : string) : Prop :=
  exists r', r = String "," r' \/ r = String LF r'.

(** * Properties *)

(** ** Python list indexing inside the bounds *)

Lemma py_index_nat {A} (l : list A) (i : Z) :
  0 <= i < len l -> py_index l i = Some (Z.to_nat i).
Proof.
  intros Hi. unfold py_index, len in *.
  rewrite bool_decide_eq_true_2; [reflexivity | lia].
Qed.

Lemma getitem_nat {A} (l : list A) (i : Z) :
  0 <= i < len l -> getitem l i = l !! Z.to_nat i.
Proof. intros Hi. unfold getitem. rewrite py_index_nat; auto. Qed.

Lemma setitem_nat {A} (l : list A) (i : Z) (v : A) :
  0 <= i < len l -> setitem l i v = Some (<[Z.to_nat i:=v]> l).
Proof. intros Hi. unfold setitem. rewrite py_index_nat; auto. Qed.

Lemma setitem_length {A} (l l' : list A) (i : Z) (v : A) :
  setitem l i v = Some l' -> length l' = length l.
Proof.
  unfold setitem. destruct (py_index l i); simpl; [|discriminate].
  intros [= <-]. apply length_insert.
Qed.

(** ** Rules of the monad *)

Section Rules.
Context {S : Type}.

Lemma wp_ret {A} (a : A) (Q : A -> S -> Prop) s : Q a s -> wp (mret a) Q s.
Proof. auto. Qed.

Lemma wp_bind {A B} (m : M S A) (f : A -> M S B) (Q : B -> S -> Prop) s :
  wp m (fun a s' => wp (f a) Q s') s -> wp (m ≫= f) Q s.
Proof. unfold wp, mbind, M_bind. destruct (m s); auto. Qed.

Lemma wp_gets {A} (g : S -> A) (Q : A -> S -> Prop) s : Q (g s) s -> wp (gets g) Q s.
Proof. auto. Qed.

Lemma wp_modify (g : S -> S) (Q : unit -> S -> Prop) s : Q tt (g s) -> wp (modify g) Q s.
Proof. auto. Qed.

Lemma wp_assert (b : bool) (Q : unit -> S -> Prop) s :
  b = true -> Q tt s -> wp (assert b) Q s.
Proof. intros ->. auto. Qed.

Lemma wp_on {T A} (proj : S -> T) (upd : T -> S -> S) (m : M T A)
    (Q : A -> S -> Prop) s :
  wp m (fun a t => Q a (upd t s)) (proj s) -> wp (on proj upd m) Q s.
Proof. unfold wp, on. destruct (m (proj s)); auto. Qed.

Lemma wp_elim {A} (m : M S A) (Q : A -> S -> Prop) s :
  wp m Q s -> exists a s', m s = Ok a s' /\ Q a s'.
Proof. unfold wp. destruct (m s); try tauto. eauto. Qed.

Lemma wp_mono {A} (m : M S A) (Q Q' : A -> S -> Prop) s :
  wp m Q s -> (forall a s', Q a s' -> Q' a s') -> wp m Q' s.
Proof. unfold wp. destruct (m s); auto. Qed.

Variable I : S -> Prop.

Lemma preserves_ret {A} (a : A) : preserves I (mret a : M S A).
Proof. intros s Hs. exact Hs. Qed.

Lemma preserves_bind {A B} (m : M S A) (f : A -> M S B) :
  preserves I m -> (forall a, preserves I (f a)) -> preserves I (m ≫= f).
Proof.
  intros Hm Hf s Hs. specialize (Hm s Hs).
  unfold mbind, M_bind. destruct (m s); auto. apply Hf, Hm.
Qed.

Lemma preserves_raise {A} e : preserves I (raise e : M S A).
Proof. intros s Hs. exact Logic.I. Qed.

Lemma preserves_stop {A} : preserves I (StopIteration : M S A).
Proof. intros s Hs. exact Hs. Qed.

Lemma preserves_gets {A} (g : S -> A) : preserves I (gets g).
Proof. intros s Hs. exact Hs. Qed.

Lemma preserves_assert b : preserves I (assert b).
Proof. intros s Hs. destruct b; simpl; auto. Qed.

Lemma preserves_index_ok {A} (o : option A) : preserves I (index_ok o).
Proof. intros s Hs. destruct o; simpl; auto. Qed.

Lemma preserves_int v : preserves I (int v).
Proof. intros s Hs. unfold int. destruct (to_int v); simpl; auto. Qed.

Lemma preserves_float_of_int z : preserves I (float_of_int z).
Proof. intros s Hs. unfold float_of_int. destruct (float_of_Z z); simpl; auto. Qed.

Lemma preserves_compare_int v z : preserves I (compare_int v z).
Proof. intros s Hs. destruct v; simpl; auto. Qed.

Lemma preserves_as_index v : preserves I (as_index v).
Proof. intros s Hs. destruct v; simpl; auto. Qed.

Lemma preserves_between lo v hi : preserves I (between lo v hi).
Proof. intros s Hs. destruct v; simpl; auto. Qed.

Lemma preserves_when b m : preserves I m -> preserves I (when b m).
Proof. intros Hm. destruct b; simpl; auto using preserves_ret. Qed.

Lemma preserves_if {A} (b : bool) (m1 m2 : M S A) :
  preserves I m1 -> preserves I m2 -> preserves I (if b then m1 else m2).
Proof. destruct b; auto. Qed.

Lemma preserves_modify (g : S -> S) :
  (forall s, I s -> I (g s)) -> preserves I (modify g).
Proof. intros Hg s Hs. simpl. auto. Qed.

End Rules.

Lemma preserves_on {S T A} (I : S -> Prop) (J : T -> Prop)
    (proj : S -> T) (upd : T -> S -> S) (m : M T A) :
  (forall s, I s -> J (proj s)) ->
  (forall s t, I s -> J t -> I (upd t s)) ->
  preserves J m -> preserves I (on proj upd m).
Proof.
  intros Hp Hu Hm s Hs. specialize (Hm (proj s) (Hp s Hs)).
  unfold on. destruct (m (proj s)); auto.
Qed.

(** ** The data path on the operand list *)

Lemma operands_length d : dp_wf d -> len (operands d) = head d.
Proof.
  intros [Hl Hh]. unfold operands, len in *.
  rewrite length_reverse, length_take. lia.
Qed.

Lemma operands_lookup d (k : nat) :
  dp_wf d -> Z.of_nat k < head d ->
  operands d !! k = stack d !! Z.to_nat (head d - Z.of_nat k - 1).
Proof.
  intros [Hl Hh] Hk. unfold operands, len in *.
  rewrite reverse_lookup by (rewrite length_take; lia).
  rewrite length_take, lookup_take_lt by lia.
  f_equal. lia.
Qed.

Lemma operands_lookup_lt d (k : nat) v :
  dp_wf d -> operands d !! k = Some v -> Z.of_nat k < head d.
Proof.
  intros Hwf Hv. apply lookup_lt_Some in Hv.
  pose proof (operands_length d Hwf) as Hlen. unfold len in Hlen. lia.
Qed.

Lemma pushed_wf v d : dp_wf d -> head d + 1 < dp_memory_size d -> dp_wf (pushed v d).
Proof.
  intros [Hl Hh] Hlt. unfold dp_wf, pushed, len in *; simpl.
  rewrite length_insert. lia.
Qed.

Lemma operands_pushed v d : dp_wf d -> operands (pushed v d) = v :: operands d.
Proof.
  intros [Hl Hh]. unfold operands, pushed, len in *; simpl.
  replace (Z.to_nat (head d + 1)) with (Datatypes.S (Z.to_nat (head d))) by lia.
  rewrite (take_S_r _ _ v) by (apply list_lookup_insert_eq; lia).
  rewrite take_insert_ge by lia. apply reverse_snoc.
Qed.

Lemma operands_set_head d (k : Z) :
  dp_wf d -> 0 <= k <= head d ->
  operands (set_head (head d - k) d) = drop (Z.to_nat k) (operands d).
Proof.
  intros [Hl Hh] Hk. unfold operands, set_head, len in *; simpl.
  rewrite <- (reverse_involutive (drop _ _)). f_equal.
  rewrite reverse_drop, reverse_involutive, length_reverse, length_take, take_take.
  f_equal. lia.
Qed.

Lemma get_tos_ok d (k : nat) v :
  dp_wf d -> (k <= 3)%nat -> operands d !! k = Some v ->
  get_tos (Z.of_nat k) d = Ok v d.
Proof.
  intros Hwf Hk Hv.
  pose proof (operands_lookup_lt _ _ _ Hwf Hv) as Hlt.
  rewrite operands_lookup in Hv by assumption.
  destruct Hwf as [Hl Hh].
  unfold get_tos, mbind, M_bind, assert, gets; simpl.
  rewrite bool_decide_eq_true_2 by lia; simpl.
  rewrite bool_decide_eq_true_2 by lia; simpl.
  rewrite getitem_nat by (unfold len in *; lia). rewrite Hv. reflexivity.
Qed.

Lemma latch_head_ok d (k : Z) :
  k ∈ [-1; -3; 1; -2] -> 0 <= head d + k < dp_memory_size d ->
  latch_head k d = Ok tt (set_head (head d + k) d).
Proof.
  intros Hk Hr.
  unfold latch_head, mbind, M_bind, assert, gets, modify; simpl.
  rewrite bool_decide_eq_true_2 by assumption; simpl.
  rewrite bool_decide_eq_true_2 by lia. reflexivity.
Qed.

Lemma push_ok d v :
  dp_wf d -> head d + 1 < dp_memory_size d -> push v d = Ok tt (pushed v d).
Proof.
  intros [Hl Hh] Hlt.
  unfold push, mbind, M_bind, gets, modify, index_ok; simpl.
  rewrite setitem_nat by lia; simpl.
  rewrite latch_head_ok; simpl; [reflexivity | by apply (bool_decide_unpack _) | lia].
Qed.

Lemma wp_get_tos (k : nat) v (Q : value -> DataPath -> Prop) d :
  dp_wf d -> (k <= 3)%nat -> operands d !! k = Some v -> Q v d ->
  wp (get_tos (Z.of_nat k)) Q d.
Proof. intros Hwf Hk Hv HQ. unfold wp. rewrite (get_tos_ok d k v); auto. Qed.

Lemma wp_push v (Q : unit -> DataPath -> Prop) d :
  dp_wf d -> head d + 1 < dp_memory_size d -> Q tt (pushed v d) ->
  wp (push v) Q d.
Proof. intros Hwf Hlt HQ. unfold wp. rewrite push_ok; auto. Qed.

Lemma wp_latch_head (k : Z) (Q : unit -> DataPath -> Prop) d :
  k ∈ [-1; -3; 1; -2] -> 0 <= head d + k < dp_memory_size d ->
  Q tt (set_head (head d + k) d) -> wp (latch_head k) Q d.
Proof. intros Hk Hr HQ. unfold wp. rewrite latch_head_ok; auto. Qed.

Lemma set_head_wf d h : dp_wf d -> 0 <= h < dp_memory_size d -> dp_wf (set_head h d).
Proof. intros [Hl Hh] Hr. split; simpl; auto. Qed.

(** ** The control unit *)

Lemma wp_dp {A} (m : M DataPath A) (Q : A -> ControlUnit -> Prop) c :
  wp m (fun a d => Q a (set_data_path d c)) (data_path c) -> wp (dp m) Q c.
Proof. apply wp_on. Qed.

Lemma wp_mm {A} (m : M Memory A) (Q : A -> ControlUnit -> Prop) c :
  wp m (fun a t => Q a (set_mem t c)) (mem c) -> wp (mm m) Q c.
Proof. apply wp_on. Qed.

Lemma wp_tick (Q : unit -> ControlUnit -> Prop) c :
  Q tt (set_tick (_tick c + 1) c) -> wp tick Q c.
Proof. auto. Qed.

Lemma wp_latch_pc_next (Q : unit -> ControlUnit -> Prop) c p :
  pc c = SInt p -> Q tt (set_pc (SInt (p + 1)) c) -> wp (latch_pc true) Q c.
Proof.
  intros Hp HQ. unfold wp, latch_pc, mbind, M_bind, gets. rewrite Hp. exact HQ.
Qed.

(** Symbolic execution of a microprogram, one call at a time. *)
Ltac wp_step :=
  lazymatch goal with
  | |- wp (mbind _ _) _ _ => apply wp_bind
  | |- wp (dp _) _ _ => apply wp_dp
  | |- wp (mm _) _ _ => apply wp_mm
  | |- wp tick _ _ => apply wp_tick
  | |- wp (gets _) _ _ => apply wp_gets
  | |- wp (modify _) _ _ => apply wp_modify
  | |- wp (mret _) _ _ => apply wp_ret
  end.

Ltac elem_of_list := apply (bool_decide_unpack _); reflexivity.

Lemma wp_dp_tos (k : nat) v (Q : value -> ControlUnit -> Prop) c :
  dp_wf (data_path c) -> (k <= 3)%nat -> operands (data_path c) !! k = Some v ->
  Q v c -> wp (dp (get_tos (Z.of_nat k))) Q c.
Proof.
  intros Hwf Hk Hv HQ. apply wp_dp, (wp_get_tos k v); auto. by destruct c.
Qed.

Lemma wp_dp_push v (Q : unit -> ControlUnit -> Prop) c :
  dp_wf (data_path c) -> head (data_path c) + 1 < dp_memory_size (data_path c) ->
  (forall d', dp_next (data_path c) d' (v :: operands (data_path c))
                      (alu (data_path c)) ->
              Q tt (set_data_path d' c)) ->
  wp (dp (push v)) Q c.
Proof.
  intros Hwf Hlt HQ. apply wp_dp, wp_push; auto. apply HQ.
  pose proof (pushed_wf v _ Hwf Hlt) as Hwf'.
  pose proof (operands_pushed v _ Hwf) as Hops.
  repeat split; try apply Hwf'; auto.
  rewrite <- Hops. symmetry. by apply operands_length.
Qed.

Lemma wp_dp_pop (n : nat) (Q : unit -> ControlUnit -> Prop) c :
  dp_wf (data_path c) -> (1 <= n <= 3)%nat -> Z.of_nat n <= head (data_path c) ->
  (forall d', dp_next (data_path c) d' (drop n (operands (data_path c)))
                      (alu (data_path c)) ->
              Q tt (set_data_path d' c)) ->
  wp (dp (latch_head (- Z.of_nat n))) Q c.
Proof.
  intros Hwf Hk Hle HQ. pose proof Hwf as [Hl Hh].
  apply wp_dp, wp_latch_head.
  { assert (n = 1 \/ n = 2 \/ n = 3)%nat as [->| [->| ->]] by lia; elem_of_list. }
  { lia. }
  apply HQ.
  replace (head (data_path c) + - Z.of_nat n)
    with (head (data_path c) - Z.of_nat n) by lia.
  assert (Hwf' : dp_wf (set_head (head (data_path c) - Z.of_nat n) (data_path c)))
    by (apply set_head_wf; auto; lia).
  pose proof (operands_set_head _ (Z.of_nat n) Hwf ltac:(lia)) as Hops.
  rewrite Nat2Z.id in Hops.
  pose proof (operands_length _ Hwf') as Hlen. rewrite Hops in Hlen.
  repeat split; try apply Hwf'; auto.
Qed.

#[local] Arguments latch_pc : simpl never.
#[local] Arguments tick : simpl never.
#[local] Arguments wp : simpl never.
#[local] Arguments get_tos : simpl never.

Ltac simpl_cu :=
  unfold set_data_path, set_mem, set_pc, set_tick in *;
  cbn [data_path mem pc _tick stack head dp_memory_size alu
       set_stack set_head set_alu] in *.

Ltac norm_dp :=
  simpl_cu;
  repeat match goal with
  | H : operands ?d = _, H' : context [operands ?d] |- _ =>
      lazymatch type of H' with
      | operands d = _ => fail
      | _ => rewrite H in H'
      end
  end;
  unfold len in *; cbn [length drop] in *; rewrite ?drop_0 in *.

Ltac wp_tos k v :=
  wp_step; apply (wp_dp_tos k v);
  [assumption | lia
  | simpl_cu; match goal with H : operands _ = _ |- _ => rewrite H end; reflexivity |].

Ltac intro_dp_next :=
  let d := fresh "d" in
  let Hwf := fresh "Hwf" in
  let Hops := fresh "Hops" in
  let Hhd := fresh "Hhd" in
  let Hsz := fresh "Hsz" in
  let Halu := fresh "Halu" in
  intros d (Hwf & Hops & Hhd & Hsz & Halu); norm_dp.

Ltac wp_push :=
  wp_step; apply wp_dp_push; [assumption | simpl_cu; lia | intro_dp_next].

Ltac wp_pop k :=
  wp_step; apply (wp_dp_pop k); [assumption | lia | simpl_cu; lia | intro_dp_next].

Ltac wp_goal :=
  match goal with |- exists c', ?m ?c = Ok tt c' /\ @?Q c' =>
    cut (wp m (fun _ c' => Q c') c);
    [ let H := fresh in
      intros H; apply wp_elim in H as ([] & ? & ? & ?); eauto | ]
  end.

Ltac split_all :=
  repeat match goal with |- _ /\ _ => split end.

(** ** The arithmetic unit *)

Lemma set_alu_next d a : dp_wf d -> dp_next d (set_alu a d) (operands d) a.
Proof.
  intros Hwf. pose proof (operands_length _ Hwf). by split_all.
Qed.

Lemma bind_ok {S A B} (m : M S A) (f : A -> M S B) s a s' :
  m s = Ok a s' -> (m ≫= f) s = f a s'.
Proof. unfold mbind, M_bind. by intros ->. Qed.

Ltac alu_whens :=
  unfold latch_alu, when;
  repeat (rewrite bool_decide_eq_false_2 by discriminate);
  rewrite ?(bool_decide_eq_true_2 (_ = _)) by reflexivity;
  cbv iota.

Lemma get_tos_0 d v rest :
  dp_wf d -> operands d = v :: rest -> get_tos 0 d = Ok v d.
Proof. intros Hwf Hops. apply (get_tos_ok d 0 v); auto. by rewrite Hops. Qed.

Lemma get_tos_1 d x v rest :
  dp_wf d -> operands d = x :: v :: rest -> get_tos 1 d = Ok v d.
Proof. intros Hwf Hops. apply (get_tos_ok d 1 v); auto. by rewrite Hops. Qed.


Lemma latch_alu_DIV d : latch_alu DIV d = Ok tt (set_alu (alu d) d).
Proof. by destruct d. Qed.

Lemma wp_dp_latch_alu op r (Q : unit -> ControlUnit -> Prop) c :
  dp_wf (data_path c) ->
  latch_alu op (data_path c) = Ok tt (set_alu r (data_path c)) ->
  (forall d', dp_next (data_path c) d' (operands (data_path c)) r ->
              Q tt (set_data_path d' c)) ->
  wp (dp (latch_alu op)) Q c.
Proof.
  intros Hwf Heq HQ. apply wp_dp. unfold wp. rewrite Heq.
  by apply HQ, set_alu_next.
Qed.

Ltac wp_alu lem :=
  wp_step; eapply wp_dp_latch_alu;
  [assumption | simpl_cu; eapply lem; eassumption | intro_dp_next].

Ltac wp_pc p :=
  wp_step; apply (wp_latch_pc_next _ _ p); [reflexivity|].

Section MicrocodeFacts.
Variable is_number : scalar -> bool.
Variable int_of_str : string -> option Z.

#[local] Abbreviation execute := (execute_micro_operation is_number int_of_str).

(** C3 (as amended): [ROT] on a stack of depth at least 3 makes the new top
    the old third from the top, the new second the old top and the new third
    the old second; the elements below, the depth, the accumulator and the
    memory are unchanged, the program counter advances by one and exactly 1
    tick elapses. *)
Theorem rot_operands (i : Instr) (c : ControlUnit) (x y z : value)
    (rest : list value) (p : Z) :
  opcode i = ROT ->
  dp_wf (data_path c) ->
  pc c = SInt p ->
  operands (data_path c) = x :: y :: z :: rest ->
  exists c',
    execute i c = Ok tt c' /\
    operands (data_path c') = z :: x :: y :: rest /\
    head (data_path c') = head (data_path c) /\
    dp_wf (data_path c') /\
    alu (data_path c') = alu (data_path c) /\
    mem c' = mem c /\
    pc c' = SInt (p + 1) /\
    _tick c' = _tick c + 1.
Proof.
  intros Hop Hwf Hpc Hops.
  pose proof (operands_length _ Hwf) as Hlen. rewrite Hops in Hlen.
  unfold len in Hlen; cbn [length] in Hlen.
  pose proof Hwf as [Hl Hh].
  unfold execute_micro_operation. rewrite Hop; cbn [handlers].
  wp_goal.
  unfold micro_rotate. destruct c as [d m pc0 t]; simpl_cu; subst pc0.
  wp_tos 1%nat y. wp_tos 0%nat x. wp_tos 2%nat z.
  wp_pop 3%nat. wp_push. wp_push. wp_push.
  wp_pc p. wp_step. simpl_cu.
  split_all; try assumption; try lia; congruence.
Qed.








Lemma fits_float_of_int {S} z (s : S) :
  fits_double z = true -> float_of_int z s = Ok (float_of_Z z) s.
Proof.
  unfold fits_double, float_of_int. by destruct (float_of_Z z).
Qed.

Lemma overflow_float_of_int {S} z (s : S) :
  fits_double z = false -> float_of_int z s = Raise OverflowError.
Proof.
  unfold fits_double, float_of_int. by destruct (float_of_Z z).
Qed.

(** [py_pow] case by case. *)
Lemma py_pow_power {S} t0 t1 (s : S) :
  py_pow t0 t1 s
  = match power t0 t1 with inl r => Ok r s | inr e => Raise e end.
Proof.
  unfold py_pow, power. case_bool_decide as Ht1; [done|].
  unfold mbind, M_bind.
  destruct (fits_double t0) eqn:F0; simpl.
  - rewrite fits_float_of_int by done.
    destruct (fits_double t1) eqn:F1; simpl.
    + rewrite fits_float_of_int by done. by case_bool_decide.
    + by rewrite overflow_float_of_int.
  - by rewrite overflow_float_of_int.
Qed.


Lemma int_ok {S} v z (s : S) : to_int v = inl z -> int v s = Ok z s.
Proof. unfold int. by intros ->. Qed.

(** What the arithmetic unit latches, from operands of any kind. *)
Lemma latch_alu_result op d x y rest t0 t1 r :
  dp_wf d -> operands d = x :: y :: rest ->
  to_int x = inl t0 -> to_int y = inl t1 ->
  op ∈ [MOD; PLUS; MULT; LT; POW] ->
  alu_result op t0 t1 = Some r ->
  latch_alu op d = Ok tt (set_alu r d).
Proof.
  intros Hwf Hops Hx Hy Hop Hr.
  destruct op; try (exfalso; by apply (bool_decide_pack _) in Hop);
    alu_whens; unfold mbind, M_bind; simpl.
  1-3,5: rewrite (get_tos_1 d _ y _ Hwf Hops); simpl;
    rewrite (int_ok _ _ _ Hy);
    rewrite (get_tos_0 d x _ Hwf Hops); simpl;
    rewrite (int_ok _ _ _ Hx).
  - unfold py_mod. cbn in Hr. case_bool_decide; [done|].
    by injection Hr as <-.
  - by injection Hr as <-.
  - by injection Hr as <-.
  - by injection Hr as <-.
  - rewrite (get_tos_0 d x _ Hwf Hops); simpl. rewrite (int_ok _ _ _ Hx).
    rewrite (get_tos_1 d _ y _ Hwf Hops); simpl. rewrite (int_ok _ _ _ Hy).
    rewrite py_pow_power. cbn in Hr.
    destruct (power t0 t1); [|done]. by injection Hr as <-.
Qed.

Lemma latch_alu_result_unary op d x rest t0 t1 r :
  dp_wf d -> operands d = x :: rest ->
  to_int x = inl t0 ->
  op ∈ [NEG; INV] ->
  alu_result op t0 t1 = Some r ->
  latch_alu op d = Ok tt (set_alu r d).
Proof.
  intros Hwf Hops Hx Hop Hr.
  destruct op; try (exfalso; by apply (bool_decide_pack _) in Hop);
    alu_whens; unfold mbind, M_bind; simpl;
    rewrite (get_tos_0 d x _ Hwf Hops); simpl; rewrite (int_ok _ _ _ Hx);
    injection Hr as <-; simpl; do 3 f_equal; lia.
Qed.

(** The arithmetic handler on an opcode of two operands, once the
    arithmetic unit has latched [r]. *)
Lemma alu_handler_binary (i : Instr) (c : ControlUnit) (r x y : value)
    (rest : list value) (p : Z) :
  opcode i ∈ [MOD; PLUS; MULT; LT; DIV; POW] ->
  dp_wf (data_path c) ->
  pc c = SInt p ->
  operands (data_path c) = x :: y :: rest ->
  latch_alu (opcode i) (data_path c) = Ok tt (set_alu r (data_path c)) ->
  alu_pushes is_number int_of_str i c r rest.
Proof.
  intros Hop Hwf Hpc Hops Hlatch.
  pose proof (operands_length _ Hwf) as Hlen. rewrite Hops in Hlen.
  unfold len in Hlen; cbn [length] in Hlen.
  pose proof Hwf as [Hl Hh].
  assert (Hex : execute i = micro_alu_operation i).
  { unfold execute_micro_operation.
    destruct (opcode i); try reflexivity;
      exfalso; by apply (bool_decide_pack _) in Hop. }
  assert (Hun : bool_decide (opcode i ∈ [NEG; INV]) = false).
  { apply bool_decide_eq_false_2. intros Hin.
    destruct (opcode i);
      first [ by apply (bool_decide_pack _) in Hin
            | by apply (bool_decide_pack _) in Hop ]. }
  unfold alu_pushes. rewrite Hex.
  cut (wp (micro_alu_operation i)
         (fun _ c' =>
            operands (data_path c') = r :: rest /\
            alu (data_path c') = r /\
            head (data_path c') = len rest + 1 /\
            dp_wf (data_path c') /\
            mem c' = mem c /\
            (exists p, pc c = SInt p /\ pc c' = SInt (p + 1)) /\
            _tick c' = _tick c + 2) c).
  { intros H. apply wp_elim in H as ([] & c' & ? & ?). eauto. }
  unfold micro_alu_operation. rewrite Hun.
  destruct c as [d m pc0 t]; simpl_cu; subst pc0.
  wp_step; eapply wp_dp_latch_alu; [assumption | simpl_cu; eassumption | intro_dp_next].
  wp_pop 2%nat. wp_step; wp_step.
  wp_step; wp_step; wp_step. wp_push.
  wp_pc p. wp_step. simpl_cu.
  split_all; try assumption; try lia; try congruence.
  by exists p.
Qed.

(** The same on an opcode of one operand. *)
Lemma alu_handler_unary (i : Instr) (c : ControlUnit) (r x : value)
    (rest : list value) (p : Z) :
  opcode i ∈ [NEG; INV] ->
  dp_wf (data_path c) ->
  pc c = SInt p ->
  operands (data_path c) = x :: rest ->
  latch_alu (opcode i) (data_path c) = Ok tt (set_alu r (data_path c)) ->
  alu_pushes is_number int_of_str i c r rest.
Proof.
  intros Hop Hwf Hpc Hops Hlatch.
  pose proof (operands_length _ Hwf) as Hlen. rewrite Hops in Hlen.
  unfold len in Hlen; cbn [length] in Hlen.
  pose proof Hwf as [Hl Hh].
  assert (Hex : execute i = micro_alu_operation i).
  { unfold execute_micro_operation.
    destruct (opcode i); try reflexivity;
      exfalso; by apply (bool_decide_pack _) in Hop. }
  unfold alu_pushes. rewrite Hex.
  cut (wp (micro_alu_operation i)
         (fun _ c' =>
            operands (data_path c') = r :: rest /\
            alu (data_path c') = r /\
            head (data_path c') = len rest + 1 /\
            dp_wf (data_path c') /\
            mem c' = mem c /\
            (exists p, pc c = SInt p /\ pc c' = SInt (p + 1)) /\
            _tick c' = _tick c + 2) c).
  { intros H. apply wp_elim in H as ([] & c' & ? & ?). eauto. }
  unfold micro_alu_operation. rewrite bool_decide_eq_true_2 by done.
  destruct c as [d m pc0 t]; simpl_cu; subst pc0.
  wp_step; eapply wp_dp_latch_alu; [assumption | simpl_cu; eassumption | intro_dp_next].
  wp_pop 1%nat. wp_step; wp_step.
  wp_step; wp_step; wp_step. wp_push.
  wp_pc p. wp_step. simpl_cu.
  split_all; try assumption; try lia; try congruence.
  by exists p.
Qed.



Lemma div_operands (i : Instr) (c : ControlUnit) (x y : value)
    (rest : list value) (p : Z) :
  opcode i = DIV ->
  dp_wf (data_path c) ->
  pc c = SInt p ->
  operands (data_path c) = x :: y :: rest ->
  exists c',
    execute i c = Ok tt c' /\
    operands (data_path c') = alu (data_path c) :: rest /\
    alu (data_path c') = alu (data_path c) /\
    head (data_path c') = head (data_path c) - 1 /\
    dp_wf (data_path c') /\
    mem c' = mem c /\
    pc c' = SInt (p + 1) /\
    _tick c' = _tick c + 2.
Proof.
  intros Hop Hwf Hpc Hops.
  pose proof (operands_length _ Hwf) as Hlen. rewrite Hops in Hlen.
  unfold len in Hlen; cbn [length] in Hlen.
  pose proof Hwf as [Hl Hh].
  unfold execute_micro_operation. rewrite Hop; cbn [handlers].
  wp_goal.
  unfold micro_alu_operation. rewrite Hop.
  rewrite bool_decide_eq_false_2 by (intros H; by apply (bool_decide_pack _) in H).
  destruct c as [d m pc0 t]; simpl_cu; subst pc0.
  wp_alu latch_alu_DIV.
  wp_pop 2%nat. wp_step; wp_step.
  wp_step; wp_step; wp_step. wp_push.
  wp_pc p. wp_step. simpl_cu.
  split_all; try assumption; try lia; try congruence.
Qed.
End MicrocodeFacts.

(** ** Invariants *)

(** Structural proof that a microprogram preserves an invariant. *)
Ltac pres leaf :=
  cbv beta;
  lazymatch goal with
  | |- preserves _ (mbind _ _) =>
      apply preserves_bind; [pres leaf | intros ?; pres leaf]
  | |- preserves _ (mret _) => apply preserves_ret
  | |- preserves _ (raise _) => apply preserves_raise
  | |- preserves _ StopIteration => apply preserves_stop
  | |- preserves _ (gets _) => apply preserves_gets
  | |- preserves _ (assert _) => apply preserves_assert
  | |- preserves _ (index_ok _) => apply preserves_index_ok
  | |- preserves _ (int _) => apply preserves_int
  | |- preserves _ (float_of_int _) => apply preserves_float_of_int
  | |- preserves _ (compare_int _ _) => apply preserves_compare_int
  | |- preserves _ (between _ _ _) => apply preserves_between
  | |- preserves _ (as_index _) => apply preserves_as_index
  | |- preserves _ (when _ _) => apply preserves_when; pres leaf
  | |- preserves _ (match ?x with _ => _ end) => destruct x; pres leaf
  | |- _ => leaf
  end.

(** *** Invariants of the data path *)

Section DataPathInvariant.
(** An invariant of the data path that a head inside the capacity and a
    stack of the same length keep. *)
Variable J : DataPath -> Prop.
Hypothesis J_head : forall d h, J d -> 0 <= h < dp_memory_size d -> J (set_head h d).
Hypothesis J_stack : forall d st,
  J d -> length st = length (stack d) -> J (set_stack st d).

Lemma preserves_get_tos k : preserves J (get_tos k).
Proof. unfold get_tos. pres fail. Qed.

Lemma preserves_latch_head k : preserves J (latch_head k).
Proof.
  intros d Hd. unfold latch_head, mbind, M_bind, assert, gets, modify.
  destruct (bool_decide _); simpl; [|done].
  case_bool_decide; simpl; [|done]. by apply J_head.
Qed.

Lemma preserves_push v : preserves J (push v).
Proof.
  intros d Hd. unfold push, mbind, M_bind, gets, modify, index_ok.
  destruct (setitem (stack d) (head d) v) as [st'|] eqn:E; simpl; [|done].
  apply preserves_latch_head, J_stack; [done|].
  by apply setitem_length in E.
Qed.

Lemma preserves_oe_stack k sel : preserves J (oe_stack k sel).
Proof. unfold oe_stack. pres ltac:(apply preserves_get_tos). Qed.

Lemma preserves_is_true : preserves J is_true.
Proof.
  unfold is_true.
  pres ltac:(first [apply preserves_get_tos | apply preserves_latch_head]).
Qed.

Lemma preserves_py_mod a b : preserves J (py_mod a b).
Proof. unfold py_mod. pres fail. Qed.

Lemma preserves_py_pow a b : preserves J (py_pow a b).
Proof. unfold py_pow. pres fail. Qed.

(** The arithmetic unit keeps an invariant that does not read the
    accumulator. *)
Lemma preserves_latch_alu op :
  (forall d a, J d -> J (set_alu a d)) -> preserves J (latch_alu op).
Proof.
  intros J_alu. unfold latch_alu.
  pres ltac:(first [ apply preserves_get_tos | apply preserves_py_mod
                   | apply preserves_py_pow
                   | apply preserves_modify; intros; by apply J_alu ]).
Qed.

End DataPathInvariant.

(** *** Invariants of the control unit that only read the data path *)

Section ControlUnitInvariant.
Variable is_number : scalar -> bool.
Variable int_of_str : string -> option Z.
Variable J : DataPath -> Prop.
Hypothesis J_head : forall d h, J d -> 0 <= h < dp_memory_size d -> J (set_head h d).
Hypothesis J_stack : forall d st,
  J d -> length st = length (stack d) -> J (set_stack st d).

#[local] Abbreviation on_data_path := (on_data_path J).

Lemma preserves_dp {A} (m : M DataPath A) :
  preserves J m -> preserves on_data_path (dp m).
Proof. apply preserves_on; auto. Qed.

Lemma preserves_mm {A} (m : M Memory A) : preserves on_data_path (mm m).
Proof.
  intros c Hc. unfold mm, on. destruct (m (mem c)); auto.
Qed.

Lemma preserves_tick : preserves on_data_path tick.
Proof. intros c Hc. exact Hc. Qed.

Lemma preserves_get_arg i : preserves on_data_path (get_arg i).
Proof. unfold get_arg. pres fail. Qed.

Lemma preserves_as_instr v : preserves on_data_path (as_instr v).
Proof. unfold as_instr. pres fail. Qed.

Lemma preserves_set_pc p : preserves on_data_path (modify (set_pc p)).
Proof. intros c Hc. exact Hc. Qed.

Lemma preserves_latch_pc b : preserves on_data_path (latch_pc b).
Proof.
  unfold latch_pc.
  pres ltac:(first [ apply preserves_set_pc | apply preserves_mm
                   | apply preserves_as_instr | apply preserves_get_arg ]).
Qed.

Ltac pres_cu :=
  pres ltac:(first
    [ apply preserves_tick | apply preserves_latch_pc | apply preserves_mm
    | apply preserves_set_pc | apply preserves_get_arg | apply preserves_as_instr
    | apply preserves_dp;
      first [ apply preserves_get_tos | apply preserves_latch_head; assumption
            | apply preserves_push; assumption | apply preserves_oe_stack
            | apply preserves_is_true; assumption | apply preserves_gets ] ]).

(** Every instruction but those of the arithmetic handler. *)
Lemma preserves_execute_other (i : Instr) :
  opcode i ∉ alu_opcodes ->
  preserves on_data_path (execute_micro_operation is_number int_of_str i).
Proof.
  intros Hop. unfold execute_micro_operation.
  destruct (opcode i); cbn [handlers];
    try (exfalso; apply Hop; elem_of_list).
  all: unfold micro_read_direct, micro_read_indirect, micro_write_direct,
         micro_write_indirect, micro_jump_if_not_true, micro_halt,
         micro_no_operation, micro_rotate, micro_duplicate, micro_over,
         micro_swap, micro_push, micro_drop, micro_jump, int_arg, ord_arg.
  all: pres_cu.
Qed.

Lemma preserves_alu_handler (i : Instr) :
  (forall d a, J d -> J (set_alu a d)) ->
  preserves on_data_path (micro_alu_operation i).
Proof.
  intros J_alu. unfold micro_alu_operation.
  pres ltac:(first
    [ apply preserves_tick | apply preserves_latch_pc
    | apply preserves_dp;
      first [ apply preserves_latch_alu; assumption
            | apply preserves_latch_head; assumption
            | apply preserves_push; assumption | apply preserves_gets ] ]).
Qed.

Lemma preserves_execute (i : Instr) :
  (forall d a, J d -> J (set_alu a d)) ->
  preserves on_data_path (execute_micro_operation is_number int_of_str i).
Proof.
  intros J_alu.
  destruct (decide (opcode i ∈ alu_opcodes)) as [Hop|Hop].
  - unfold execute_micro_operation.
    destruct (opcode i); cbn [handlers];
      first [ by apply preserves_alu_handler
            | exfalso; by apply (bool_decide_pack _) in Hop ].
  - by apply preserves_execute_other.
Qed.

Lemma preserves_decode_and_execute :
  (forall d a, J d -> J (set_alu a d)) ->
  preserves on_data_path (decode_and_execute is_number int_of_str).
Proof.
  intros J_alu. unfold decode_and_execute.
  pres ltac:(first [ apply preserves_mm | apply preserves_as_instr
                   | by apply preserves_execute ]).
Qed.

End ControlUnitInvariant.

(** ** Stack safety *)

Lemma reachable_steps is_number int_of_str code msize input D n c c' :
  reachable is_number int_of_str code msize input D c ->
  steps is_number int_of_str n c c' ->
  reachable is_number int_of_str code msize input D c'.
Proof.
  intros Hr Hsteps. induction Hsteps as [c | n c c' c'' Hstep _ IH]; [done|].
  apply IH. by eapply reachable_ok.
Qed.

Lemma get_tos_inv offset d v d' :
  get_tos offset d = Ok v d' ->
  d' = d /\ 0 <= offset <= 3 /\ offset < head d /\
  getitem (stack d) (head d - offset - 1) = Some v.
Proof.
  unfold get_tos, mbind, M_bind, assert, gets, index_ok.
  case_bool_decide; simpl; [|done].
  case_bool_decide; simpl; [|done].
  destruct (getitem _ _) eqn:E; simpl; [|done].
  intros [= <- <-]. auto.
Qed.

Lemma get_tos_underflow offset d :
  head d <= offset -> get_tos offset d = Raise AssertionError.
Proof.
  intros Hle. unfold get_tos, mbind, M_bind, assert, gets.
  case_bool_decide; simpl; [|done].
  rewrite bool_decide_eq_false_2 by lia. done.
Qed.

Lemma stack_inv_init d : DataPath_init 256 = inl d -> stack_inv d.
Proof. intros [= <-]. repeat split; done. Qed.

Section StackSafety.
Variable is_number : scalar -> bool.
Variable int_of_str : string -> option Z.

Lemma reachable_stack_inv code msize input data c :
  reachable is_number int_of_str code msize input data c ->
  stack_inv (data_path c).
Proof.
  assert (Hpres : preserves (on_data_path stack_inv)
                    (decode_and_execute is_number int_of_str)).
  { apply preserves_decode_and_execute.
    - intros d h (Hsz & Hl & Hh) Hr. repeat split; simpl; auto; lia.
    - intros d st (Hsz & Hl & Hh) Hlen. repeat split; simpl; auto; try lia.
      unfold len in *. by rewrite Hlen.
    - intros d a (Hsz & Hl & Hh). repeat split; simpl; auto; lia. }
  induction 1 as [m d Hm Hd | c c' _ IH Hstep | c c' _ IH Hstep].
  - by apply stack_inv_init.
  - specialize (Hpres c IH). by rewrite Hstep in Hpres.
  - specialize (Hpres c IH). by rewrite Hstep in Hpres.
Qed.

(** C7: in every state of a run that has not aborted, [0 <= head < 256];
    [get_tos] returns a value only for [offset < head], and then the value of
    a slot of index [head - offset - 1], below [head]; for [offset >= head] it
    raises the assertion error. *)
Theorem stack_safety code msize input data c :
  reachable is_number int_of_str code msize input data c ->
  0 <= head (data_path c) < 256 /\
  (forall offset v d',
     get_tos offset (data_path c) = Ok v d' ->
     d' = data_path c /\ 0 <= offset < head (data_path c) /\
     exists k : nat,
       Z.of_nat k = head (data_path c) - offset - 1 /\
       Z.of_nat k < head (data_path c) /\
       stack (data_path c) !! k = Some v) /\
  (forall offset,
     head (data_path c) <= offset ->
     get_tos offset (data_path c) = Raise AssertionError).
Proof.
  intros Hreach. apply reachable_stack_inv in Hreach as (Hsz & Hl & Hh).
  rewrite Hsz in *. split_all.
  - lia.
  - lia.
  - intros offset v d' Hget.
    apply get_tos_inv in Hget as (-> & Hoff & Hlt & Hitem).
    rewrite getitem_nat in Hitem by lia.
    split_all; try done; try lia.
    exists (Z.to_nat (head (data_path c) - offset - 1)). split_all; [lia | lia | done].
  - intros offset. apply get_tos_underflow.
Qed.

End StackSafety.

(** ** Tick accounting *)

Lemma ticks_bind {A B} (n k t : Z) (m : M ControlUnit A) (f : A -> M ControlUnit B) :
  ticks n m -> (forall a, ticks k (f a)) -> t = n + k -> ticks t (m ≫= f).
Proof.
  intros Hm Hf -> c. specialize (Hm c). unfold mbind, M_bind.
  destruct (m c) as [a c'| |]; auto.
  specialize (Hf a c'). destruct (f a c'); auto. lia.
Qed.

Lemma ticks_ret {A} (a : A) : ticks 0 (mret a).
Proof. intros c. simpl. lia. Qed.

Lemma ticks_raise {A} n e : ticks n (raise e : M ControlUnit A).
Proof. intros c. exact I. Qed.

Lemma ticks_stop {A} n : ticks n (StopIteration : M ControlUnit A).
Proof. intros c. exact I. Qed.

Lemma ticks_tick : ticks 1 tick.
Proof. intros c. reflexivity. Qed.

Lemma ticks_dp {A} (m : M DataPath A) : ticks 0 (dp m).
Proof. intros c. unfold dp, on. destruct (m _); simpl; auto. lia. Qed.

Lemma ticks_mm {A} (m : M Memory A) : ticks 0 (mm m).
Proof. intros c. unfold mm, on. destruct (m _); simpl; auto. lia. Qed.

Lemma ticks_set_pc p : ticks 0 (modify (set_pc p)).
Proof. intros c. simpl. lia. Qed.

Lemma ticks_gets {A} (g : ControlUnit -> A) : ticks 0 (gets g).
Proof. intros c. simpl. lia. Qed.

Lemma ticks_assert b : ticks 0 (assert b).
Proof. intros c. destruct b; simpl; auto. lia. Qed.

Lemma ticks_get_arg i : ticks 0 (get_arg i).
Proof. intros c. unfold get_arg. destruct (arg i); simpl; auto. lia. Qed.

Lemma ticks_as_instr v : ticks 0 (as_instr v).
Proof. intros c. destruct v; simpl; auto. lia. Qed.

Ltac tk leaf :=
  cbv beta;
  lazymatch goal with
  | |- ticks _ (mbind _ _) =>
      eapply ticks_bind; [tk leaf | intros ?; tk leaf | reflexivity]
  | |- ticks _ (mret _) => apply ticks_ret
  | |- ticks _ (raise _) => apply ticks_raise
  | |- ticks _ StopIteration => apply ticks_stop
  | |- ticks _ tick => apply ticks_tick
  | |- ticks _ (dp _) => apply ticks_dp
  | |- ticks _ (mm _) => apply ticks_mm
  | |- ticks _ (modify (set_pc _)) => apply ticks_set_pc
  | |- ticks _ (gets _) => apply ticks_gets
  | |- ticks _ (assert _) => apply ticks_assert
  | |- ticks _ (get_arg _) => apply ticks_get_arg
  | |- ticks _ (as_instr _) => apply ticks_as_instr
  | |- ticks _ (match ?x with _ => _ end) => destruct x; tk leaf
  | |- _ => leaf
  end.

Lemma ticks_latch_pc b : ticks 0 (latch_pc b).
Proof.
  unfold latch_pc. destruct b.
  - intros c. unfold mbind, M_bind, gets. destruct (pc c); simpl; auto. lia.
  - tk fail.
Qed.

Section TickFacts.
Variable is_number : scalar -> bool.
Variable int_of_str : string -> option Z.

Lemma ticks_int_arg a : ticks 0 (int_arg int_of_str a).
Proof.
  intros c. unfold int_arg. destruct a; simpl; [lia|].
  destruct (int_of_str s); simpl; auto. lia.
Qed.

Lemma ticks_ord_arg a : ticks 0 (ord_arg a).
Proof.
  intros c. unfold ord_arg. destruct a as [|s]; simpl; auto.
  destruct (utf8_head s) as [[cp []]|]; simpl; auto. lia.
Qed.

Ltac tk_cu :=
  tk ltac:(first [ apply ticks_latch_pc | apply ticks_int_arg
                 | apply ticks_ord_arg ]).

Lemma ticks_read_indirect i : ticks 7 (micro_read_indirect i).
Proof. unfold micro_read_indirect. tk_cu. Qed.

Lemma ticks_write_indirect i : ticks 6 (micro_write_indirect i).
Proof. unfold micro_write_indirect. tk_cu. Qed.

Lemma ticks_execute i :
  ticks (cost (opcode i)) (execute_micro_operation is_number int_of_str i).
Proof.
  unfold execute_micro_operation.
  destruct (opcode i); cbn [handlers cost];
  unfold micro_read_direct, micro_read_indirect, micro_write_direct,
         micro_write_indirect, micro_jump_if_not_true, micro_halt,
         micro_no_operation, micro_rotate, micro_duplicate, micro_over,
         micro_swap, micro_push, micro_drop, micro_jump, micro_alu_operation;
  tk_cu.
Qed.

(** C2 (as amended): an instruction [READ_NDR] that runs to its end advances
    the tick counter by exactly 7, an instruction [WR_NDR] by exactly 6. *)
Theorem indirect_ticks (i : Instr) (c c' : ControlUnit) :
  execute_micro_operation is_number int_of_str i c = Ok tt c' ->
  (opcode i = READ_NDR -> _tick c' = _tick c + 7) /\
  (opcode i = WR_NDR -> _tick c' = _tick c + 6).
Proof.
  intros Hexec. pose proof (ticks_execute i c) as Ht.
  rewrite Hexec in Ht. split; intros Hop; rewrite Hop in Ht; exact Ht.
Qed.

End TickFacts.

(** ** The memory image *)

Lemma Memory_init_inv memory_size program input D m :
  Memory_init memory_size program input D = inl m ->
  memory_size > len program + 128 /\
  m = mkMemory (VInt 0) memory_size
        ((VInt <$> D) ++ zeros (memory_size - len program - len D)
         ++ (VInstr <$> program))
        (memory_size - len program) (len program) input [].
Proof.
  unfold Memory_init.
  case_bool_decide; simpl; [|done].
  case_bool_decide; simpl; [|done].
  intros [= <-]. auto.
Qed.

Lemma Memory_init_length memory_size program input D m :
  Memory_init memory_size program input D = inl m ->
  len D + len program <= memory_size ->
  len (data m) = memory_size.
Proof.
  intros Hinit Hfit. apply Memory_init_inv in Hinit as [Hsz ->].
  unfold len, zeros in *. cbn [data].
  rewrite !length_app, !length_fmap, length_replicate. lia.
Qed.

Lemma Memory_init_fetch memory_size program input D m (pc : nat) i :
  Memory_init memory_size program input D = inl m ->
  len D + len program <= memory_size ->
  program !! pc = Some i ->
  data m !! Z.to_nat (memory_size - len program + Z.of_nat pc) = Some (VInstr i) /\
  get_instruction (SInt (Z.of_nat pc)) m = Ok (VInstr i) m.
Proof.
  intros Hinit Hfit Hi.
  pose proof (Memory_init_length _ _ _ _ _ Hinit Hfit) as Hlen.
  apply Memory_init_inv in Hinit as [Hsz ->].
  pose proof (lookup_lt_Some _ _ _ Hi) as Hpc.
  cbn [data] in *.
  set (z := zeros (memory_size - len program - len D)) in *.
  assert (Hz : length z = Z.to_nat (memory_size - len program - len D))
    by apply length_replicate.
  unfold len in *.
  assert (Hprog : ((VInt <$> D) ++ z ++ (VInstr <$> program))
              !! Z.to_nat (memory_size - Z.of_nat (length program) + Z.of_nat pc)
            = Some (VInstr i)).
  { rewrite lookup_app_r by (rewrite length_fmap; lia).
    rewrite lookup_app_r by (rewrite length_fmap, Hz; lia).
    rewrite length_fmap, Hz, list_lookup_fmap.
    replace (_ - _ - _)%nat with pc by lia. by rewrite Hi. }
  split; [exact Hprog|].
  unfold get_instruction, mbind, M_bind, gets, assert; simpl.
  rewrite bool_decide_eq_true_2 by lia; simpl.
  rewrite bool_decide_eq_true_2 by lia; simpl.
  rewrite getitem_nat by (unfold len; lia).
  rewrite Z.add_comm. by rewrite Hprog.
Qed.

(** C1 (as amended): after [Memory.__init__] on a program of length [L] and
    data [D] that fit ([len D + L <= memory_size]), the image has
    [memory_size] words; word [k] of [D] is at address [k], from address 0;
    the addresses from [len D] up to the program are zero; the program
    occupies [memory_size - L .. memory_size - 1], above address 128; and for
    every [0 <= pc < L], [get_instruction pc] returns the word stored at
    address [memory_size - L + pc], instruction [pc] of the program. *)
Theorem memory_layout (memory_size : Z) (program : list Instr)
    (input : list string) (D : list Z) (m : Memory) :
  Memory_init memory_size program input D = inl m ->
  len D + len program <= memory_size ->
  len (data m) = memory_size /\
  program_start m = memory_size - len program /\
  128 < program_start m /\
  (forall (k : nat) w, D !! k = Some w -> data m !! k = Some (VInt w)) /\
  (forall a : nat,
     len D <= Z.of_nat a < memory_size - len program ->
     data m !! a = Some (VInt 0)) /\
  (forall (pc : nat) i,
     program !! pc = Some i ->
     data m !! Z.to_nat (memory_size - len program + Z.of_nat pc) = Some (VInstr i) /\
     get_instruction (SInt (Z.of_nat pc)) m = Ok (VInstr i) m).
Proof.
  intros Hinit Hfit.
  pose proof (Memory_init_length _ _ _ _ _ Hinit Hfit) as Hlen.
  pose proof (fun pc i => Memory_init_fetch _ _ _ _ _ pc i Hinit Hfit) as Hfetch.
  apply Memory_init_inv in Hinit as [Hsz ->].
  cbn [data program_start] in *.
  set (z := zeros (memory_size - len program - len D)) in *.
  assert (Hz : length z = Z.to_nat (memory_size - len program - len D))
    by apply length_replicate.
  unfold len in *.
  split_all; try lia; try done.
  - intros k w Hk. rewrite lookup_app_l.
    + by rewrite list_lookup_fmap, Hk.
    + rewrite length_fmap. by apply lookup_lt_Some in Hk.
  - intros a Ha. rewrite lookup_app_r by (rewrite length_fmap; lia).
    rewrite lookup_app_l by (rewrite Hz, length_fmap; lia).
    apply lookup_replicate_2. rewrite length_fmap. lia.
Qed.

(** ** The instruction ceiling *)

Section Ceiling.
Variable is_number : scalar -> bool.
Variable int_of_str : string -> option Z.

#[local] Abbreviation run := (run is_number int_of_str).
#[local] Abbreviation step := (decode_and_execute is_number int_of_str).
#[local] Abbreviation steps := (steps is_number int_of_str).

Lemma run_break limit k c : limit <= k -> run limit k c = inl (c, k).
Proof.
  intros Hle. rewrite run_equation_1.
  destruct (decide (limit <= k)); [done | lia].
Qed.

Lemma run_ok limit k c c' :
  k < limit -> step c = Ok tt c' -> run limit k c = run limit (k + 1) c'.
Proof.
  intros Hlt Hstep. rewrite run_equation_1.
  destruct (decide (limit <= k)); [lia|]. simpl. by rewrite Hstep.
Qed.

Lemma run_stop limit k c c' :
  k < limit -> step c = Stop c' -> run limit k c = inl (c', k).
Proof.
  intros Hlt Hstep. rewrite run_equation_1.
  destruct (decide (limit <= k)); [lia|]. simpl. by rewrite Hstep.
Qed.

Lemma run_raise limit k c e :
  k < limit -> step c = Raise e -> run limit k c = inr e.
Proof.
  intros Hlt Hstep. rewrite run_equation_1.
  destruct (decide (limit <= k)); [lia|]. simpl. by rewrite Hstep.
Qed.

Lemma run_steps n c c' k :
  steps n c c' -> run (k + Z.of_nat n) k c = inl (c', k + Z.of_nat n).
Proof.
  intros Hsteps. revert k.
  induction Hsteps as [c | n c c' c'' Hstep _ IH]; intros k.
  - rewrite Z.add_0_r. by apply run_break.
  - rewrite (run_ok _ _ _ c') by (done || lia).
    replace (k + Z.of_nat (S n)) with (k + 1 + Z.of_nat n) by lia.
    apply IH.
Qed.



Lemma self_jump_step msize input D m d t :
  Memory_init msize [self_jump] input D = inl m ->
  len D + 1 <= msize ->
  step (mkControlUnit d m (SInt 0) t) = Ok tt (mkControlUnit d m (SInt 0) (t + 1)).
Proof.
  intros Hm Hfit.
  destruct (Memory_init_fetch _ _ _ _ _ 0 self_jump Hm Hfit eq_refl) as [_ Hget].
  unfold decode_and_execute, mbind, M_bind, gets, mm, on; simpl.
  change (Z.of_nat 0) with 0 in Hget. by rewrite Hget.
Qed.

Lemma self_jump_steps msize input D m d (n : nat) t :
  Memory_init msize [self_jump] input D = inl m ->
  len D + 1 <= msize ->
  steps n (mkControlUnit d m (SInt 0) t) (mkControlUnit d m (SInt 0) (t + Z.of_nat n)).
Proof.
  intros Hm Hfit. revert t. induction n as [|n IH]; intros t.
  - rewrite Z.add_0_r. constructor.
  - econstructor; [by eapply self_jump_step|].
    replace (t + Z.of_nat (S n)) with (t + 1 + Z.of_nat n) by lia. apply IH.
Qed.

(** The self-jump runs to any ceiling: [N] instructions, [N] ticks. *)
Lemma self_jump_simulation msize N input D :
  0 <= N -> msize > 129 -> len D + 1 <= msize ->
  simulation is_number int_of_str [self_jump] msize N input D = Returned [] N N.
Proof.
  intros HN Hsz Hfit. unfold simulation.
  destruct (Memory_init msize [self_jump] input D) as [m|e] eqn:Hm.
  2:{ unfold Memory_init in Hm.
      rewrite !bool_decide_eq_true_2 in Hm by (unfold len; simpl; lia). done. }
  cbn [DataPath_init bool_decide decide_rel negb]. unfold ControlUnit_init.
  pose proof (self_jump_steps _ _ _ _ (mkDataPath (zeros 256) 0 256 (VInt 0))
                (Z.to_nat N) 0 Hm Hfit) as Hsteps.
  apply (run_steps _ _ _ 0) in Hsteps.
  rewrite !Z.add_0_l, Z2Nat.id in Hsteps by done.
  change (DataPath_init 256) with
    (inl (mkDataPath (zeros 256) 0 256 (VInt 0)) : DataPath + error).
  cbv iota. rewrite Hsteps. cbn [mem _tick cur_tick].
  apply Memory_init_inv in Hm as [_ ->]. done.
Qed.

End Ceiling.

(** ** The accumulator between arithmetic instructions *)

Section Accumulator.
Variable is_number : scalar -> bool.
Variable int_of_str : string -> option Z.
Variable a : value.

#[local] Abbreviation alu_is := (alu_is a).

Lemma alu_is_head d h : alu_is d -> 0 <= h < dp_memory_size d -> alu_is (set_head h d).
Proof. auto. Qed.

Lemma alu_is_stack d st :
  alu_is d -> length st = length (stack d) -> alu_is (set_stack st d).
Proof. auto. Qed.

Lemma preserves_latch_alu_DIV J : preserves J (latch_alu DIV).
Proof. intros d Hd. rewrite latch_alu_DIV. by destruct d. Qed.

Ltac pres_alu_is :=
  lazymatch goal with
  | |- preserves _ tick => apply preserves_tick
  | |- preserves _ (latch_pc _) => apply preserves_latch_pc
  | |- preserves _ (mm _) => apply preserves_mm
  | |- preserves _ (dp (latch_alu DIV)) =>
      apply preserves_dp, preserves_latch_alu_DIV
  | |- preserves _ (dp (latch_head _)) =>
      apply preserves_dp, preserves_latch_head, alu_is_head
  | |- preserves _ (dp (push _)) =>
      apply preserves_dp, preserves_push; [apply alu_is_head | apply alu_is_stack]
  | |- preserves _ (dp (gets _)) => apply preserves_dp, preserves_gets
  end.

Lemma preserves_alu_DIV (i : Instr) :
  opcode i = DIV ->
  preserves (on_data_path alu_is) (micro_alu_operation i).
Proof.
  intros Hop. unfold micro_alu_operation. rewrite Hop. pres ltac:(idtac; pres_alu_is).
Qed.

Lemma alu_unchanged (i : Instr) (c c' : ControlUnit) :
  alu_is (data_path c) ->
  opcode i ∉ [MOD; PLUS; MULT; LT; POW; NEG; INV] ->
  execute_micro_operation is_number int_of_str i c = Ok tt c' ->
  alu_is (data_path c').
Proof.
  intros Ha Hop Hexec.
  assert (Hpres : preserves (on_data_path alu_is)
                    (execute_micro_operation is_number int_of_str i)).
  { destruct (decide (opcode i = DIV)) as [Hdiv|Hdiv].
    - unfold execute_micro_operation. rewrite Hdiv. cbn [handlers].
      by apply preserves_alu_DIV.
    - apply preserves_execute_other; [apply alu_is_head | apply alu_is_stack |].
      intros Hin. apply Hop. apply (bool_decide_unpack _).
      apply (bool_decide_pack _) in Hin.
      destruct (opcode i); done. }
  specialize (Hpres c Ha). by rewrite Hexec in Hpres.
Qed.
End Accumulator.

(** C10: [DIV] on a stack of depth at least 2 pops two operands, takes 2
    ticks and pushes the content of the accumulator, whatever the operands
    are.  The accumulator is 0 in a new data path; [MOD], [PLUS], [MULT],
    [LT], [POW], [NEG] and [INVERT] leave in it the result they computed and
    pushed; every other instruction, [DIV] itself included, leaves it as it
    is.  So what [DIV] pushes is the result of the latest of these seven, or
    0 when there was none. *)
Theorem div_pushes_accumulator (is_number : scalar -> bool)
    (int_of_str : string -> option Z) :
  (forall memory_size d, DataPath_init memory_size = inl d -> alu d = VInt 0) /\
  (forall i c x y rest t0 t1 r p,
     opcode i ∈ [MOD; PLUS; MULT; LT; POW] ->
     dp_wf (data_path c) ->
     pc c = SInt p ->
     operands (data_path c) = x :: y :: rest ->
     to_int x = inl t0 ->
     to_int y = inl t1 ->
     alu_result (opcode i) t0 t1 = Some r ->
     alu_pushes is_number int_of_str i c r rest) /\
  (forall i c x rest t0 t1 r p,
     opcode i ∈ [NEG; INV] ->
     dp_wf (data_path c) ->
     pc c = SInt p ->
     operands (data_path c) = x :: rest ->
     to_int x = inl t0 ->
     alu_result (opcode i) t0 t1 = Some r ->
     alu_pushes is_number int_of_str i c r rest) /\
  (forall i c c',
     opcode i ∉ [MOD; PLUS; MULT; LT; POW; NEG; INV] ->
     execute_micro_operation is_number int_of_str i c = Ok tt c' ->
     alu (data_path c') = alu (data_path c)) /\
  (forall i c x y rest p,
     opcode i = DIV ->
     dp_wf (data_path c) ->
     pc c = SInt p ->
     operands (data_path c) = x :: y :: rest ->
     exists c',
       execute_micro_operation is_number int_of_str i c = Ok tt c' /\
       operands (data_path c') = alu (data_path c) :: rest /\
       alu (data_path c') = alu (data_path c) /\
       head (data_path c') = head (data_path c) - 1 /\
       dp_wf (data_path c') /\
       mem c' = mem c /\
       pc c' = SInt (p + 1) /\
       _tick c' = _tick c + 2).
Proof.
  split_all.
  - intros memory_size d. unfold DataPath_init.
    case_bool_decide; simpl; [|done]. by intros [= <-].
  - intros i c x y rest t0 t1 r p Hop Hwf Hpc Hops Hx Hy Hr.
    eapply alu_handler_binary; try done.
    + apply (bool_decide_unpack _). apply (bool_decide_pack _) in Hop.
      by destruct (opcode i).
    + by eapply latch_alu_result.
  - intros i c x rest t0 t1 r p Hop Hwf Hpc Hops Hx Hr.
    eapply alu_handler_unary; try done.
    by eapply latch_alu_result_unary.
  - intros i c c' Hop Hexec.
    by apply (alu_unchanged is_number int_of_str (alu (data_path c)) i c c').
  - apply div_operands.
Qed.

(** ** The program counter *)

Lemma keeps_pc_bind {A B} (m : M ControlUnit A) (f : A -> M ControlUnit B) :
  keeps_pc m -> (forall a, keeps_pc (f a)) -> keeps_pc (m ≫= f).
Proof.
  intros Hm Hf c. specialize (Hm c). unfold mbind, M_bind.
  destruct (m c) as [a c1| |]; auto.
  specialize (Hf a c1). destruct (f a c1); auto. congruence.
Qed.

Lemma advances_pc_after {A B} (m : M ControlUnit A) (f : A -> M ControlUnit B) :
  keeps_pc m -> (forall a, advances_pc (f a)) -> advances_pc (m ≫= f).
Proof.
  intros Hm Hf c. specialize (Hm c). unfold mbind, M_bind.
  destruct (m c) as [a c1| |]; auto.
  specialize (Hf a c1). destruct (f a c1); auto.
  destruct Hf as (p & Hp & Hp'). exists p. split; congruence.
Qed.

Lemma advances_pc_before {A B} (m : M ControlUnit A) (f : A -> M ControlUnit B) :
  advances_pc m -> (forall a, keeps_pc (f a)) -> advances_pc (m ≫= f).
Proof.
  intros Hm Hf c. specialize (Hm c). unfold mbind, M_bind.
  destruct (m c) as [a c1| |]; auto.
  specialize (Hf a c1). destruct (f a c1); auto.
  destruct Hm as (p & Hp & Hp'). exists p. split; congruence.
Qed.

Lemma keeps_pc_ret {A} (a : A) : keeps_pc (mret a).
Proof. intros c. reflexivity. Qed.

Lemma keeps_pc_raise {A} e : keeps_pc (raise e : M ControlUnit A).
Proof. intros c. exact I. Qed.

Lemma keeps_pc_tick : keeps_pc tick.
Proof. intros c. reflexivity. Qed.

Lemma keeps_pc_dp {A} (m : M DataPath A) : keeps_pc (dp m).
Proof. intros c. unfold dp, on. by destruct (m _). Qed.

Lemma keeps_pc_mm {A} (m : M Memory A) : keeps_pc (mm m).
Proof. intros c. unfold mm, on. by destruct (m _). Qed.

Lemma keeps_pc_get_arg i : keeps_pc (get_arg i).
Proof. intros c. unfold get_arg. by destruct (arg i). Qed.

Lemma advances_pc_latch_pc : advances_pc (latch_pc true).
Proof.
  intros c. unfold latch_pc, mbind, M_bind, gets.
  destruct (pc c) as [p|s] eqn:Hp; simpl; eauto.
Qed.

Ltac kpc leaf :=
  cbv beta;
  lazymatch goal with
  | |- keeps_pc (mbind _ _) => apply keeps_pc_bind; [kpc leaf | intros ?; kpc leaf]
  | |- keeps_pc (mret _) => apply keeps_pc_ret
  | |- keeps_pc (raise _) => apply keeps_pc_raise
  | |- keeps_pc tick => apply keeps_pc_tick
  | |- keeps_pc (dp _) => apply keeps_pc_dp
  | |- keeps_pc (mm _) => apply keeps_pc_mm
  | |- keeps_pc (get_arg _) => apply keeps_pc_get_arg
  | |- keeps_pc (match ?x with _ => _ end) => destruct x; kpc leaf
  | |- advances_pc (mbind _ (latch_pc true)) =>
      apply advances_pc_before; [apply advances_pc_latch_pc | intros ?; kpc leaf]
  | |- advances_pc (mbind _ _) =>
      apply advances_pc_after; [kpc leaf | intros ?; kpc leaf]
  | |- _ => leaf
  end.

Section ProgramCounter.
Variable is_number : scalar -> bool.
Variable int_of_str : string -> option Z.

Lemma keeps_pc_int_arg a : keeps_pc (int_arg int_of_str a).
Proof.
  intros c. unfold int_arg. destruct a; simpl; [done|].
  by destruct (int_of_str s).
Qed.

Lemma keeps_pc_ord_arg a : keeps_pc (ord_arg a).
Proof.
  intros c. unfold ord_arg. destruct a as [|s]; [done|].
  by destruct (utf8_head s) as [[cp []]|].
Qed.

Ltac kpc_cu :=
  kpc ltac:(idtac; first [apply keeps_pc_int_arg | apply keeps_pc_ord_arg]).

(** Every handled opcode but the jumps and [HALT] ends on [latch_pc(True)]. *)
Lemma advances_pc_execute i :
  opcode i ∉ [MINUS; PRINT; JMP; JNT; HALT] ->
  advances_pc (execute_micro_operation is_number int_of_str i).
Proof.
  intros Hop. unfold execute_micro_operation.
  destruct (opcode i); cbn [handlers];
    try (exfalso; apply Hop; elem_of_list);
  unfold micro_read_direct, micro_read_indirect, micro_write_direct,
         micro_write_indirect, micro_no_operation, micro_rotate,
         micro_duplicate, micro_over, micro_swap, micro_push, micro_drop,
         micro_alu_operation;
  kpc_cu.
Qed.

Lemma jump_pc i c c' :
  micro_jump i c = Ok tt c' -> arg i = Some (pc c').
Proof.
  unfold micro_jump, get_arg, mbind, M_bind.
  destruct (arg i); simpl; [|done]. by intros [= <-].
Qed.

Lemma jump_if_not_true_pc i c c' :
  micro_jump_if_not_true i c = Ok tt c' ->
  (exists p, pc c = SInt p /\ pc c' = SInt (p + 1)) \/
  (exists j, get_instruction (pc c) (mem c) = Ok (VInstr j) (mem c) /\
             opcode j ∈ [JMP; JNT] /\ arg j = Some (pc c')).
Proof.
  unfold micro_jump_if_not_true. unfold mbind at 1, M_bind at 1.
  unfold dp, on.
  destruct (is_true (data_path c)) as [t d| |]; try done.
  unfold mbind at 1, M_bind at 1.
  destruct (negb (bool_decide (t = 0))).
  - pose proof (advances_pc_latch_pc (set_data_path d c)) as Hadv.
    destruct (latch_pc true _) as [[] c1| |]; try done.
    intros [= <-]. by left.
  - unfold latch_pc, mbind, M_bind, gets, mm, on; cbn [pc mem set_data_path].
    destruct (get_instruction (pc c) (mem c)) as [v m1| |] eqn:Hget; try done.
    assert (m1 = mem c) as ->.
    { revert Hget. unfold get_instruction, mbind, M_bind, gets, assert, index_ok.
      destruct (pc c); simpl; [|done].
      repeat (case_bool_decide; simpl; [|done]).
      destruct (getitem _ _); simpl; [|done]. by intros [= _ <-]. }
    destruct v as [| |j]; simpl; [done|done|].
    unfold assert. case_bool_decide as Hj; simpl; [|done].
    case_bool_decide; simpl; [|done].
    unfold get_arg. destruct (arg j) as [a|] eqn:Ha; simpl; [|done].
    intros [= <-]. right. exists j. simpl. by rewrite Ha.
Qed.

(** C5 (what the code does): [handlers] has an entry for every opcode but
    [MINUS] and [PRINT].  An instruction with one of these two falls through
    the dispatch and changes nothing: no tick, no latch of the program
    counter.  Every other instruction that runs to its end (so not [HALT])
    advances the tick counter by the cost of its opcode, at least 1, and
    latches the program counter: to the next instruction, or for [JMP] and a
    [JNT] that jumps to the argument of the instruction. *)
Theorem dispatch_misses_minus_and_print (i : Instr) (c c' : ControlUnit) :
  (opcode i ∈ [MINUS; PRINT] ->
   handlers is_number int_of_str (opcode i) = None /\
   execute_micro_operation is_number int_of_str i c = Ok tt c) /\
  (opcode i ∉ [MINUS; PRINT] ->
   is_Some (handlers is_number int_of_str (opcode i)) /\
   (execute_micro_operation is_number int_of_str i c = Ok tt c' ->
    opcode i <> HALT /\
    1 <= cost (opcode i) /\
    _tick c' = _tick c + cost (opcode i) /\
    (opcode i ∉ [JMP; JNT] -> exists p, pc c = SInt p /\ pc c' = SInt (p + 1)) /\
    (opcode i = JMP -> arg i = Some (pc c')) /\
    (opcode i = JNT ->
     (exists p, pc c = SInt p /\ pc c' = SInt (p + 1)) \/
     (exists j, get_instruction (pc c) (mem c) = Ok (VInstr j) (mem c) /\
                opcode j ∈ [JMP; JNT] /\ arg j = Some (pc c'))))).
Proof.
  split.
  - intros Hop. unfold execute_micro_operation.
    apply (bool_decide_pack _) in Hop. by destruct (opcode i).
  - intros Hop. split.
    { destruct (opcode i) eqn:E; simpl; eauto; exfalso; apply Hop; elem_of_list. }
    intros Hexec.
    assert (Hhalt : opcode i <> HALT).
    { intros E. unfold execute_micro_operation in Hexec. by rewrite E in Hexec. }
    pose proof (ticks_execute is_number int_of_str i c) as Ht.
    rewrite Hexec in Ht.
    split_all; try done.
    + destruct (opcode i); simpl; try lia; try done; exfalso; apply Hop; elem_of_list.
    + intros Hjmp.
      assert (Hadv : opcode i ∉ [MINUS; PRINT; JMP; JNT; HALT]).
      { intros Hin. apply (bool_decide_pack _) in Hin.
        destruct (opcode i) eqn:E; try done.
        - apply Hop. elem_of_list.
        - apply Hop. elem_of_list.
        - apply Hjmp. elem_of_list.
        - apply Hjmp. elem_of_list. }
      pose proof (advances_pc_execute i Hadv c) as Hpc. by rewrite Hexec in Hpc.
    + intros E. unfold execute_micro_operation in Hexec. rewrite E in Hexec.
      by apply jump_pc in Hexec.
    + intros E. unfold execute_micro_operation in Hexec. rewrite E in Hexec.
      by apply jump_if_not_true_pc in Hexec.
Qed.

End ProgramCounter.

(** ** The encoding *)

(** C6 (what the code does): for an empty data segment [write_code] writes
    the instructions only; when that text does not contain the word data,
    [read_code] decodes the empty rest of the file it has already read, and
    raises. *)
Theorem read_code_without_data (code : list Instr) :
  contains "data" (write_code code []) = false ->
  read_code (write_code code []) = inr JSONDecodeError.
Proof.
  intros Hno. unfold read_code, file_read. rewrite Hno. reflexivity.
Qed.

(** The program [[HALT]] with no data. *)
Lemma read_code_without_data_witness :
  contains "data" (write_code [op HALT] []) = false /\
  read_code (write_code [op HALT] []) = inr JSONDecodeError.
Proof.
  split; [reflexivity|].
  apply (read_code_without_data [op HALT]). reflexivity.
Defined.

(** With an empty data segment and the word data in the text of an
    instruction, the text has no boundary between two arrays to split at. *)
Example read_code_data_in_text :
  read_code (write_code [mkInstr PUSH (Some (SStr "data")) None] [])
  = inr IndexError.
Proof. vm_compute. reflexivity. Qed.

(** With data the round trip gives the pair back. *)
Example round_trip_sample :
  read_code (write_code sample_code [1; -2; 3]) = inl (sample_code, [1; -2; 3]).
Proof. vm_compute. reflexivity. Qed.

(** ** Closed instances *)

#[local] Abbreviation exec :=
  (execute_micro_operation is_number_literal int_of_decimal).
#[local] Abbreviation simulate := (simulation is_number_literal int_of_decimal).

(** A memory of 600 words, the program [[HALT]] and the data [[7]]. *)
Lemma memory_layout_witness :
  Memory_init 600 [op HALT] [] [7] = inl (sample_memory [op HALT] [7]) /\
  len [7] + len [op HALT] <= 600 /\
  data (sample_memory [op HALT] [7]) !! 0%nat = Some (VInt 7) /\
  data (sample_memory [op HALT] [7]) !! 1%nat = Some (VInt 0) /\
  get_instruction (SInt 0) (sample_memory [op HALT] [7])
  = Ok (VInstr (op HALT)) (sample_memory [op HALT] [7]).
Proof.
  assert (H1 : Memory_init 600 [op HALT] [] [7] = inl (sample_memory [op HALT] [7]))
    by reflexivity.
  assert (H2 : len [7] + len [op HALT] <= 600) by (unfold len; simpl; lia).
  destruct (memory_layout 600 [op HALT] [] [7] _ H1 H2)
    as (_ & _ & _ & HD & Hz & Hp).
  split_all; try assumption.
  - by apply HD.
  - apply Hz. unfold len; simpl; lia.
  - by apply (Hp 0%nat).
Defined.

(** There the word of the data segment is at address 0 and address 2 holds 0;
    [get_instruction 0] returns the word at address 599, not the one at 128. *)
Lemma memory_layout_counterexample :
  exists m,
    Memory_init 600 [op HALT] [] [7] = inl m /\
    data m !! 2%nat <> Some (VInt 7) /\
    data m !! 0%nat = Some (VInt 7) /\
    get_instruction (SInt 0) m = Ok (VInstr (op HALT)) m /\
    data m !! 128%nat <> Some (VInstr (op HALT)) /\
    data m !! 599%nat = Some (VInstr (op HALT)).
Proof.
  eexists. split; [reflexivity|]. vm_compute. split_all; done.
Qed.

(** A data path built by [sample_data_path] is well formed and holds the
    operands it was given. *)
Ltac sample_wf := split; [reflexivity | cbn; lia].

(** [READ_NDR] with the address 5 on the stack, cell 5 pointing to cell 6. *)
Lemma indirect_ticks_witness :
  exists c',
    exec (op READ_NDR) (sample_unit [VInt 5] 0 [op READ_NDR] [0; 0; 0; 0; 0; 6; 42])
    = Ok tt c' /\
    _tick c' = 0 + 7.
Proof.
  destruct (exec (op READ_NDR)
              (sample_unit [VInt 5] 0 [op READ_NDR] [0; 0; 0; 0; 0; 6; 42]))
    as [[] c'|c'|e] eqn:E.
  - exists c'. split; [reflexivity|].
    by apply (indirect_ticks is_number_literal int_of_decimal _ _ _ E).
  - exfalso. vm_compute in E. discriminate E.
  - exfalso. vm_compute in E. discriminate E.
Defined.

(** Both indirect instructions run to their end: 7 and 6 ticks, not 5. *)
Lemma indirect_ticks_counterexample :
  (exists c',
     exec (op READ_NDR) (sample_unit [VInt 5] 0 [op READ_NDR] [0; 0; 0; 0; 0; 6; 42])
     = Ok tt c' /\
     operands (data_path c') = [VInt 42] /\
     data (mem c') !! 5%nat = Some (VInt 7) /\
     _tick c' = 7 /\ _tick c' <> 0 + 5) /\
  (exists c',
     exec (op WR_NDR)
       (sample_unit [VInt 5; VInt 42] 0 [op WR_NDR] [0; 0; 0; 0; 0; 6; 0])
     = Ok tt c' /\
     operands (data_path c') = [] /\
     data (mem c') !! 6%nat = Some (VInt 42) /\
     data (mem c') !! 5%nat = Some (VInt 7) /\
     _tick c' = 6 /\ _tick c' <> 0 + 5).
Proof.
  split; (eexists; split; [vm_compute; reflexivity|]); vm_compute; split_all; done.
Qed.

(** [ROT] on the stack 1 2 3, 3 on top. *)
Lemma rot_operands_witness :
  opcode (op ROT) = ROT /\
  dp_wf (data_path (sample_unit [VInt 3; VInt 2; VInt 1] 0 [op ROT] [])) /\
  operands (data_path (sample_unit [VInt 3; VInt 2; VInt 1] 0 [op ROT] []))
  = [VInt 3; VInt 2; VInt 1] /\
  exists c',
    exec (op ROT) (sample_unit [VInt 3; VInt 2; VInt 1] 0 [op ROT] []) = Ok tt c' /\
    operands (data_path c') = [VInt 1; VInt 3; VInt 2] /\
    _tick c' = 0 + 1.
Proof.
  assert (Hwf : dp_wf (data_path (sample_unit [VInt 3; VInt 2; VInt 1] 0 [op ROT] [])))
    by sample_wf.
  split_all; [reflexivity | exact Hwf | reflexivity |].
  destruct (rot_operands is_number_literal int_of_decimal (op ROT) _
              (VInt 3) (VInt 2) (VInt 1) [] 0 eq_refl Hwf eq_refl eq_refl)
    as (c' & Hexec & Hops & _ & _ & _ & _ & _ & Htick).
  exists c'. split_all; done.
Defined.

(** The result is 2 3 1: the new top is the old third, not the old second,
    and the third has changed. *)
Lemma rot_operands_counterexample :
  exists c',
    exec (op ROT) (sample_unit [VInt 3; VInt 2; VInt 1] 0 [op ROT] []) = Ok tt c' /\
    operands (data_path c') = [VInt 1; VInt 3; VInt 2] /\
    operands (data_path c') !! 0%nat <> Some (VInt 2) /\
    operands (data_path c') !! 2%nat <> Some (VInt 1).
Proof.
  eexists. split; [vm_compute; reflexivity|]. vm_compute. split_all; done.
Qed.




(** [DIV] on the stack 1 9 7 with 13 in the accumulator; [PLUS] on the stack
    9 7 3 2 and then [DIV]. *)
Lemma div_pushes_accumulator_witness :
  dp_wf (data_path (sample_unit [VInt 7; VInt 9; VInt 1] 13 [op DIV] [])) /\
  (exists c',
     exec (op DIV) (sample_unit [VInt 7; VInt 9; VInt 1] 13 [op DIV] []) = Ok tt c' /\
     operands (data_path c') = [VInt 13; VInt 1] /\
     _tick c' = 0 + 2) /\
  (exists c1 c2,
     exec (op PLUS) (sample_unit [VInt 2; VInt 3; VInt 7; VInt 9] 0 [op PLUS] [])
     = Ok tt c1 /\
     alu (data_path c1) = VInt 5 /\
     exec (op DIV) c1 = Ok tt c2 /\
     operands (data_path c2) = [VInt 5; VInt 9]).
Proof.
  assert (Hwf : dp_wf (data_path (sample_unit [VInt 7; VInt 9; VInt 1] 13 [op DIV] [])))
    by sample_wf.
  assert (Hwf' : dp_wf (data_path (sample_unit [VInt 2; VInt 3; VInt 7; VInt 9] 0
                                     [op PLUS] [])))
    by sample_wf.
  destruct (div_pushes_accumulator is_number_literal int_of_decimal)
    as (_ & Hbin & _ & _ & Hdiv).
  split_all; [exact Hwf | |].
  - destruct (Hdiv (op DIV) _ (VInt 7) (VInt 9) [VInt 1] 0 eq_refl Hwf eq_refl eq_refl)
      as (c' & Hexec & Hops & _ & _ & _ & _ & _ & Htick).
    exists c'. split_all; done.
  - destruct (Hbin (op PLUS) _ (VInt 2) (VInt 3) [VInt 7; VInt 9] 2 3 (VInt 5) 0
                ltac:(elem_of_list) Hwf' eq_refl eq_refl eq_refl eq_refl eq_refl)
      as (c1 & Hexec1 & Hops1 & Halu1 & _ & Hwf1 & _ & (p & _ & Hpc1) & _).
    destruct (Hdiv (op DIV) c1 (VInt 5) (VInt 7) [VInt 9] (p + 1) eq_refl Hwf1 Hpc1 Hops1)
      as (c2 & Hexec2 & Hops2 & _).
    exists c1, c2. split_all; try done. by rewrite Hops2, Halu1.
Defined.

(** The state after the first instruction of [PUSH 1; HALT], and the state
    with the float one half on the stack, after a power with a negative
    exponent. *)
Lemma stack_safety_witness :
  (exists c,
     reachable is_number_literal int_of_decimal
       [mkInstr PUSH (Some (SInt 1)) None; op HALT] 600 [] [] c /\
     head (data_path c) = 1 /\
     0 <= head (data_path c) < 256 /\
     get_tos 1 (data_path c) = Raise AssertionError) /\
  (exists c,
     reachable is_number_literal int_of_decimal
       (half_code [op DROP; op HALT]) 600 [] [] c /\
     operands (data_path c) = [VFloat one_half] /\
     0 <= head (data_path c) < 256 /\
     get_tos 1 (data_path c) = Raise AssertionError).
Proof.
  split.
  - pose (code := [mkInstr PUSH (Some (SInt 1)) None; op HALT]).
    pose (c0 := ControlUnit_init (sample_data_path [] 0) (sample_memory code [])).
    assert (Hr0 : reachable is_number_literal int_of_decimal code 600 [] [] c0)
      by (by apply reachable_init).
    destruct (decode_and_execute is_number_literal int_of_decimal c0)
      as [[] c|c|e] eqn:E.
    + assert (Hh1 : head (data_path c) = 1).
      { vm_compute in E. injection E as <-. reflexivity. }
      pose proof (reachable_ok _ _ _ _ _ _ _ _ Hr0 E) as Hr.
      destruct (stack_safety is_number_literal int_of_decimal _ _ _ _ _ Hr)
        as (Hh & _ & Hunder).
      exists c. split_all; [exact Hr | exact Hh1 | apply Hh | apply Hh |].
      apply Hunder. lia.
    + exfalso. vm_compute in E. discriminate E.
    + exfalso. vm_compute in E. discriminate E.
  - pose (code := half_code [op DROP; op HALT]).
    pose (c0 := ControlUnit_init (sample_data_path [] 0) (sample_memory code [])).
    assert (Hr0 : reachable is_number_literal int_of_decimal code 600 [] [] c0)
      by (by apply reachable_init).
    assert (Hsteps : exists c,
              steps is_number_literal int_of_decimal 3 c0 c /\
              operands (data_path c) = [VFloat one_half] /\
              head (data_path c) = 1).
    { eexists. split_all.
      - eapply steps_S; [vm_compute; reflexivity|].
        eapply steps_S; [vm_compute; reflexivity|].
        eapply steps_S; [vm_compute; reflexivity|].
        apply steps_O.
      - reflexivity.
      - reflexivity. }
    destruct Hsteps as (c & Hsteps & Hops & Hh1).
    pose proof (reachable_steps _ _ _ _ _ _ _ _ _ Hr0 Hsteps) as Hr.
    destruct (stack_safety is_number_literal int_of_decimal _ _ _ _ _ Hr)
      as (Hh & _ & Hunder).
    exists c. split_all; [exact Hr | exact Hops | apply Hh | apply Hh |].
    apply Hunder. lia.
Defined.



(** A power with a negative exponent leaves a float on the stack and the run
    goes on: to [HALT], or round a loop to the ceiling. *)
Example float_power_runs :
  simulate (half_code [op DROP; op HALT]) 600 100 [] [] = Returned [] 4 5 /\
  simulate (half_code [mkInstr PUSH (Some (SInt 7)) None; op HALT]) 600 100 [] []
  = Returned [] 4 5 /\
  simulate (half_code [op DROP; mkInstr JMP (Some (SInt 0)) None]) 600 100 [] []
  = Returned [] 100 120.
Proof. vm_compute. split_all; reflexivity. Qed.

(** A float that is written to the output port: minus one half is printed
    as Python writes it, one half, which lies between 0 and 127, is refused
    by [chr]. *)
Example float_output :
  simulate [mkInstr PUSH (Some (SInt (-1))) None; mkInstr PUSH (Some (SInt (-2))) None;
            op POW; mkInstr PUSH (Some (SInt 1)) None; op WR_DIR; op HALT]
    600 100 [] []
  = Returned ["-0.5"] 5 7 /\
  simulate (half_code [mkInstr PUSH (Some (SInt 1)) None; op WR_DIR; op HALT])
    600 100 [] []
  = Raised TypeError.
Proof. vm_compute. split; reflexivity. Qed.

(** The stalled machine: [MINUS] retires instructions without a tick. *)
Example minus_stalls : simulate [op MINUS; op HALT] 600 50 [] [] = Returned [] 50 0.
Proof. vm_compute. reflexivity. Qed.

(** * Further properties of the machine *)

(** ** Outcomes other than a normal return *)

Lemma bind_raise {S A B} (m : M S A) (f : A -> M S B) s e :
  m s = Raise e -> (m ≫= f) s = Raise e.
Proof. unfold mbind, M_bind. by intros ->. Qed.

Lemma bind_stop {S A B} (m : M S A) (f : A -> M S B) s s' :
  m s = Stop s' -> (m ≫= f) s = Stop s'.
Proof. unfold mbind, M_bind. by intros ->. Qed.

(** The outcome of a sequence whose first part returns. *)
Lemma bind_outcome {S A B} (m : M S A) (f : A -> M S B) s (r : result S B) :
  wp m (fun a s' => f a s' = r) s -> (m ≫= f) s = r.
Proof. unfold wp, mbind, M_bind. by destruct (m s). Qed.

Lemma bind_post {S A B} (m : M S A) (f : A -> M S B) s (P : result S B -> Prop) :
  wp m (fun a s' => P (f a s')) s -> P ((m ≫= f) s).
Proof. unfold wp, mbind, M_bind. by destruct (m s). Qed.

Lemma dp_raise {A} (m : M DataPath A) c e :
  m (data_path c) = Raise e -> dp m c = Raise e.
Proof. unfold dp, on. by intros ->. Qed.

Lemma mm_raise {A} (m : M Memory A) c e :
  m (mem c) = Raise e -> mm m c = Raise e.
Proof. unfold mm, on. by intros ->. Qed.

Lemma mm_stop {A} (m : M Memory A) c t :
  m (mem c) = Stop t -> mm m c = Stop (set_mem t c).
Proof. unfold mm, on. by intros ->. Qed.

(** ** The stack instructions *)

(** The start of the proof that a microprogram returns: the depth of the
    stack from the operands given, then the weakest precondition. *)
Ltac start_micro Hwf Hops :=
  let Hlen := fresh "Hlen" in
  pose proof (operands_length _ Hwf) as Hlen; rewrite Hops in Hlen;
  unfold len in Hlen; cbn [length] in Hlen;
  let Hl := fresh "Hl" in let Hh := fresh "Hh" in
  pose proof Hwf as [Hl Hh];
  wp_goal.

(** The same for an instruction, through the [handlers] table. *)
Ltac start_exec Hop Hwf Hops :=
  let Hlen := fresh "Hlen" in
  pose proof (operands_length _ Hwf) as Hlen; rewrite Hops in Hlen;
  unfold len in Hlen; cbn [length] in Hlen;
  let Hl := fresh "Hl" in let Hh := fresh "Hh" in
  pose proof Hwf as [Hl Hh];
  unfold execute_micro_operation; rewrite Hop; cbn [handlers];
  wp_goal.

Section StackInstructions.
Variable is_number : scalar -> bool.
Variable int_of_str : string -> option Z.

#[local] Abbreviation execute := (execute_micro_operation is_number int_of_str).

(** X1: [DUP] on a stack that holds at least one operand and has room for one
    more pushes a copy of the top; the accumulator and the memory are
    unchanged, the program counter advances by one and exactly 1 tick
    elapses. *)
Theorem dup_operands (i : Instr) (c : ControlUnit) (x : value)
    (rest : list value) (p : Z) :
  opcode i = DUP ->
  dp_wf (data_path c) ->
  pc c = SInt p ->
  operands (data_path c) = x :: rest ->
  head (data_path c) + 1 < dp_memory_size (data_path c) ->
  exists c',
    execute i c = Ok tt c' /\
    operands (data_path c') = x :: x :: rest /\
    dp_wf (data_path c') /\
    alu (data_path c') = alu (data_path c) /\
    mem c' = mem c /\
    pc c' = SInt (p + 1) /\
    _tick c' = _tick c + 1.
Proof.
  intros Hop Hwf Hpc Hops Hroom. start_exec Hop Hwf Hops.
  unfold micro_duplicate. destruct c as [d m pc0 t]; simpl_cu; subst pc0.
  wp_tos 0%nat x. wp_push. wp_pc p. wp_step. simpl_cu.
  split_all; try assumption; try lia; congruence.
Qed.

(** X2: [OVER] copies the second operand on top of the stack: from [x :: y ::
    rest] to [y :: x :: y :: rest], in 1 tick. *)
Theorem over_operands (i : Instr) (c : ControlUnit) (x y : value)
    (rest : list value) (p : Z) :
  opcode i = OVER ->
  dp_wf (data_path c) ->
  pc c = SInt p ->
  operands (data_path c) = x :: y :: rest ->
  head (data_path c) + 1 < dp_memory_size (data_path c) ->
  exists c',
    execute i c = Ok tt c' /\
    operands (data_path c') = y :: x :: y :: rest /\
    dp_wf (data_path c') /\
    alu (data_path c') = alu (data_path c) /\
    mem c' = mem c /\
    pc c' = SInt (p + 1) /\
    _tick c' = _tick c + 1.
Proof.
  intros Hop Hwf Hpc Hops Hroom. start_exec Hop Hwf Hops.
  unfold micro_over. destruct c as [d m pc0 t]; simpl_cu; subst pc0.
  wp_tos 1%nat y. wp_push. wp_pc p. wp_step. simpl_cu.
  split_all; try assumption; try lia; congruence.
Qed.

(** X3: [SWAP] exchanges the two operands on top of the stack and leaves the
    depth as it is, in 1 tick. *)
Theorem swap_operands (i : Instr) (c : ControlUnit) (x y : value)
    (rest : list value) (p : Z) :
  opcode i = SWAP ->
  dp_wf (data_path c) ->
  pc c = SInt p ->
  operands (data_path c) = x :: y :: rest ->
  exists c',
    execute i c = Ok tt c' /\
    operands (data_path c') = y :: x :: rest /\
    dp_wf (data_path c') /\
    alu (data_path c') = alu (data_path c) /\
    mem c' = mem c /\
    pc c' = SInt (p + 1) /\
    _tick c' = _tick c + 1.
Proof.
  intros Hop Hwf Hpc Hops. start_exec Hop Hwf Hops.
  unfold micro_swap. destruct c as [d m pc0 t]; simpl_cu; subst pc0.
  wp_tos 0%nat x. wp_tos 1%nat y. wp_pop 2%nat. wp_push. wp_push.
  wp_pc p. wp_step. simpl_cu.
  split_all; try assumption; try lia; congruence.
Qed.

(** X4: [DROP] removes the top operand and nothing else, in 1 tick. *)
Theorem drop_operands (i : Instr) (c : ControlUnit) (x : value)
    (rest : list value) (p : Z) :
  opcode i = DROP ->
  dp_wf (data_path c) ->
  pc c = SInt p ->
  operands (data_path c) = x :: rest ->
  exists c',
    execute i c = Ok tt c' /\
    operands (data_path c') = rest /\
    dp_wf (data_path c') /\
    alu (data_path c') = alu (data_path c) /\
    mem c' = mem c /\
    pc c' = SInt (p + 1) /\
    _tick c' = _tick c + 1.
Proof.
  intros Hop Hwf Hpc Hops. start_exec Hop Hwf Hops.
  unfold micro_drop. destruct c as [d m pc0 t]; simpl_cu; subst pc0.
  wp_pop 1%nat. wp_pc p. wp_step. simpl_cu.
  split_all; try assumption; try lia; congruence.
Qed.

End StackInstructions.

(** ** The capacity of the operand stack *)

Lemma push_full d v :
  dp_wf d -> head d + 1 = dp_memory_size d -> push v d = Raise AssertionError.
Proof.
  intros [Hl Hh] Hfull.
  unfold push, mbind, M_bind, gets, modify, index_ok.
  rewrite setitem_nat by lia; simpl.
  unfold latch_head, mbind, M_bind, gets, modify, assert; simpl.
  rewrite bool_decide_eq_false_2 by lia. done.
Qed.

Section Capacity.
Variable is_number : scalar -> bool.
Variable int_of_str : string -> option Z.

#[local] Abbreviation execute := (execute_micro_operation is_number int_of_str).

(** X5: the stack of capacity [n] holds at most [n - 1] operands: [DUP] and
    [OVER] with [head + 1 = n] fail the assertion of [latch_head]. *)
Theorem stack_full (i : Instr) (c : ControlUnit) (x y : value) (rest : list value) :
  opcode i ∈ [DUP; OVER] ->
  dp_wf (data_path c) ->
  operands (data_path c) = x :: y :: rest ->
  head (data_path c) + 1 = dp_memory_size (data_path c) ->
  execute i c = Raise AssertionError.
Proof.
  intros Hop Hwf Hops Hfull.
  unfold execute_micro_operation.
  apply (bool_decide_pack _) in Hop.
  destruct (opcode i); try done; cbn [handlers];
    unfold micro_duplicate, micro_over; apply bind_outcome.
  - apply (wp_dp_tos 0 x); [done | lia | by rewrite Hops |].
    apply bind_raise, dp_raise. by apply push_full.
  - apply (wp_dp_tos 1 y); [done | lia | by rewrite Hops |].
    apply bind_raise, dp_raise. by apply push_full.
Qed.

End Capacity.

(** ** The two-operand arithmetic *)

Lemma latch_alu_binary op d t0 t1 rest r :
  dp_wf d -> operands d = VInt t0 :: VInt t1 :: rest ->
  binary_result op t0 t1 = Some r ->
  latch_alu op d = Ok tt (set_alu (VInt r) d).
Proof.
  intros Hwf Hops Hr.
  destruct op; try discriminate Hr; alu_whens; unfold mbind, M_bind; simpl;
    rewrite (get_tos_1 d _ (VInt t1) _ Hwf Hops); simpl;
    rewrite (get_tos_0 d (VInt t0) _ Hwf Hops); simpl.
  - unfold py_mod. simpl in Hr. case_bool_decide; [done|].
    by injection Hr as <-.
  - by injection Hr as <-.
  - by injection Hr as <-.
  - by injection Hr as <-.
Qed.

Lemma latch_alu_MOD_zero d t1 rest :
  dp_wf d -> operands d = VInt 0 :: VInt t1 :: rest ->
  latch_alu MOD d = Raise ZeroDivisionError.
Proof.
  intros Hwf Hops. alu_whens. unfold mbind, M_bind; simpl.
  rewrite (get_tos_1 d _ (VInt t1) _ Hwf Hops); simpl.
  by rewrite (get_tos_0 d (VInt 0) _ Hwf Hops).
Qed.

Lemma latch_alu_NEG d t0 rest :
  dp_wf d -> operands d = VInt t0 :: rest ->
  latch_alu NEG d = Ok tt (set_alu (VInt (t0 * -1)) d).
Proof.
  intros Hwf Hops. alu_whens. unfold mbind, M_bind; simpl.
  by rewrite (get_tos_0 d (VInt t0) _ Hwf Hops).
Qed.

Section Arithmetic.
Variable is_number : scalar -> bool.
Variable int_of_str : string -> option Z.

#[local] Abbreviation execute := (execute_micro_operation is_number int_of_str).

(** X6: [PLUS], [MULT], [LT] and [MOD] with a divisor that is not zero replace
    the two integers on top of the stack, [t0] above [t1], by [t1 + t0], [t1 *
    t0], the flag of [t1 < t0] (-1 for true, 0 for false) and [t1 mod t0]; the
    accumulator holds the result and 2 ticks elapse. *)
Theorem binary_operands (i : Instr) (c : ControlUnit) (t0 t1 r : Z)
    (rest : list value) (p : Z) :
  binary_result (opcode i) t0 t1 = Some r ->
  dp_wf (data_path c) ->
  pc c = SInt p ->
  operands (data_path c) = VInt t0 :: VInt t1 :: rest ->
  exists c',
    execute i c = Ok tt c' /\
    operands (data_path c') = VInt r :: rest /\
    alu (data_path c') = VInt r /\
    dp_wf (data_path c') /\
    mem c' = mem c /\
    pc c' = SInt (p + 1) /\
    _tick c' = _tick c + 2.
Proof.
  intros Hr Hwf Hpc Hops.
  pose proof (operands_length _ Hwf) as Hlen. rewrite Hops in Hlen.
  unfold len in Hlen; cbn [length] in Hlen.
  pose proof Hwf as [Hl Hh].
  assert (Hin : opcode i ∈ [MOD; PLUS; MULT; LT]).
  { apply (bool_decide_unpack _). by destruct (opcode i). }
  assert (Hh2 : handlers is_number int_of_str (opcode i) = Some micro_alu_operation).
  { apply (bool_decide_pack _) in Hin. by destruct (opcode i). }
  assert (Hnu : bool_decide (opcode i ∈ [NEG; INV]) = false).
  { apply (bool_decide_pack _) in Hin. by destruct (opcode i). }
  unfold execute_micro_operation. rewrite Hh2.
  wp_goal.
  unfold micro_alu_operation. rewrite Hnu.
  destruct c as [d m pc0 t]; simpl_cu; subst pc0.
  wp_alu latch_alu_binary.
  wp_pop 2%nat. wp_step; wp_step.
  wp_step; wp_step; wp_step. wp_push.
  wp_pc p. wp_step. simpl_cu.
  split_all; try assumption; try lia; try congruence.
Qed.

(** X7: [MOD] with 0 on top of the stack raises [ZeroDivisionError]. *)
Theorem mod_by_zero (i : Instr) (c : ControlUnit) (t1 : Z) (rest : list value) :
  opcode i = MOD ->
  dp_wf (data_path c) ->
  operands (data_path c) = VInt 0 :: VInt t1 :: rest ->
  execute i c = Raise ZeroDivisionError.
Proof.
  intros Hop Hwf Hops. unfold execute_micro_operation. rewrite Hop; cbn [handlers].
  unfold micro_alu_operation. rewrite Hop.
  apply bind_raise, dp_raise. by eapply latch_alu_MOD_zero.
Qed.

(** X8: [NEG] replaces the integer on top of the stack by its negation; the
    rest of the stack is unchanged and 2 ticks elapse. *)
Theorem neg_operands (i : Instr) (c : ControlUnit) (t0 : Z)
    (rest : list value) (p : Z) :
  opcode i = NEG ->
  dp_wf (data_path c) ->
  pc c = SInt p ->
  operands (data_path c) = VInt t0 :: rest ->
  exists c',
    execute i c = Ok tt c' /\
    operands (data_path c') = VInt (- t0) :: rest /\
    alu (data_path c') = VInt (- t0) /\
    dp_wf (data_path c') /\
    mem c' = mem c /\
    pc c' = SInt (p + 1) /\
    _tick c' = _tick c + 2.
Proof.
  intros Hop Hwf Hpc Hops. start_exec Hop Hwf Hops.
  unfold micro_alu_operation. rewrite Hop.
  rewrite bool_decide_eq_true_2 by elem_of_list.
  destruct c as [d m pc0 t]; simpl_cu; subst pc0.
  wp_alu latch_alu_NEG.
  wp_pop 1%nat. wp_step; wp_step.
  wp_step; wp_step; wp_step. wp_push.
  wp_pc p. wp_step. simpl_cu.
  split_all; try assumption; try lia; try congruence.
  all: rewrite ?Hops2, ?Halu1, ?Halu0, ?Halu;
    replace (t0 * -1) with (- t0) by lia; reflexivity.
Qed.

End Arithmetic.

(** ** The memory and its ports *)

Lemma between_int {S} lo v hi (s : S) :
  between lo (VInt v) hi s = Ok (bool_decide (lo <= v <= hi)) s.
Proof.
  unfold between, compare_int, mbind, M_bind; simpl. f_equal.
  destruct (Z.compare_spec v lo), (Z.compare_spec v hi);
    (rewrite bool_decide_eq_true_2 by lia) || (rewrite bool_decide_eq_false_2 by lia);
    reflexivity.
Qed.

Lemma latch_data_address_ok m v :
  0 <= v <= memory_size m ->
  latch_data_address (VInt v) m = Ok tt (set_data_address (VInt v) m).
Proof.
  intros Hv. unfold latch_data_address. unfold mbind at 1, M_bind at 1, gets.
  unfold mbind at 1, M_bind at 1. rewrite between_int.
  by rewrite bool_decide_eq_true_2.
Qed.

Lemma latch_data_address_out m v :
  ~ 0 <= v <= memory_size m ->
  latch_data_address (VInt v) m = Raise AssertionError.
Proof.
  intros Hv. unfold latch_data_address. unfold mbind at 1, M_bind at 1, gets.
  unfold mbind at 1, M_bind at 1. rewrite between_int.
  by rewrite bool_decide_eq_false_2.
Qed.

Lemma read_cell m a v :
  data_address m = VInt a -> a <> 0 -> a <> 1 ->
  getitem (data m) a = Some v ->
  read m = Ok v m.
Proof.
  intros Ha H0 H1 Hv. unfold read, mbind, M_bind, gets, assert; simpl.
  rewrite Ha; simpl.
  rewrite (bool_decide_eq_false_2 (_ = 1)) by done; simpl.
  rewrite (bool_decide_eq_false_2 (_ = 0)) by done; simpl.
  by rewrite Hv.
Qed.

Lemma read_output_port m : data_address m = VInt 1 -> read m = Raise AssertionError.
Proof.
  intros H1. unfold read, mbind, M_bind, gets, assert; simpl.
  by rewrite H1.
Qed.

Lemma read_input_empty m :
  data_address m = VInt 0 -> input_buffer m = [] -> read m = Stop m.
Proof.
  intros H0 Hin. unfold read, mbind, M_bind, gets, assert; simpl.
  rewrite H0; simpl. by rewrite Hin.
Qed.

Lemma read_input m tok cp r rest :
  data_address m = VInt 0 -> input_buffer m = tok :: rest ->
  utf8_head tok = Some (cp, r) ->
  0 < len (data m) ->
  read m = Ok (VInt cp)
             (set_data (<[0%nat:=VInt cp]> (data m)) (set_input_buffer rest m)).
Proof.
  intros H0 Hin Hcp Hlen. unfold read, mbind, M_bind, gets, assert, modify; simpl.
  rewrite H0; simpl. rewrite Hin; simpl. unfold ord_first. rewrite Hcp; simpl.
  by rewrite setitem_nat by lia.
Qed.

Lemma write_cell m a v :
  data_address m = VInt a -> a <> 0 -> a <> 1 ->
  0 <= a < len (data m) ->
  write v m = Ok tt (set_data (<[Z.to_nat a:=v]> (data m)) m).
Proof.
  intros Ha H0 H1 Hr. unfold write, mbind, M_bind, gets, assert, modify; simpl.
  rewrite Ha; simpl.
  rewrite (bool_decide_eq_false_2 (_ = 0)) by done; simpl.
  rewrite (bool_decide_eq_false_2 (_ = 1)) by done; simpl.
  by rewrite setitem_nat by lia.
Qed.

Lemma write_input_port m v :
  data_address m = VInt 0 -> write v m = Raise AssertionError.
Proof.
  intros H0. unfold write, mbind, M_bind, gets, assert; simpl.
  by rewrite H0.
Qed.

Lemma write_output_port m v :
  data_address m = VInt 1 -> 1 < len (data m) ->
  write (VInt v) m
  = Ok tt (set_output_buffer (output_buffer m ++ [output_token v])
             (set_data (<[1%nat:=VInt v]> (data m)) m)).
Proof.
  intros H1 Hlen. unfold write. unfold mbind at 1, M_bind at 1, gets.
  rewrite H1. unfold mbind at 1, M_bind at 1, assert; simpl.
  unfold mbind at 1, M_bind at 1, gets.
  unfold mbind at 1, M_bind at 1. rewrite setitem_nat by lia; simpl.
  unfold mbind at 1, M_bind at 1, modify.
  unfold mbind at 1, M_bind at 1. rewrite between_int.
  unfold output_token. by case_bool_decide.
Qed.

Lemma wp_mm_latch v (Q : unit -> ControlUnit -> Prop) c :
  0 <= v <= memory_size (mem c) ->
  Q tt (set_mem (set_data_address (VInt v) (mem c)) c) ->
  wp (mm (latch_data_address (VInt v))) Q c.
Proof.
  intros Hv HQ. apply wp_mm. unfold wp. by rewrite latch_data_address_ok.
Qed.

Lemma wp_dp_oe (k : nat) v (Q : value -> ControlUnit -> Prop) c :
  dp_wf (data_path c) -> (k <= 3)%nat -> operands (data_path c) !! k = Some v ->
  Q v c -> wp (dp (oe_stack (Z.of_nat k) None)) Q c.
Proof.
  intros Hwf Hk Hv HQ.
  pose proof (operands_lookup_lt _ _ _ Hwf Hv) as Hlt.
  apply wp_dp. unfold wp, oe_stack, mbind, M_bind, gets, assert; simpl.
  rewrite bool_decide_eq_true_2 by lia; simpl.
  rewrite (get_tos_ok _ k v) by done. simpl. by destruct c.
Qed.

Lemma wp_dp_oe_next (k : nat) sel z (Q : value -> ControlUnit -> Prop) c :
  sel ∈ [READ_NDR; WR_NDR] ->
  dp_wf (data_path c) -> (k <= 3)%nat ->
  operands (data_path c) !! k = Some (VInt z) ->
  Q (VInt (z + 1)) c -> wp (dp (oe_stack (Z.of_nat k) (Some sel))) Q c.
Proof.
  intros Hsel Hwf Hk Hv HQ.
  pose proof (operands_lookup_lt _ _ _ Hwf Hv) as Hlt.
  apply wp_dp. unfold wp, oe_stack, mbind, M_bind, gets, assert; simpl.
  rewrite bool_decide_eq_true_2 by lia; simpl.
  rewrite (get_tos_ok _ k (VInt z)) by done. simpl.
  rewrite bool_decide_eq_true_2.
  - simpl. by destruct c.
  - apply (bool_decide_pack _) in Hsel. apply (bool_decide_unpack _).
    by destruct sel.
Qed.

Lemma wp_mm_read_cell a v (Q : value -> ControlUnit -> Prop) c :
  data_address (mem c) = VInt a -> a <> 0 -> a <> 1 ->
  getitem (data (mem c)) a = Some v ->
  Q v c -> wp (mm read) Q c.
Proof.
  intros Ha H0 H1 Hv HQ. apply wp_mm. unfold wp. rewrite (read_cell _ a v) by done.
  by destruct c.
Qed.

Lemma wp_mm_write_cell a v (Q : unit -> ControlUnit -> Prop) c :
  data_address (mem c) = VInt a -> a <> 0 -> a <> 1 ->
  0 <= a < len (data (mem c)) ->
  Q tt (set_mem (set_data (<[Z.to_nat a:=v]> (data (mem c))) (mem c)) c) ->
  wp (mm (write v)) Q c.
Proof.
  intros Ha H0 H1 Hr HQ. apply wp_mm. unfold wp. by rewrite (write_cell _ a).
Qed.

Lemma wp_mm_write_port v (Q : unit -> ControlUnit -> Prop) c :
  data_address (mem c) = VInt 1 -> 1 < len (data (mem c)) ->
  Q tt (set_mem (set_output_buffer (output_buffer (mem c) ++ [output_token v])
                   (set_data (<[1%nat:=VInt v]> (data (mem c))) (mem c))) c) ->
  wp (mm (write (VInt v))) Q c.
Proof.
  intros H1 Hlen HQ. apply wp_mm. unfold wp. by rewrite write_output_port.
Qed.

Lemma wp_mm_read_input tok cp r rest (Q : value -> ControlUnit -> Prop) c :
  data_address (mem c) = VInt 0 -> input_buffer (mem c) = tok :: rest ->
  utf8_head tok = Some (cp, r) ->
  0 < len (data (mem c)) ->
  Q (VInt cp)
    (set_mem (set_data (<[0%nat:=VInt cp]> (data (mem c)))
                (set_input_buffer rest (mem c))) c) ->
  wp (mm read) Q c.
Proof.
  intros H0 Hin Hcp Hlen HQ. apply wp_mm. unfold wp.
  by rewrite (read_input _ tok cp r rest).
Qed.

Ltac simpl_st :=
  simpl_cu;
  unfold set_data_address, set_data, set_input_buffer, set_output_buffer in *;
  cbn [data_address memory_size data program_start program_len input_buffer
       output_buffer] in *.

Ltac wp_oe k v :=
  wp_step; apply (wp_dp_oe k v);
  [assumption | lia
  | simpl_cu; match goal with H : operands _ = _ |- _ => rewrite H end; reflexivity |].

Ltac wp_latch v :=
  wp_step; apply (wp_mm_latch v); [simpl_st; lia | simpl_st].

Section DirectAccess.
Variable is_number : scalar -> bool.
Variable int_of_str : string -> option Z.

#[local] Abbreviation execute := (execute_micro_operation is_number int_of_str).

Lemma micro_write_direct_cell (i : Instr) (c : ControlUnit) (a : Z) (v : value)
    (rest : list value) (p : Z) :
  dp_wf (data_path c) ->
  pc c = SInt p ->
  operands (data_path c) = VInt a :: v :: rest ->
  a <> 0 -> a <> 1 ->
  0 <= a <= memory_size (mem c) ->
  a < len (data (mem c)) ->
  exists c',
    micro_write_direct i c = Ok tt c' /\
    operands (data_path c') = rest /\
    data (mem c') = <[Z.to_nat a:=v]> (data (mem c)) /\
    input_buffer (mem c') = input_buffer (mem c) /\
    output_buffer (mem c') = output_buffer (mem c) /\
    same_geometry (mem c) (mem c') /\
    dp_wf (data_path c') /\
    pc c' = SInt (p + 1) /\
    _tick c' = _tick c + 2.
Proof.
  intros Hwf Hpc Hops Ha0 Ha1 Har Hal. start_micro Hwf Hops.
  unfold micro_write_direct.
  destruct c as [d [da ms dt ps pl ib ob] pc0 t]; simpl_st; subst pc0.
  wp_tos 0%nat (VInt a). wp_latch a. wp_step; wp_step.
  wp_oe 1%nat v.
  wp_step. eapply wp_mm_write_cell; simpl_st; try done; unfold len in *;
    rewrite ?length_insert; try lia.
  wp_pop 2%nat. wp_pc p. wp_step. simpl_st.
  split_all; try assumption; try lia; try congruence; done.
Qed.

(** X9: [WR_DIR] with an address [a] other than the two ports stores the value
    under the address in the cell [a] and pops both; no other cell, neither
    buffer and no bound of the memory changes; 2 ticks. *)
Theorem write_direct_cell (i : Instr) (c : ControlUnit) (a : Z) (v : value)
    (rest : list value) (p : Z) :
  opcode i = WR_DIR ->
  dp_wf (data_path c) ->
  pc c = SInt p ->
  operands (data_path c) = VInt a :: v :: rest ->
  a <> 0 -> a <> 1 ->
  0 <= a <= memory_size (mem c) ->
  a < len (data (mem c)) ->
  exists c',
    execute i c = Ok tt c' /\
    operands (data_path c') = rest /\
    data (mem c') = <[Z.to_nat a:=v]> (data (mem c)) /\
    input_buffer (mem c') = input_buffer (mem c) /\
    output_buffer (mem c') = output_buffer (mem c) /\
    same_geometry (mem c) (mem c') /\
    dp_wf (data_path c') /\
    pc c' = SInt (p + 1) /\
    _tick c' = _tick c + 2.
Proof.
  intros Hop. unfold execute_micro_operation. rewrite Hop. cbn [handlers].
  apply micro_write_direct_cell.
Qed.

Lemma micro_read_direct_cell (i : Instr) (c : ControlUnit) (a : Z) (v : value)
    (rest : list value) (p : Z) :
  dp_wf (data_path c) ->
  pc c = SInt p ->
  operands (data_path c) = VInt a :: rest ->
  a <> 0 -> a <> 1 ->
  0 <= a <= memory_size (mem c) ->
  getitem (data (mem c)) a = Some v ->
  exists c',
    micro_read_direct i c = Ok tt c' /\
    operands (data_path c') = v :: rest /\
    data (mem c') = data (mem c) /\
    input_buffer (mem c') = input_buffer (mem c) /\
    output_buffer (mem c') = output_buffer (mem c) /\
    same_geometry (mem c) (mem c') /\
    dp_wf (data_path c') /\
    pc c' = SInt (p + 1) /\
    _tick c' = _tick c + 2.
Proof.
  intros Hwf Hpc Hops Ha0 Ha1 Har Hv. start_micro Hwf Hops.
  unfold micro_read_direct.
  destruct c as [d [da ms dt ps pl ib ob] pc0 t]; simpl_st; subst pc0.
  wp_oe 0%nat (VInt a). wp_latch a. wp_pop 1%nat. wp_step; wp_step.
  wp_step. eapply (wp_mm_read_cell _ v); simpl_st; try done.
  wp_push. wp_pc p. wp_step. simpl_st.
  split_all; try assumption; try lia; try congruence; done.
Qed.

(** X10: [READ_DIR] with an address [a] other than the two ports replaces the
    address on top of the stack by the content of the cell [a] and leaves the
    memory as it is; 2 ticks. *)
Theorem read_direct_cell (i : Instr) (c : ControlUnit) (a : Z) (v : value)
    (rest : list value) (p : Z) :
  opcode i = READ_DIR ->
  dp_wf (data_path c) ->
  pc c = SInt p ->
  operands (data_path c) = VInt a :: rest ->
  a <> 0 -> a <> 1 ->
  0 <= a <= memory_size (mem c) ->
  getitem (data (mem c)) a = Some v ->
  exists c',
    execute i c = Ok tt c' /\
    operands (data_path c') = v :: rest /\
    data (mem c') = data (mem c) /\
    input_buffer (mem c') = input_buffer (mem c) /\
    output_buffer (mem c') = output_buffer (mem c) /\
    same_geometry (mem c) (mem c') /\
    dp_wf (data_path c') /\
    pc c' = SInt (p + 1) /\
    _tick c' = _tick c + 2.
Proof.
  intros Hop. unfold execute_micro_operation. rewrite Hop. cbn [handlers].
  apply micro_read_direct_cell.
Qed.

(** X11: what [WR_DIR] stores at an address, [READ_DIR] at the same address
    reads back, whatever the data path holds below the address. *)
Theorem write_then_read (w r : Instr) (c c1 c2 : ControlUnit) (a : Z)
    (v : value) (rest rest2 : list value) (p p2 : Z) :
  opcode w = WR_DIR ->
  opcode r = READ_DIR ->
  dp_wf (data_path c) ->
  pc c = SInt p ->
  operands (data_path c) = VInt a :: v :: rest ->
  a <> 0 -> a <> 1 ->
  0 <= a <= memory_size (mem c) ->
  a < len (data (mem c)) ->
  execute w c = Ok tt c1 ->
  mem c2 = mem c1 ->
  dp_wf (data_path c2) ->
  pc c2 = SInt p2 ->
  operands (data_path c2) = VInt a :: rest2 ->
  exists c3,
    execute r c2 = Ok tt c3 /\
    operands (data_path c3) = v :: rest2 /\
    data (mem c3) = <[Z.to_nat a:=v]> (data (mem c)).
Proof.
  intros Hw Hr Hwf Hpc Hops Ha0 Ha1 Har Hal Hexec Hmem Hwf2 Hpc2 Hops2.
  unfold execute_micro_operation in *. rewrite Hw in Hexec. rewrite Hr.
  cbn [handlers] in *.
  destruct (micro_write_direct_cell w c a v rest p Hwf Hpc Hops Ha0 Ha1 Har Hal)
    as (c1' & Hexec' & _ & Hdata & _ & _ & (Hms & _) & _).
  rewrite Hexec in Hexec'. injection Hexec' as <-.
  destruct (micro_read_direct_cell r c2 a v rest2 p2 Hwf2 Hpc2 Hops2 Ha0 Ha1)
    as (c3 & Hexec3 & Hops3 & Hdata3 & _).
  - rewrite Hmem, Hms. exact Har.
  - rewrite Hmem, Hdata. rewrite getitem_nat.
    + apply list_lookup_insert_eq. unfold len in Hal. lia.
    + unfold len in *. rewrite length_insert. lia.
  - exists c3. split_all; try done. by rewrite Hdata3, Hmem.
Qed.

(** X12: [WR_DIR] to the address 1 appends one token to the output: the
    character of the value when it is between 0 and 127, its decimal numeral
    otherwise; the cell 1 holds the value and the input is untouched. *)
Theorem write_direct_output (i : Instr) (c : ControlUnit) (v : Z)
    (rest : list value) (p : Z) :
  opcode i = WR_DIR ->
  dp_wf (data_path c) ->
  pc c = SInt p ->
  operands (data_path c) = VInt 1 :: VInt v :: rest ->
  1 <= memory_size (mem c) ->
  1 < len (data (mem c)) ->
  exists c',
    execute i c = Ok tt c' /\
    operands (data_path c') = rest /\
    output_buffer (mem c') = output_buffer (mem c) ++ [output_token v] /\
    data (mem c') = <[1%nat:=VInt v]> (data (mem c)) /\
    input_buffer (mem c') = input_buffer (mem c) /\
    same_geometry (mem c) (mem c') /\
    dp_wf (data_path c') /\
    pc c' = SInt (p + 1) /\
    _tick c' = _tick c + 2.
Proof.
  intros Hop Hwf Hpc Hops Hms Hl1. start_exec Hop Hwf Hops.
  unfold micro_write_direct.
  destruct c as [d [da ms dt ps pl ib ob] pc0 t]; simpl_st; subst pc0.
  wp_tos 0%nat (VInt 1). wp_latch 1. wp_step; wp_step.
  wp_oe 1%nat (VInt v).
  wp_step. apply wp_mm_write_port; simpl_st; try done.
  wp_pop 2%nat. wp_pc p. wp_step. simpl_st.
  split_all; try assumption; try lia; try congruence; done.
Qed.

(** X13: [READ_DIR] of the address 0 with a token waiting consumes the first
    token of the input and pushes the code point of its first character,
    which the cell 0 holds afterwards; the output is untouched. *)
Theorem read_direct_input (i : Instr) (c : ControlUnit) (tok : string)
    (cp : Z) (r : string) (more : list string) (rest : list value) (p : Z) :
  opcode i = READ_DIR ->
  dp_wf (data_path c) ->
  pc c = SInt p ->
  operands (data_path c) = VInt 0 :: rest ->
  input_buffer (mem c) = tok :: more ->
  utf8_head tok = Some (cp, r) ->
  0 <= memory_size (mem c) ->
  0 < len (data (mem c)) ->
  exists c',
    execute i c = Ok tt c' /\
    operands (data_path c') = VInt cp :: rest /\
    input_buffer (mem c') = more /\
    data (mem c') = <[0%nat:=VInt cp]> (data (mem c)) /\
    output_buffer (mem c') = output_buffer (mem c) /\
    same_geometry (mem c) (mem c') /\
    dp_wf (data_path c') /\
    pc c' = SInt (p + 1) /\
    _tick c' = _tick c + 2.
Proof.
  intros Hop Hwf Hpc Hops Hin Hcp Hms Hl0. start_exec Hop Hwf Hops.
  unfold micro_read_direct.
  destruct c as [d [da ms dt ps pl ib ob] pc0 t]; simpl_st; subst pc0.
  wp_oe 0%nat (VInt 0). wp_latch 0. wp_pop 1%nat. wp_step; wp_step.
  wp_step. apply (wp_mm_read_input tok cp r more); simpl_st; try done.
  wp_push. wp_pc p. wp_step. simpl_st.
  split_all; try assumption; try lia; try congruence; done.
Qed.

(** X14: [READ_DIR] of the address 0 with no token left ends in
    [StopIteration] after the first tick: the address is popped, the program
    counter, the cells and the output are as before. *)
Theorem read_direct_input_empty (i : Instr) (c : ControlUnit)
    (rest : list value) :
  opcode i = READ_DIR ->
  dp_wf (data_path c) ->
  operands (data_path c) = VInt 0 :: rest ->
  input_buffer (mem c) = [] ->
  0 <= memory_size (mem c) ->
  exists c',
    execute i c = Stop c' /\
    operands (data_path c') = rest /\
    output_buffer (mem c') = output_buffer (mem c) /\
    data (mem c') = data (mem c) /\
    pc c' = pc c /\
    _tick c' = _tick c + 1.
Proof.
  intros Hop Hwf Hops Hin Hms.
  pose proof (operands_length _ Hwf) as Hlen. rewrite Hops in Hlen.
  unfold len in Hlen; cbn [length] in Hlen.
  pose proof Hwf as [Hl Hh].
  unfold execute_micro_operation; rewrite Hop; cbn [handlers].
  unfold micro_read_direct.
  destruct c as [d [da ms dt ps pl ib ob] pc0 t]; simpl_st; subst ib.
  apply (bind_post _ _ _ (fun r => exists c', r = Stop c' /\ _)).
  apply (wp_dp_oe 0 (VInt 0)); [assumption | lia | simpl_cu; by rewrite Hops |].
  apply (bind_post _ _ _ (fun r => exists c', r = Stop c' /\ _)).
  apply (wp_mm_latch 0); simpl_st; [lia|].
  apply (bind_post _ _ _ (fun r => exists c', r = Stop c' /\ _)).
  apply (wp_dp_pop 1%nat); [assumption | lia | simpl_cu; lia |].
  intro_dp_next.
  apply (bind_post _ _ _ (fun r => exists c', r = Stop c' /\ _)).
  apply wp_tick. simpl_st.
  eexists. split.
  - apply bind_stop, mm_stop, read_input_empty; reflexivity.
  - simpl_st. split_all; try done.
Qed.

Lemma getitem_lt {A} (l : list A) (i : Z) (v : A) :
  getitem l i = Some v -> i < len l.
Proof.
  unfold getitem, py_index, len.
  repeat case_bool_decide; simpl; intros; try done; lia.
Qed.

(** X15: [READ_DIR] of the output port 1 or of an address outside [0 ..
    memory_size] raises [AssertionError]. *)
Theorem read_direct_refused (i : Instr) (c : ControlUnit) (a : Z)
    (rest : list value) :
  opcode i = READ_DIR ->
  dp_wf (data_path c) ->
  operands (data_path c) = VInt a :: rest ->
  a = 1 \/ ~ 0 <= a <= memory_size (mem c) ->
  execute i c = Raise AssertionError.
Proof.
  intros Hop Hwf Hops Ha.
  pose proof (operands_length _ Hwf) as Hlen. rewrite Hops in Hlen.
  unfold len in Hlen; cbn [length] in Hlen.
  pose proof Hwf as [Hl Hh].
  unfold execute_micro_operation; rewrite Hop; cbn [handlers].
  unfold micro_read_direct.
  destruct c as [d [da ms dt ps pl ib ob] pc0 t]; simpl_st.
  apply bind_outcome.
  apply (wp_dp_oe 0 (VInt a)); [assumption | lia | simpl_cu; by rewrite Hops |].
  destruct (decide (0 <= a <= ms)) as [Hin|Hout].
  - destruct Ha as [->|]; [|done].
    apply bind_outcome. apply (wp_mm_latch 1); simpl_st; [lia|].
    apply bind_outcome. apply (wp_dp_pop 1%nat); [assumption | lia | simpl_cu; lia |].
    intro_dp_next.
    apply bind_outcome. apply wp_tick. simpl_st.
    apply bind_raise, mm_raise, read_output_port. reflexivity.
  - apply bind_raise, mm_raise, latch_data_address_out. done.
Qed.

(** X16: [WR_DIR] to the input port 0 or to an address outside [0 ..
    memory_size] raises [AssertionError]. *)
Theorem write_direct_refused (i : Instr) (c : ControlUnit) (a : Z) (v : value)
    (rest : list value) :
  opcode i = WR_DIR ->
  dp_wf (data_path c) ->
  operands (data_path c) = VInt a :: v :: rest ->
  a = 0 \/ ~ 0 <= a <= memory_size (mem c) ->
  execute i c = Raise AssertionError.
Proof.
  intros Hop Hwf Hops Ha.
  pose proof (operands_length _ Hwf) as Hlen. rewrite Hops in Hlen.
  unfold len in Hlen; cbn [length] in Hlen.
  pose proof Hwf as [Hl Hh].
  unfold execute_micro_operation; rewrite Hop; cbn [handlers].
  unfold micro_write_direct.
  destruct c as [d [da ms dt ps pl ib ob] pc0 t]; simpl_st.
  apply bind_outcome.
  apply (wp_dp_tos 0 (VInt a)); [assumption | lia | simpl_cu; by rewrite Hops |].
  destruct (decide (0 <= a <= ms)) as [Hin|Hout].
  - destruct Ha as [->|]; [|done].
    apply bind_outcome. apply (wp_mm_latch 0); simpl_st; [lia|].
    apply bind_outcome. apply wp_tick. simpl_st.
    apply bind_outcome.
    apply (wp_dp_oe 1 v); [assumption | lia | simpl_cu; by rewrite Hops |].
    apply bind_raise, mm_raise, write_input_port. reflexivity.
  - apply bind_raise, mm_raise, latch_data_address_out. done.
Qed.

(** X17: [READ_NDR] with the address [a] of a pointer cell on the stack: the
    value of the cell the pointer designates replaces [a], and the pointer in
    the cell [a] moves on by one; nothing else of the memory changes; 7
    ticks. *)
Theorem read_indirect_cell (i : Instr) (c : ControlUnit) (a ptr : Z)
    (v : value) (rest : list value) (p : Z) :
  opcode i = READ_NDR ->
  dp_wf (data_path c) ->
  pc c = SInt p ->
  operands (data_path c) = VInt a :: rest ->
  head (data_path c) + 2 < dp_memory_size (data_path c) ->
  a <> 0 -> a <> 1 -> 0 <= a <= memory_size (mem c) ->
  ptr <> 0 -> ptr <> 1 -> 0 <= ptr <= memory_size (mem c) ->
  getitem (data (mem c)) a = Some (VInt ptr) ->
  getitem (data (mem c)) ptr = Some v ->
  exists c',
    execute i c = Ok tt c' /\
    operands (data_path c') = v :: rest /\
    data (mem c') = <[Z.to_nat a:=VInt (ptr + 1)]> (data (mem c)) /\
    input_buffer (mem c') = input_buffer (mem c) /\
    output_buffer (mem c') = output_buffer (mem c) /\
    same_geometry (mem c) (mem c') /\
    dp_wf (data_path c') /\
    pc c' = SInt (p + 1) /\
    _tick c' = _tick c + 7.
Proof.
  intros Hop Hwf Hpc Hops Hroom Ha0 Ha1 Har Hp0 Hp1 Hpr Hga Hgp.
  assert (Hal : a < len (data (mem c))).
  { by apply getitem_lt in Hga. }
  start_exec Hop Hwf Hops.
  unfold micro_read_indirect. rewrite Hop.
  destruct c as [d [da ms dt ps pl ib ob] pc0 t]; simpl_st; subst pc0.
  wp_oe 0%nat (VInt a). wp_latch a. wp_step; wp_step.
  wp_step. eapply (wp_mm_read_cell _ (VInt ptr)); simpl_st; try done.
  wp_push. wp_step; wp_step.
  wp_oe 0%nat (VInt ptr). wp_latch ptr. wp_step; wp_step.
  wp_step. eapply (wp_mm_read_cell _ v); simpl_st; try done.
  wp_push. wp_step; wp_step.
  wp_tos 0%nat v. wp_tos 1%nat (VInt ptr). wp_tos 2%nat (VInt a).
  wp_pop 3%nat. wp_push. wp_push. wp_push. wp_step; wp_step.
  wp_oe 0%nat (VInt a). wp_latch a. wp_step; wp_step.
  wp_step. apply (wp_dp_oe_next 1 READ_NDR ptr);
    [elem_of_list | assumption | lia
    | simpl_cu; match goal with H : operands _ = _ |- _ => rewrite H end; reflexivity |].
  wp_step. eapply wp_mm_write_cell; simpl_st; try done; unfold len in *;
    rewrite ?length_insert; try lia.
  wp_pop 2%nat. wp_pc p. wp_step. simpl_st.
  split_all; try assumption; try lia; try congruence; done.
Qed.

(** X18: [WR_NDR] with the address [a] of a pointer cell above a value: the
    value goes to the cell the pointer designates, then the pointer in the
    cell [a] moves on by one; both operands are popped; 6 ticks. *)
Theorem write_indirect_cell (i : Instr) (c : ControlUnit) (a ptr : Z)
    (v : value) (rest : list value) (p : Z) :
  opcode i = WR_NDR ->
  dp_wf (data_path c) ->
  pc c = SInt p ->
  operands (data_path c) = VInt a :: v :: rest ->
  head (data_path c) + 1 < dp_memory_size (data_path c) ->
  a <> 0 -> a <> 1 -> 0 <= a <= memory_size (mem c) ->
  ptr <> 0 -> ptr <> 1 -> 0 <= ptr <= memory_size (mem c) ->
  ptr < len (data (mem c)) ->
  getitem (data (mem c)) a = Some (VInt ptr) ->
  exists c',
    execute i c = Ok tt c' /\
    operands (data_path c') = rest /\
    data (mem c')
    = <[Z.to_nat a:=VInt (ptr + 1)]> (<[Z.to_nat ptr:=v]> (data (mem c))) /\
    input_buffer (mem c') = input_buffer (mem c) /\
    output_buffer (mem c') = output_buffer (mem c) /\
    same_geometry (mem c) (mem c') /\
    dp_wf (data_path c') /\
    pc c' = SInt (p + 1) /\
    _tick c' = _tick c + 6.
Proof.
  intros Hop Hwf Hpc Hops Hroom Ha0 Ha1 Har Hp0 Hp1 Hpr Hpl Hga.
  assert (Hal : a < len (data (mem c))).
  { by apply getitem_lt in Hga. }
  start_exec Hop Hwf Hops.
  unfold micro_write_indirect. rewrite Hop.
  destruct c as [d [da ms dt ps pl ib ob] pc0 t]; simpl_st; subst pc0.
  wp_oe 0%nat (VInt a). wp_latch a. wp_step; wp_step.
  wp_step. eapply (wp_mm_read_cell _ (VInt ptr)); simpl_st; try done.
  wp_push. wp_step; wp_step.
  wp_oe 0%nat (VInt ptr). wp_latch ptr. wp_step; wp_step.
  wp_oe 2%nat v.
  wp_step. eapply wp_mm_write_cell; simpl_st; try done; unfold len in *;
    rewrite ?length_insert; try lia.
  wp_step; wp_step.
  wp_oe 1%nat (VInt a). wp_latch a. wp_step; wp_step.
  wp_step. apply (wp_dp_oe_next 0 WR_NDR ptr);
    [elem_of_list | assumption | lia
    | simpl_cu; match goal with H : operands _ = _ |- _ => rewrite H end; reflexivity |].
  wp_step. eapply wp_mm_write_cell; simpl_st; try done; unfold len in *;
    rewrite ?length_insert; try lia.
  wp_pop 3%nat. wp_pc p. wp_step. simpl_st.
  split_all; try assumption; try lia; try congruence; done.
Qed.

End DirectAccess.

(** ** Fetching and jumping *)

Lemma get_instruction_mem p m v m' : get_instruction p m = Ok v m' -> m' = m.
Proof.
  unfold get_instruction, mbind, M_bind, gets, assert, index_ok.
  destruct p; simpl; [|done].
  repeat (case_bool_decide; simpl; [|done]).
  destruct (getitem _ _); simpl; [|done]. by intros [= _ <-].
Qed.

Lemma set_mem_id c : set_mem (mem c) c = c.
Proof. by destruct c. Qed.

Lemma fetch_instruction c i :
  fetch c = Some i -> get_instruction (pc c) (mem c) = Ok (VInstr i) (mem c).
Proof.
  unfold fetch. destruct (get_instruction _ _) as [v m'| |] eqn:E; [|done..].
  apply get_instruction_mem in E as ->. destruct v; [done|done|]. by intros [= ->].
Qed.

Lemma wp_mm_fetch i (Q : value -> ControlUnit -> Prop) c p :
  pc c = p -> fetch c = Some i -> Q (VInstr i) c ->
  wp (mm (get_instruction p)) Q c.
Proof.
  intros <- Hf HQ. apply wp_mm. unfold wp.
  rewrite (fetch_instruction _ _ Hf). by rewrite set_mem_id.
Qed.

Section Fetch.
Variable is_number : scalar -> bool.
Variable int_of_str : string -> option Z.

#[local] Abbreviation execute := (execute_micro_operation is_number int_of_str).
#[local] Abbreviation step := (decode_and_execute is_number int_of_str).

Lemma step_fetch c i : fetch c = Some i -> step c = execute i c.
Proof.
  intros Hf. unfold decode_and_execute.
  unfold mbind at 1, M_bind at 1, gets.
  unfold mbind at 1, M_bind at 1, mm, on.
  rewrite (fetch_instruction _ _ Hf). by rewrite set_mem_id.
Qed.

(** X19: [JNT] pops the flag; on the true flag [-1] the next instruction
    follows, on any other value the program counter takes the argument of the
    instruction; 1 tick. *)
Theorem jnt_step (i : Instr) (c : ControlUnit) (x : value) (rest : list value)
    (p : Z) (target : scalar) :
  fetch c = Some i ->
  opcode i = JNT ->
  dp_wf (data_path c) ->
  pc c = SInt p ->
  operands (data_path c) = x :: rest ->
  eq_int x (-1) = true \/ arg i = Some target ->
  exists c',
    step c = Ok tt c' /\
    pc c' = (if eq_int x (-1) then SInt (p + 1) else target) /\
    operands (data_path c') = rest /\
    dp_wf (data_path c') /\
    alu (data_path c') = alu (data_path c) /\
    mem c' = mem c /\
    _tick c' = _tick c + 1.
Proof.
  intros Hf Hop Hwf Hpc Hops Harg. rewrite (step_fetch _ _ Hf).
  start_exec Hop Hwf Hops.
  unfold micro_jump_if_not_true, is_true.
  wp_step. apply wp_dp. wp_step. apply (wp_get_tos 0 x); [done | lia | by rewrite Hops |].
  wp_step. apply wp_latch_head; [elem_of_list | lia |].
  apply wp_ret. cbv beta.
  assert (Hwf' : dp_wf (set_head (head (data_path c) + -1) (data_path c))).
  { apply set_head_wf; [done | lia]. }
  assert (Hops' : operands (set_head (head (data_path c) + -1) (data_path c)) = rest).
  { replace (head (data_path c) + -1) with (head (data_path c) - 1) by lia.
    rewrite operands_set_head by (done || lia). by rewrite Hops. }
  destruct c as [d m pc0 t]; simpl_cu; subst pc0.
  destruct (eq_int x (-1)) eqn:Hx.
  - cbn [truth]. rewrite bool_decide_eq_false_2 by done. cbn [negb].
    wp_pc p. wp_step. simpl_cu. by split_all.
  - cbn [truth]. rewrite bool_decide_eq_true_2 by done. cbn [negb].
    destruct Harg as [?|Harg]; [done|].
    wp_step. unfold latch_pc.
    wp_step. wp_step. cbn [pc]. wp_step. wp_step.
    apply (wp_mm_fetch i); [done | exact Hf |].
    unfold as_instr. wp_step.
    wp_step. apply wp_assert; [rewrite Hop; elem_of_list|].
    wp_step. apply wp_assert; [rewrite Harg; by apply bool_decide_eq_true_2|].
    unfold get_arg. rewrite Harg. wp_step. wp_step. wp_step. wp_step.
    simpl_cu. by split_all.
Qed.

(** X20: [JMP] sets the program counter to its argument in one tick and
    touches nothing else. *)
Theorem jmp_step (i : Instr) (c : ControlUnit) (target : scalar) :
  fetch c = Some i ->
  opcode i = JMP ->
  arg i = Some target ->
  step c = Ok tt (set_tick (_tick c + 1) (set_pc target c)).
Proof.
  intros Hf Hop Harg. rewrite (step_fetch _ _ Hf).
  unfold execute_micro_operation. rewrite Hop. cbn [handlers].
  unfold micro_jump, get_arg. by rewrite Harg.
Qed.

(** X21: a jump whose argument is a string succeeds, and the fetch that
    follows raises [TypeError]. *)
Theorem jump_to_string (i : Instr) (c : ControlUnit) (s : string) :
  fetch c = Some i ->
  opcode i = JMP ->
  arg i = Some (SStr s) ->
  exists c', step c = Ok tt c' /\ step c' = Raise TypeError.
Proof.
  intros Hf Hop Harg. eexists. split.
  - rewrite (step_fetch _ _ Hf).
    unfold execute_micro_operation. rewrite Hop. cbn [handlers].
    unfold micro_jump, get_arg. by rewrite Harg.
  - reflexivity.
Qed.

(** X22: a program counter at or past the end of the program fails the
    assertion of [get_instruction]. *)
Theorem fetch_past_end (c : ControlUnit) (p : Z) :
  pc c = SInt p ->
  program_len (mem c) <= p ->
  step c = Raise AssertionError.
Proof.
  intros Hpc Hp. unfold decode_and_execute.
  unfold mbind at 1, M_bind at 1, gets. rewrite Hpc.
  apply bind_raise, mm_raise.
  unfold get_instruction, mbind, M_bind, gets, assert; simpl.
  by rewrite bool_decide_eq_false_2 by lia.
Qed.

(** X23: [PUSH] and [JMP] read the argument of the instruction: without one
    they raise [KeyError]. *)
Theorem missing_argument (i : Instr) (c : ControlUnit) :
  opcode i ∈ [PUSH; JMP] ->
  arg i = None ->
  execute i c = Raise KeyError.
Proof.
  intros Hop Harg. unfold execute_micro_operation.
  apply (bool_decide_pack _) in Hop.
  destruct (opcode i); try done; cbn [handlers];
    unfold micro_push, micro_jump, get_arg; by rewrite Harg.
Qed.

(** X24: [PUSH] of a number pushes its integer value, [PUSH] of a
    one-character string that is not a number pushes the code point of the
    character; 1 tick. *)
Theorem push_operands (i : Instr) (c : ControlUnit) (a : scalar) (z : Z) (p : Z) :
  opcode i = PUSH ->
  arg i = Some a ->
  dp_wf (data_path c) ->
  pc c = SInt p ->
  head (data_path c) + 1 < dp_memory_size (data_path c) ->
  (is_number a = true /\ a = SInt z) \/
  (is_number a = true /\ exists s, a = SStr s /\ int_of_str s = Some z) \/
  (is_number a = false /\
   exists s, a = SStr s /\ utf8_head s = Some (z, EmptyString)) ->
  exists c',
    execute i c = Ok tt c' /\
    operands (data_path c') = VInt z :: operands (data_path c) /\
    dp_wf (data_path c') /\
    alu (data_path c') = alu (data_path c) /\
    mem c' = mem c /\
    pc c' = SInt (p + 1) /\
    _tick c' = _tick c + 1.
Proof.
  intros Hop Harg Hwf Hpc Hroom Hval.
  pose proof Hwf as [Hl Hh].
  unfold execute_micro_operation; rewrite Hop; cbn [handlers].
  wp_goal. unfold micro_push, get_arg. rewrite Harg.
  destruct c as [d m pc0 t]; simpl_cu; subst pc0.
  wp_step. wp_step. wp_step.
  assert (Hz : wp (if is_number a then int_arg int_of_str a else ord_arg a)
                  (fun v c' => v = z /\ c' = mkControlUnit d m (SInt p) t)
                  (mkControlUnit d m (SInt p) t)).
  { destruct Hval as [[-> ->] | [[-> (s & -> & Hs)] | [-> (s & -> & Hs)]]];
      unfold wp; simpl; rewrite ?Hs; done. }
  eapply wp_mono; [exact Hz|]. intros v c' [-> ->].
  wp_push. wp_pc p. wp_step. simpl_cu.
  split_all; try assumption; try lia; congruence.
Qed.

End Fetch.

(** ** How a run of [simulation] ends *)

Section Outcomes.
Variable is_number : scalar -> bool.
Variable int_of_str : string -> option Z.

#[local] Abbreviation run := (run is_number int_of_str).
#[local] Abbreviation step := (decode_and_execute is_number int_of_str).
#[local] Abbreviation steps := (steps is_number int_of_str).

Lemma run_prefix n c c' k limit :
  steps n c c' -> k + Z.of_nat n <= limit ->
  run limit k c = run limit (k + Z.of_nat n) c'.
Proof.
  intros Hsteps. revert k.
  induction Hsteps as [c | n c c' c'' Hstep _ IH]; intros k Hle.
  - by rewrite Z.add_0_r.
  - rewrite (run_ok _ _ _ _ _ c') by (done || lia).
    rewrite IH by lia. f_equal. lia.
Qed.

Lemma simulation_stops code msize limit input D m d (n : nat) c c' :
  Memory_init msize code input D = inl m ->
  DataPath_init 256 = inl d ->
  steps n (ControlUnit_init d m) c ->
  step c = Stop c' ->
  Z.of_nat n < limit ->
  simulation is_number int_of_str code msize limit input D
  = Returned (output_buffer (mem c')) (Z.of_nat n) (_tick c').
Proof.
  intros Hm Hd Hsteps Hstop Hlt. unfold simulation. rewrite Hm, Hd.
  rewrite (run_prefix n _ c) by (done || lia).
  by rewrite (run_stop _ _ _ _ _ c') by (done || lia).
Qed.

(** X25: a program that reaches [HALT] after [n] instructions, below the
    ceiling, makes [simulation] return the output, the count [n] and the ticks
    as they are before [HALT]: the halting instruction is not counted and
    takes no tick. *)
Theorem simulation_halts code msize limit input D m d (n : nat) c i :
  Memory_init msize code input D = inl m ->
  DataPath_init 256 = inl d ->
  steps n (ControlUnit_init d m) c ->
  fetch c = Some i ->
  opcode i = HALT ->
  Z.of_nat n < limit ->
  simulation is_number int_of_str code msize limit input D
  = Returned (output_buffer (mem c)) (Z.of_nat n) (_tick c).
Proof.
  intros Hm Hd Hsteps Hf Hop Hlt.
  apply (simulation_stops _ _ _ _ _ m d n c c); try done.
  rewrite (step_fetch _ _ _ _ Hf).
  unfold execute_micro_operation. by rewrite Hop.
Qed.

(** X26: an instruction that raises, after [n] instructions that ran to their
    end and below the ceiling, makes [simulation] raise the same exception:
    nothing is returned. *)
Theorem simulation_raises code msize limit input D m d (n : nat) c e :
  Memory_init msize code input D = inl m ->
  DataPath_init 256 = inl d ->
  steps n (ControlUnit_init d m) c ->
  step c = Raise e ->
  Z.of_nat n < limit ->
  simulation is_number int_of_str code msize limit input D = Raised e.
Proof.
  intros Hm Hd Hsteps Hraise Hlt. unfold simulation. rewrite Hm, Hd.
  rewrite (run_prefix n _ c) by (done || lia).
  by rewrite (run_raise _ _ _ _ _ e) by (done || lia).
Qed.

End Outcomes.

(** ** What the instructions leave of the memory *)

Section MemoryInvariant.
Variable K : Memory -> Prop.
Hypothesis K_address : forall m a, K m -> K (set_data_address a m).
Hypothesis K_data : forall m d,
  K m -> length d = length (data m) -> K (set_data d m).
Hypothesis K_input : forall m s rest,
  K m -> input_buffer m = s :: rest -> K (set_input_buffer rest m).
Hypothesis K_output : forall m tok,
  K m -> K (set_output_buffer (output_buffer m ++ [tok]) m).

Lemma preserves_latch_data_address v : preserves K (latch_data_address v).
Proof.
  unfold latch_data_address.
  pres ltac:(apply preserves_modify; intros; by apply K_address).
Qed.

Lemma preserves_get_instruction p : preserves K (get_instruction p).
Proof. unfold get_instruction. pres fail. Qed.

Lemma preserves_read : preserves K read.
Proof.
  intros m Hm. unfold read, mbind, M_bind, gets, assert, modify, index_ok.
  destruct (negb (eq_int (data_address m) 1)); simpl; [|done].
  destruct (negb (eq_int (data_address m) 0)); simpl.
  { destruct (data_address m); simpl; try done. by destruct (getitem _ _). }
  destruct (input_buffer m) as [|s rest] eqn:Hin; simpl; [done|].
  destruct (ord_first s) as [v|]; simpl; [|done].
  destruct (setitem (data m) 0 (VInt v)) as [d'|] eqn:E; simpl; [|done].
  apply K_data; [by eapply K_input|]. by apply setitem_length in E.
Qed.

Lemma preserves_write v : preserves K (write v).
Proof.
  intros m Hm. unfold write, mbind, M_bind, gets, assert, modify, index_ok.
  destruct (negb (eq_int (data_address m) 0)); simpl; [|done].
  destruct (negb (eq_int (data_address m) 1)); simpl.
  - destruct (data_address m) as [a| |]; simpl; try done.
    destruct (setitem (data m) a v) as [d'|] eqn:E; simpl; [|done].
    apply K_data; [done|]. by apply setitem_length in E.
  - destruct (setitem (data m) 1 v) as [d'|] eqn:E; simpl; [|done].
    assert (HK : K (set_data d' m)).
    { apply K_data; [done|]. by apply setitem_length in E. }
    destruct v as [z|f|j]; unfold between, compare_int, mbind, M_bind; simpl;
      [| |done].
    + destruct (match z ?= 0 with Eq | Gt => _ | Lt => _ end); simpl;
        apply (K_output (set_data d' m) _ HK).
    + destruct (match float_compare f 0 with Some _ => _ | None => _ end); simpl;
        [done | apply (K_output (set_data d' m) _ HK)].
Qed.

#[local] Abbreviation on_mem := (fun c : ControlUnit => K (mem c)).

Lemma preserves_mem_mm {A} (m : M Memory A) :
  preserves K m -> preserves on_mem (mm m).
Proof. apply (preserves_on on_mem K); auto. Qed.

Lemma preserves_mem_dp {A} (m : M DataPath A) : preserves on_mem (dp m).
Proof.
  intros c Hc. unfold dp, on. destruct (m (data_path c)); auto.
Qed.

Lemma preserves_mem_tick : preserves on_mem tick.
Proof. intros c Hc. exact Hc. Qed.

Lemma preserves_mem_get_arg i : preserves on_mem (get_arg i).
Proof. unfold get_arg. pres fail. Qed.

Lemma preserves_mem_as_instr v : preserves on_mem (as_instr v).
Proof. unfold as_instr. pres fail. Qed.

Lemma preserves_mem_set_pc p : preserves on_mem (modify (set_pc p)).
Proof. intros c Hc. exact Hc. Qed.

Lemma preserves_mem_latch_pc b : preserves on_mem (latch_pc b).
Proof.
  unfold latch_pc.
  pres ltac:(first [ apply preserves_mem_set_pc
                   | apply preserves_mem_mm, preserves_get_instruction
                   | apply preserves_mem_as_instr | apply preserves_mem_get_arg ]).
Qed.

Ltac pres_mem :=
  pres ltac:(first
    [ apply preserves_mem_tick | apply preserves_mem_latch_pc
    | apply preserves_mem_dp | apply preserves_mem_set_pc
    | apply preserves_mem_get_arg | apply preserves_mem_as_instr
    | apply preserves_mem_mm;
      first [ apply preserves_latch_data_address | apply preserves_read
            | apply preserves_write | apply preserves_get_instruction ] ]).

Lemma preserves_mem_execute is_number int_of_str (i : Instr) :
  preserves on_mem (execute_micro_operation is_number int_of_str i).
Proof.
  unfold execute_micro_operation.
  destruct (opcode i); cbn [handlers].
  all: unfold micro_read_direct, micro_read_indirect, micro_write_direct,
         micro_write_indirect, micro_jump_if_not_true, micro_halt,
         micro_no_operation, micro_alu_operation, micro_rotate,
         micro_duplicate, micro_over, micro_swap, micro_push, micro_drop,
         micro_jump, int_arg, ord_arg.
  all: pres_mem.
Qed.

Lemma preserves_mem_decode_and_execute is_number int_of_str :
  preserves on_mem (decode_and_execute is_number int_of_str).
Proof.
  unfold decode_and_execute.
  pres ltac:(first [ apply preserves_mem_mm, preserves_get_instruction
                   | apply preserves_mem_as_instr
                   | apply preserves_mem_execute ]).
Qed.

End MemoryInvariant.

Lemma memory_frame_refl m : memory_frame m m.
Proof. by split_all. Qed.

Lemma preserves_memory_frame is_number int_of_str m0 :
  preserves (fun c => memory_frame m0 (mem c))
            (decode_and_execute is_number int_of_str).
Proof.
  apply (preserves_mem_decode_and_execute (memory_frame m0));
    unfold memory_frame, same_geometry, set_data_address, set_data,
      set_input_buffer, set_output_buffer;
    cbn [memory_size program_start program_len data input_buffer output_buffer].
  - intros m a ((Hs & Hp & Hn) & Hl & Ho & Hi). by split_all.
  - intros m d ((Hs & Hp & Hn) & Hl & Ho & Hi) Hlen. split_all; try done. congruence.
  - intros m s rest ((Hs & Hp & Hn) & Hl & Ho & Hi) Hin. split_all; try done.
    etrans; [|exact Hi]. rewrite Hin. by apply suffix_cons_r.
  - intros m tok ((Hs & Hp & Hn) & Hl & Ho & Hi). split_all; try done.
    etrans; [exact Ho|]. by apply prefix_app_r.
Qed.

(** X27: one instruction, whether it returns or ends in [StopIteration],
    leaves the size of the memory, the bounds of the program and the number of
    cells as they are; it only appends to the output and only consumes the
    input from its front. *)
Theorem memory_frame_step is_number int_of_str (c c' : ControlUnit) :
  decode_and_execute is_number int_of_str c = Ok tt c' \/
  decode_and_execute is_number int_of_str c = Stop c' ->
  memory_frame (mem c) (mem c').
Proof.
  intros Hstep.
  pose proof (preserves_memory_frame is_number int_of_str (mem c) c
                (memory_frame_refl _)) as H.
  by destruct Hstep as [Hs|Hs]; rewrite Hs in H.
Qed.

(** X28: in every state of a run the memory has the size, the program bounds
    and the number of cells that [Memory.__init__] gave it, and what is left
    of the input is a suffix of the input given. *)
Theorem reachable_memory_layout is_number int_of_str code msize input D c :
  reachable is_number int_of_str code msize input D c ->
  len D + len code <= msize ->
  memory_size (mem c) = msize /\
  program_start (mem c) = msize - len code /\
  program_len (mem c) = len code /\
  len (data (mem c)) = msize /\
  suffix (input_buffer (mem c)) input.
Proof.
  intros Hreach Hfit.
  assert (exists m, Memory_init msize code input D = inl m /\
                    memory_frame m (mem c)) as (m & Hm & Hframe).
  { induction Hreach as [m' d Hm' Hd | c c' _ (m & Hm & IH) Hstep
                        | c c' _ (m & Hm & IH) Hstep].
    - exists m'. split; [done | apply memory_frame_refl].
    - exists m. split; [done|].
      pose proof (preserves_memory_frame is_number int_of_str m c IH) as H.
      by rewrite Hstep in H.
    - exists m. split; [done|].
      pose proof (preserves_memory_frame is_number int_of_str m c IH) as H.
      by rewrite Hstep in H. }
  pose proof (Memory_init_length _ _ _ _ _ Hm Hfit) as Hlen.
  apply Memory_init_inv in Hm as [_ Hm].
  destruct Hframe as ((Hs & Hp & Hn) & Hl & _ & Hi).
  rewrite Hm in Hs, Hp, Hn, Hi; cbn in Hs, Hp, Hn, Hi.
  unfold len in *. rewrite Hl. by split_all.
Qed.

(** ** The last address *)

Lemma read_outside m a :
  data_address m = VInt a -> a <> 0 -> a <> 1 ->
  a = len (data m) ->
  read m = Raise IndexError.
Proof.
  intros Hda H0 H1 Ha. unfold read, mbind, M_bind, gets, assert; simpl.
  rewrite Hda; simpl.
  rewrite (bool_decide_eq_false_2 (_ = 1)) by done; simpl.
  rewrite (bool_decide_eq_false_2 (_ = 0)) by done; simpl.
  unfold getitem, py_index. unfold len in Ha.
  rewrite bool_decide_eq_false_2 by lia.
  by rewrite bool_decide_eq_false_2 by lia.
Qed.

Lemma write_outside m a v :
  data_address m = VInt a -> a <> 0 -> a <> 1 ->
  a = len (data m) ->
  write v m = Raise IndexError.
Proof.
  intros Hda H0 H1 Ha. unfold write, mbind, M_bind, gets, assert; simpl.
  rewrite Hda; simpl.
  rewrite (bool_decide_eq_false_2 (_ = 0)) by done; simpl.
  rewrite (bool_decide_eq_false_2 (_ = 1)) by done; simpl.
  unfold setitem, py_index. unfold len in Ha.
  rewrite bool_decide_eq_false_2 by lia.
  by rewrite bool_decide_eq_false_2 by lia.
Qed.

(** X29: [latch_data_address] admits the address [memory_size], one past the
    last cell: a direct access there passes the assertion and raises
    [IndexError]. *)
Theorem direct_access_last_address is_number int_of_str (i : Instr)
    (c : ControlUnit) (v : value) (rest : list value) :
  opcode i ∈ [READ_DIR; WR_DIR] ->
  dp_wf (data_path c) ->
  operands (data_path c) = VInt (memory_size (mem c)) :: v :: rest ->
  len (data (mem c)) = memory_size (mem c) ->
  1 < memory_size (mem c) ->
  execute_micro_operation is_number int_of_str i c = Raise IndexError.
Proof.
  intros Hop Hwf Hops Hcells Hsz.
  pose proof (operands_length _ Hwf) as Hlen. rewrite Hops in Hlen.
  unfold len in Hlen; cbn [length] in Hlen.
  pose proof Hwf as [Hl Hh].
  unfold execute_micro_operation.
  apply (bool_decide_pack _) in Hop.
  destruct (opcode i); try done; cbn [handlers];
    unfold micro_read_direct, micro_write_direct;
    destruct c as [d [da ms dt ps pl ib ob] pc0 t]; simpl_st.
  - apply bind_outcome.
    apply (wp_dp_tos 0 (VInt ms)); [assumption | lia | simpl_cu; by rewrite Hops |].
    apply bind_outcome. apply (wp_mm_latch ms); simpl_st; [lia|].
    apply bind_outcome. apply wp_tick. simpl_st.
    apply bind_outcome.
    apply (wp_dp_oe 1 v); [assumption | lia | simpl_cu; by rewrite Hops |].
    apply bind_raise, mm_raise, (write_outside _ ms); simpl_st; unfold len in *;
      first [reflexivity | lia].
  - apply bind_outcome.
    apply (wp_dp_oe 0 (VInt ms)); [assumption | lia | simpl_cu; by rewrite Hops |].
    apply bind_outcome. apply (wp_mm_latch ms); simpl_st; [lia|].
    apply bind_outcome. apply (wp_dp_pop 1%nat); [assumption | lia | simpl_cu; lia |].
    intro_dp_next.
    apply bind_outcome. apply wp_tick. simpl_st.
    apply bind_raise, mm_raise, (read_outside _ ms); simpl_st; unfold len in *;
      first [reflexivity | lia].
Qed.

(** ** Closed instances of the further properties *)

#[local] Abbreviation exec_step :=
  (decode_and_execute is_number_literal int_of_decimal).

(** A closed comparison of integers. *)
Ltac sample_le := vm_compute; repeat split; first [discriminate | reflexivity].

(** [DUP] on the stack 9 7. *)
Lemma dup_operands_witness :
  dp_wf (data_path (sample_unit [VInt 7; VInt 9] 0 [op DUP] [])) /\
  exists c',
    exec (op DUP) (sample_unit [VInt 7; VInt 9] 0 [op DUP] []) = Ok tt c' /\
    operands (data_path c') = [VInt 7; VInt 7; VInt 9] /\
    _tick c' = 0 + 1.
Proof.
  assert (Hwf : dp_wf (data_path (sample_unit [VInt 7; VInt 9] 0 [op DUP] [])))
    by sample_wf.
  split; [exact Hwf|].
  destruct (dup_operands is_number_literal int_of_decimal (op DUP) _
              (VInt 7) [VInt 9] 0 eq_refl Hwf eq_refl eq_refl ltac:(sample_le))
    as (c' & Hexec & Hops & _ & _ & _ & _ & Htick).
  exists c'. split_all; done.
Defined.

(** [OVER] on the stack 9 7. *)
Lemma over_operands_witness :
  dp_wf (data_path (sample_unit [VInt 7; VInt 9] 0 [op OVER] [])) /\
  exists c',
    exec (op OVER) (sample_unit [VInt 7; VInt 9] 0 [op OVER] []) = Ok tt c' /\
    operands (data_path c') = [VInt 9; VInt 7; VInt 9] /\
    _tick c' = 0 + 1.
Proof.
  assert (Hwf : dp_wf (data_path (sample_unit [VInt 7; VInt 9] 0 [op OVER] [])))
    by sample_wf.
  split; [exact Hwf|].
  destruct (over_operands is_number_literal int_of_decimal (op OVER) _
              (VInt 7) (VInt 9) [] 0 eq_refl Hwf eq_refl eq_refl ltac:(sample_le))
    as (c' & Hexec & Hops & _ & _ & _ & _ & Htick).
  exists c'. split_all; done.
Defined.

(** [SWAP] on the stack 1 9 7. *)
Lemma swap_operands_witness :
  dp_wf (data_path (sample_unit [VInt 7; VInt 9; VInt 1] 0 [op SWAP] [])) /\
  exists c',
    exec (op SWAP) (sample_unit [VInt 7; VInt 9; VInt 1] 0 [op SWAP] []) = Ok tt c' /\
    operands (data_path c') = [VInt 9; VInt 7; VInt 1] /\
    _tick c' = 0 + 1.
Proof.
  assert (Hwf : dp_wf (data_path (sample_unit [VInt 7; VInt 9; VInt 1] 0 [op SWAP] [])))
    by sample_wf.
  split; [exact Hwf|].
  destruct (swap_operands is_number_literal int_of_decimal (op SWAP) _
              (VInt 7) (VInt 9) [VInt 1] 0 eq_refl Hwf eq_refl eq_refl)
    as (c' & Hexec & Hops & _ & _ & _ & _ & Htick).
  exists c'. split_all; done.
Defined.

(** [DROP] on the stack 9 7. *)
Lemma drop_operands_witness :
  dp_wf (data_path (sample_unit [VInt 7; VInt 9] 0 [op DROP] [])) /\
  exists c',
    exec (op DROP) (sample_unit [VInt 7; VInt 9] 0 [op DROP] []) = Ok tt c' /\
    operands (data_path c') = [VInt 9] /\
    _tick c' = 0 + 1.
Proof.
  assert (Hwf : dp_wf (data_path (sample_unit [VInt 7; VInt 9] 0 [op DROP] [])))
    by sample_wf.
  split; [exact Hwf|].
  destruct (drop_operands is_number_literal int_of_decimal (op DROP) _
              (VInt 7) [VInt 9] 0 eq_refl Hwf eq_refl eq_refl)
    as (c' & Hexec & Hops & _ & _ & _ & _ & Htick).
  exists c'. split_all; done.
Defined.

(** A data path of capacity 256 that holds 255 operands. *)
Lemma stack_full_witness :
  dp_wf (sample_data_path (replicate 255 (VInt 1)) 0) /\
  head (sample_data_path (replicate 255 (VInt 1)) 0) + 1 = 256 /\
  exec (op DUP)
    (mkControlUnit (sample_data_path (replicate 255 (VInt 1)) 0)
       (sample_memory [op DUP] []) (SInt 0) 0)
  = Raise AssertionError.
Proof.
  assert (Hwf : dp_wf (sample_data_path (replicate 255 (VInt 1)) 0))
    by (split; [reflexivity | vm_compute; split; [discriminate | reflexivity]]).
  split_all; [exact Hwf | reflexivity |].
  apply (stack_full is_number_literal int_of_decimal (op DUP) _
           (VInt 1) (VInt 1) (replicate 253 (VInt 1))).
  - elem_of_list.
  - exact Hwf.
  - vm_compute. reflexivity.
  - reflexivity.
Defined.

(** [PLUS] with 2 on top of 3. *)
Lemma binary_operands_witness :
  binary_result PLUS 2 3 = Some 5 /\
  dp_wf (data_path (sample_unit [VInt 2; VInt 3] 0 [op PLUS] [])) /\
  exists c',
    exec (op PLUS) (sample_unit [VInt 2; VInt 3] 0 [op PLUS] []) = Ok tt c' /\
    operands (data_path c') = [VInt 5] /\
    _tick c' = 0 + 2.
Proof.
  assert (Hwf : dp_wf (data_path (sample_unit [VInt 2; VInt 3] 0 [op PLUS] [])))
    by sample_wf.
  split_all; [reflexivity | exact Hwf |].
  destruct (binary_operands is_number_literal int_of_decimal (op PLUS) _
              2 3 5 [] 0 eq_refl Hwf eq_refl eq_refl)
    as (c' & Hexec & Hops & _ & _ & _ & _ & Htick).
  exists c'. split_all; done.
Defined.

(** [MOD] with 0 on top of 7. *)
Lemma mod_by_zero_witness :
  dp_wf (data_path (sample_unit [VInt 0; VInt 7] 0 [op MOD] [])) /\
  exec (op MOD) (sample_unit [VInt 0; VInt 7] 0 [op MOD] [])
  = Raise ZeroDivisionError.
Proof.
  assert (Hwf : dp_wf (data_path (sample_unit [VInt 0; VInt 7] 0 [op MOD] [])))
    by sample_wf.
  split; [exact Hwf|].
  exact (mod_by_zero is_number_literal int_of_decimal (op MOD) _ 7 []
           eq_refl Hwf eq_refl).
Defined.

(** [NEG] on the stack 9 5. *)
Lemma neg_operands_witness :
  dp_wf (data_path (sample_unit [VInt 5; VInt 9] 0 [op NEG] [])) /\
  exists c',
    exec (op NEG) (sample_unit [VInt 5; VInt 9] 0 [op NEG] []) = Ok tt c' /\
    operands (data_path c') = [VInt (-5); VInt 9] /\
    _tick c' = 0 + 2.
Proof.
  assert (Hwf : dp_wf (data_path (sample_unit [VInt 5; VInt 9] 0 [op NEG] [])))
    by sample_wf.
  split; [exact Hwf|].
  destruct (neg_operands is_number_literal int_of_decimal (op NEG) _
              5 [VInt 9] 0 eq_refl Hwf eq_refl eq_refl)
    as (c' & Hexec & Hops & _ & _ & _ & _ & Htick).
  exists c'. split_all; done.
Defined.

(** [WR_DIR] of 42 to the cell 5. *)
Lemma write_direct_cell_witness :
  dp_wf (data_path (sample_unit [VInt 5; VInt 42] 0 [op WR_DIR] [])) /\
  exists c',
    exec (op WR_DIR) (sample_unit [VInt 5; VInt 42] 0 [op WR_DIR] []) = Ok tt c' /\
    operands (data_path c') = [] /\
    data (mem c') !! 5%nat = Some (VInt 42) /\
    _tick c' = 0 + 2.
Proof.
  assert (Hwf : dp_wf (data_path (sample_unit [VInt 5; VInt 42] 0 [op WR_DIR] [])))
    by sample_wf.
  split; [exact Hwf|].
  destruct (write_direct_cell is_number_literal int_of_decimal (op WR_DIR) _
              5 (VInt 42) [] 0 eq_refl Hwf eq_refl eq_refl
              ltac:(lia) ltac:(lia) ltac:(sample_le) ltac:(vm_compute; reflexivity))
    as (c' & Hexec & Hops & Hdata & _ & _ & _ & _ & _ & Htick).
  exists c'.
  split_all; first [assumption | rewrite Hdata; vm_compute; reflexivity].
Defined.

(** [READ_DIR] of the cell 5, which holds 42. *)
Lemma read_direct_cell_witness :
  dp_wf (data_path (sample_unit [VInt 5] 0 [op READ_DIR] [0; 0; 0; 0; 0; 42])) /\
  exists c',
    exec (op READ_DIR) (sample_unit [VInt 5] 0 [op READ_DIR] [0; 0; 0; 0; 0; 42])
    = Ok tt c' /\
    operands (data_path c') = [VInt 42] /\
    _tick c' = 0 + 2.
Proof.
  assert (Hwf : dp_wf (data_path
                  (sample_unit [VInt 5] 0 [op READ_DIR] [0; 0; 0; 0; 0; 42])))
    by sample_wf.
  split; [exact Hwf|].
  destruct (read_direct_cell is_number_literal int_of_decimal (op READ_DIR) _
              5 (VInt 42) [] 0 eq_refl Hwf eq_refl eq_refl
              ltac:(lia) ltac:(lia) ltac:(sample_le) eq_refl)
    as (c' & Hexec & Hops & _ & _ & _ & _ & _ & _ & Htick).
  exists c'. split_all; done.
Defined.

(** 42 stored in the cell 5, then read back on an empty stack. *)
Lemma write_then_read_witness :
  exists c1 c3,
    exec (op WR_DIR) (sample_unit [VInt 5; VInt 42] 0 [op WR_DIR; op READ_DIR] [])
    = Ok tt c1 /\
    exec (op READ_DIR)
      (mkControlUnit (sample_data_path [VInt 5] 0) (mem c1) (SInt 1) 2)
    = Ok tt c3 /\
    operands (data_path c3) = [VInt 42].
Proof.
  pose (c := sample_unit [VInt 5; VInt 42] 0 [op WR_DIR; op READ_DIR] []).
  assert (Hwf : dp_wf (data_path c)) by sample_wf.
  assert (Hwf2 : dp_wf (sample_data_path [VInt 5] 0)) by sample_wf.
  destruct (exec (op WR_DIR) c) as [[] c1|c1|e] eqn:E.
  - destruct (write_then_read is_number_literal int_of_decimal
                (op WR_DIR) (op READ_DIR) c c1
                (mkControlUnit (sample_data_path [VInt 5] 0) (mem c1) (SInt 1) 2)
                5 (VInt 42) [] [] 0 1 eq_refl eq_refl Hwf eq_refl eq_refl
                ltac:(lia) ltac:(lia) ltac:(sample_le) ltac:(vm_compute; reflexivity)
                E eq_refl Hwf2 eq_refl eq_refl)
      as (c3 & Hexec & Hops & _).
    exists c1, c3. split_all; done.
  - exfalso. vm_compute in E. discriminate E.
  - exfalso. vm_compute in E. discriminate E.
Defined.

(** [WR_DIR] of 72 and of 300 to the output port. *)
Lemma write_direct_output_witness :
  dp_wf (data_path (sample_unit [VInt 1; VInt 72] 0 [op WR_DIR] [])) /\
  output_token 72 = "H" /\
  output_token 300 = "300" /\
  exists c',
    exec (op WR_DIR) (sample_unit [VInt 1; VInt 72] 0 [op WR_DIR] []) = Ok tt c' /\
    operands (data_path c') = [] /\
    output_buffer (mem c') = ["H"] /\
    _tick c' = 0 + 2.
Proof.
  assert (Hwf : dp_wf (data_path (sample_unit [VInt 1; VInt 72] 0 [op WR_DIR] [])))
    by sample_wf.
  split_all; [exact Hwf | reflexivity | reflexivity |].
  destruct (write_direct_output is_number_literal int_of_decimal (op WR_DIR) _
              72 [] 0 eq_refl Hwf eq_refl eq_refl
              ltac:(sample_le) ltac:(vm_compute; reflexivity))
    as (c' & Hexec & Hops & Hout & _ & _ & _ & _ & _ & Htick).
  exists c'. split_all; done.
Defined.

(** [READ_DIR] of the input port with the Cyrillic letter ya (U+044F, two
    bytes in UTF-8) and the letter x waiting. *)
Lemma read_direct_input_witness :
  utf8_head "я" = Some (1103, EmptyString) /\
  exists c',
    exec (op READ_DIR)
      (set_mem (set_input_buffer ["я"; "x"] (sample_memory [op READ_DIR] []))
         (sample_unit [VInt 0] 0 [op READ_DIR] []))
    = Ok tt c' /\
    operands (data_path c') = [VInt 1103] /\
    input_buffer (mem c') = ["x"] /\
    _tick c' = 0 + 2.
Proof.
  pose (c := set_mem (set_input_buffer ["я"; "x"] (sample_memory [op READ_DIR] []))
               (sample_unit [VInt 0] 0 [op READ_DIR] [])).
  assert (Hwf : dp_wf (data_path c)) by sample_wf.
  assert (Hcp : utf8_head "я" = Some (1103, EmptyString)) by reflexivity.
  split; [exact Hcp|].
  destruct (read_direct_input is_number_literal int_of_decimal (op READ_DIR) c
              "я" 1103 EmptyString ["x"] [] 0 eq_refl Hwf eq_refl eq_refl eq_refl
              Hcp ltac:(sample_le) ltac:(vm_compute; reflexivity))
    as (c' & Hexec & Hops & Hin & _ & _ & _ & _ & _ & Htick).
  exists c'. split_all; done.
Defined.

(** [READ_DIR] of the input port with no token left. *)
Lemma read_direct_input_empty_witness :
  input_buffer (mem (sample_unit [VInt 0; VInt 9] 0 [op READ_DIR] [])) = [] /\
  exists c',
    exec (op READ_DIR) (sample_unit [VInt 0; VInt 9] 0 [op READ_DIR] []) = Stop c' /\
    operands (data_path c') = [VInt 9] /\
    _tick c' = 0 + 1.
Proof.
  assert (Hwf : dp_wf (data_path (sample_unit [VInt 0; VInt 9] 0 [op READ_DIR] [])))
    by sample_wf.
  split; [reflexivity|].
  destruct (read_direct_input_empty is_number_literal int_of_decimal (op READ_DIR) _
              [VInt 9] eq_refl Hwf eq_refl eq_refl ltac:(sample_le))
    as (c' & Hexec & Hops & _ & _ & _ & Htick).
  exists c'. split_all; done.
Defined.

(** [READ_DIR] of the output port. *)
Lemma read_direct_refused_witness :
  dp_wf (data_path (sample_unit [VInt 1] 0 [op READ_DIR] [])) /\
  exec (op READ_DIR) (sample_unit [VInt 1] 0 [op READ_DIR] [])
  = Raise AssertionError.
Proof.
  assert (Hwf : dp_wf (data_path (sample_unit [VInt 1] 0 [op READ_DIR] [])))
    by sample_wf.
  split; [exact Hwf|].
  exact (read_direct_refused is_number_literal int_of_decimal (op READ_DIR) _ 1 []
           eq_refl Hwf eq_refl (or_introl eq_refl)).
Defined.

(** [WR_DIR] to the input port. *)
Lemma write_direct_refused_witness :
  dp_wf (data_path (sample_unit [VInt 0; VInt 7] 0 [op WR_DIR] [])) /\
  exec (op WR_DIR) (sample_unit [VInt 0; VInt 7] 0 [op WR_DIR] [])
  = Raise AssertionError.
Proof.
  assert (Hwf : dp_wf (data_path (sample_unit [VInt 0; VInt 7] 0 [op WR_DIR] [])))
    by sample_wf.
  split; [exact Hwf|].
  exact (write_direct_refused is_number_literal int_of_decimal (op WR_DIR) _ 0
           (VInt 7) [] eq_refl Hwf eq_refl (or_introl eq_refl)).
Defined.

(** [READ_NDR] with the address 5 on the stack, cell 5 pointing to cell 6. *)
Lemma read_indirect_cell_witness :
  dp_wf (data_path (sample_unit [VInt 5] 0 [op READ_NDR] [0; 0; 0; 0; 0; 6; 42])) /\
  exists c',
    exec (op READ_NDR) (sample_unit [VInt 5] 0 [op READ_NDR] [0; 0; 0; 0; 0; 6; 42])
    = Ok tt c' /\
    operands (data_path c') = [VInt 42] /\
    data (mem c') !! 5%nat = Some (VInt 7) /\
    _tick c' = 0 + 7.
Proof.
  assert (Hwf : dp_wf (data_path
                  (sample_unit [VInt 5] 0 [op READ_NDR] [0; 0; 0; 0; 0; 6; 42])))
    by sample_wf.
  split; [exact Hwf|].
  destruct (read_indirect_cell is_number_literal int_of_decimal (op READ_NDR) _
              5 6 (VInt 42) [] 0 eq_refl Hwf eq_refl eq_refl ltac:(sample_le)
              ltac:(lia) ltac:(lia) ltac:(sample_le)
              ltac:(lia) ltac:(lia) ltac:(sample_le) eq_refl eq_refl)
    as (c' & Hexec & Hops & Hdata & _ & _ & _ & _ & _ & Htick).
  exists c'.
  split_all; first [assumption | rewrite Hdata; vm_compute; reflexivity].
Defined.

(** [WR_NDR] of 42 through the cell 5, which points to cell 6. *)
Lemma write_indirect_cell_witness :
  dp_wf (data_path
           (sample_unit [VInt 5; VInt 42] 0 [op WR_NDR] [0; 0; 0; 0; 0; 6; 0])) /\
  exists c',
    exec (op WR_NDR) (sample_unit [VInt 5; VInt 42] 0 [op WR_NDR] [0; 0; 0; 0; 0; 6; 0])
    = Ok tt c' /\
    operands (data_path c') = [] /\
    data (mem c') !! 6%nat = Some (VInt 42) /\
    data (mem c') !! 5%nat = Some (VInt 7) /\
    _tick c' = 0 + 6.
Proof.
  assert (Hwf : dp_wf (data_path
            (sample_unit [VInt 5; VInt 42] 0 [op WR_NDR] [0; 0; 0; 0; 0; 6; 0])))
    by sample_wf.
  split; [exact Hwf|].
  destruct (write_indirect_cell is_number_literal int_of_decimal (op WR_NDR) _
              5 6 (VInt 42) [] 0 eq_refl Hwf eq_refl eq_refl ltac:(sample_le)
              ltac:(lia) ltac:(lia) ltac:(sample_le)
              ltac:(lia) ltac:(lia) ltac:(sample_le)
              ltac:(vm_compute; reflexivity) eq_refl)
    as (c' & Hexec & Hops & Hdata & _ & _ & _ & _ & _ & Htick).
  exists c'.
  split_all; first [assumption | rewrite Hdata; vm_compute; reflexivity].
Defined.

(** [JNT 7] on the flags 0 and -1. *)
Lemma jnt_step_witness :
  (exists c',
     exec_step (sample_unit [VInt 0] 0 [mkInstr JNT (Some (SInt 7)) None] [])
     = Ok tt c' /\
     pc c' = SInt 7 /\ operands (data_path c') = [] /\ _tick c' = 0 + 1) /\
  (exists c',
     exec_step (sample_unit [VInt (-1)] 0 [mkInstr JNT (Some (SInt 7)) None] [])
     = Ok tt c' /\
     pc c' = SInt 1 /\ operands (data_path c') = [] /\ _tick c' = 0 + 1) /\
  (exists c',
     exec_step (sample_unit [VFloat (S754_finite true 4503599627370496 (-52))] 0
                  [mkInstr JNT (Some (SInt 7)) None] [])
     = Ok tt c' /\
     pc c' = SInt 1 /\ operands (data_path c') = [] /\ _tick c' = 0 + 1).
Proof.
  pose (i := mkInstr JNT (Some (SInt 7)) None).
  split_all.
  - assert (Hwf : dp_wf (data_path (sample_unit [VInt 0] 0 [i] []))) by sample_wf.
    destruct (jnt_step is_number_literal int_of_decimal i
                (sample_unit [VInt 0] 0 [i] []) (VInt 0) [] 0 (SInt 7)
                eq_refl eq_refl Hwf eq_refl eq_refl (or_intror eq_refl))
      as (c' & Hexec & Hpc & Hops & _ & _ & _ & Htick).
    exists c'. split_all; done.
  - assert (Hwf : dp_wf (data_path (sample_unit [VInt (-1)] 0 [i] []))) by sample_wf.
    destruct (jnt_step is_number_literal int_of_decimal i
                (sample_unit [VInt (-1)] 0 [i] []) (VInt (-1)) [] 0 (SInt 7)
                eq_refl eq_refl Hwf eq_refl eq_refl (or_introl eq_refl))
      as (c' & Hexec & Hpc & Hops & _ & _ & _ & Htick).
    exists c'. split_all; done.
  - pose (x := VFloat (S754_finite true 4503599627370496 (-52))).
    assert (Hwf : dp_wf (data_path (sample_unit [x] 0 [i] []))) by sample_wf.
    destruct (jnt_step is_number_literal int_of_decimal i
                (sample_unit [x] 0 [i] []) x [] 0 (SInt 7)
                eq_refl eq_refl Hwf eq_refl eq_refl (or_introl eq_refl))
      as (c' & Hexec & Hpc & Hops & _ & _ & _ & Htick).
    exists c'. split_all; done.
Defined.

(** The self-jump. *)
Lemma jmp_step_witness :
  fetch (sample_unit [] 0 [op NOP; self_jump] []) = Some (op NOP) /\
  fetch (mkControlUnit (sample_data_path [] 0)
           (sample_memory [op NOP; self_jump] []) (SInt 1) 1) = Some self_jump /\
  exec_step (mkControlUnit (sample_data_path [] 0)
               (sample_memory [op NOP; self_jump] []) (SInt 1) 1)
  = Ok tt (mkControlUnit (sample_data_path [] 0)
             (sample_memory [op NOP; self_jump] []) (SInt 0) 2).
Proof.
  split_all; [reflexivity | reflexivity |].
  exact (jmp_step is_number_literal int_of_decimal self_jump
           (mkControlUnit (sample_data_path [] 0)
              (sample_memory [op NOP; self_jump] []) (SInt 1) 1)
           (SInt 0) eq_refl eq_refl eq_refl).
Defined.

(** A jump to a label that was left as a string. *)
Lemma jump_to_string_witness :
  exists c',
    exec_step (sample_unit [] 0 [mkInstr JMP (Some (SStr "loop")) None] [])
    = Ok tt c' /\
    exec_step c' = Raise TypeError.
Proof.
  exact (jump_to_string is_number_literal int_of_decimal
           (mkInstr JMP (Some (SStr "loop")) None)
           (sample_unit [] 0 [mkInstr JMP (Some (SStr "loop")) None] [])
           "loop" eq_refl eq_refl eq_refl).
Defined.

(** The program counter after the only instruction of a program. *)
Lemma fetch_past_end_witness :
  program_len (sample_memory [op NOP] []) <= 1 /\
  exec_step (mkControlUnit (sample_data_path [] 0)
               (sample_memory [op NOP] []) (SInt 1) 1)
  = Raise AssertionError.
Proof.
  assert (H : program_len (sample_memory [op NOP] []) <= 1) by sample_le.
  split; [exact H|].
  exact (fetch_past_end is_number_literal int_of_decimal
           (mkControlUnit (sample_data_path [] 0)
              (sample_memory [op NOP] []) (SInt 1) 1) 1 eq_refl H).
Defined.

(** [PUSH] without an argument. *)
Lemma missing_argument_witness :
  exec (op PUSH) (sample_unit [] 0 [op PUSH] []) = Raise KeyError.
Proof.
  apply (missing_argument is_number_literal int_of_decimal (op PUSH)).
  - elem_of_list.
  - reflexivity.
Defined.

(** [PUSH] of the number 72, of the numeral 72 and of the letter A. *)
Lemma push_operands_witness :
  (exists c',
     exec (mkInstr PUSH (Some (SInt 72)) None) (sample_unit [VInt 1] 0 [] [])
     = Ok tt c' /\ operands (data_path c') = [VInt 72; VInt 1]) /\
  (exists c',
     exec (mkInstr PUSH (Some (SStr "72")) None) (sample_unit [VInt 1] 0 [] [])
     = Ok tt c' /\ operands (data_path c') = [VInt 72; VInt 1]) /\
  (exists c',
     exec (mkInstr PUSH (Some (SStr "A")) None) (sample_unit [VInt 1] 0 [] [])
     = Ok tt c' /\ operands (data_path c') = [VInt 65; VInt 1]) /\
  (exists c',
     exec (mkInstr PUSH (Some (SStr "я")) None) (sample_unit [VInt 1] 0 [] [])
     = Ok tt c' /\ operands (data_path c') = [VInt 1103; VInt 1]).
Proof.
  assert (Hwf : dp_wf (data_path (sample_unit [VInt 1] 0 [] []))) by sample_wf.
  split_all.
  - destruct (push_operands is_number_literal int_of_decimal
                (mkInstr PUSH (Some (SInt 72)) None) _ (SInt 72) 72 0
                eq_refl eq_refl Hwf eq_refl ltac:(sample_le)
                (or_introl (conj eq_refl eq_refl)))
      as (c' & Hexec & Hops & _).
    exists c'. split_all; done.
  - destruct (push_operands is_number_literal int_of_decimal
                (mkInstr PUSH (Some (SStr "72")) None) _ (SStr "72") 72 0
                eq_refl eq_refl Hwf eq_refl ltac:(sample_le)
                (or_intror (or_introl (conj eq_refl
                   (ex_intro _ "72" (conj eq_refl eq_refl))))))
      as (c' & Hexec & Hops & _).
    exists c'. split_all; done.
  - destruct (push_operands is_number_literal int_of_decimal
                (mkInstr PUSH (Some (SStr "A")) None) _ (SStr "A") 65 0
                eq_refl eq_refl Hwf eq_refl ltac:(sample_le)
                (or_intror (or_intror (conj eq_refl
                   (ex_intro _ "A" (conj eq_refl eq_refl))))))
      as (c' & Hexec & Hops & _).
    exists c'. split_all; done.
  - destruct (push_operands is_number_literal int_of_decimal
                (mkInstr PUSH (Some (SStr "я")) None) _ (SStr "я") 1103 0
                eq_refl eq_refl Hwf eq_refl ltac:(sample_le)
                (or_intror (or_intror (conj eq_refl
                   (ex_intro _ "я" (conj eq_refl eq_refl))))))
      as (c' & Hexec & Hops & _).
    exists c'. split_all; done.
Defined.

(** [PUSH 72; PUSH 1; WR_DIR; HALT] prints H and halts after 3 instructions
    and 4 ticks. *)
Lemma simulation_halts_witness :
  simulate [mkInstr PUSH (Some (SInt 72)) None; mkInstr PUSH (Some (SInt 1)) None;
            op WR_DIR; op HALT] 600 100 [] []
  = Returned ["H"] 3 4 /\
  simulate (half_code [op DROP; op HALT]) 600 100 [] [] = Returned [] 4 5.
Proof.
  split.
  - pose (code := [mkInstr PUSH (Some (SInt 72)) None;
                   mkInstr PUSH (Some (SInt 1)) None; op WR_DIR; op HALT]).
    assert (Hsteps : exists c,
              steps is_number_literal int_of_decimal 3
                (ControlUnit_init (sample_data_path [] 0) (sample_memory code [])) c /\
              fetch c = Some (op HALT) /\
              output_buffer (mem c) = ["H"] /\ _tick c = 4).
    { eexists. split_all.
      - eapply steps_S; [vm_compute; reflexivity|].
        eapply steps_S; [vm_compute; reflexivity|].
        eapply steps_S; [vm_compute; reflexivity|].
        apply steps_O.
      - reflexivity.
      - reflexivity.
      - reflexivity. }
    destruct Hsteps as (c & Hsteps & Hf & Hout & Htick).
    rewrite <- Hout, <- Htick.
    exact (simulation_halts is_number_literal int_of_decimal code 600 100 [] []
             (sample_memory code []) (sample_data_path [] 0) 3 c (op HALT)
             eq_refl eq_refl Hsteps Hf eq_refl ltac:(lia)).
  - pose (code := half_code [op DROP; op HALT]).
    assert (Hsteps : exists c,
              steps is_number_literal int_of_decimal 4
                (ControlUnit_init (sample_data_path [] 0) (sample_memory code [])) c /\
              fetch c = Some (op HALT) /\
              output_buffer (mem c) = [] /\ _tick c = 5).
    { eexists. split_all.
      - eapply steps_S; [vm_compute; reflexivity|].
        eapply steps_S; [vm_compute; reflexivity|].
        eapply steps_S; [vm_compute; reflexivity|].
        eapply steps_S; [vm_compute; reflexivity|].
        apply steps_O.
      - reflexivity.
      - reflexivity.
      - reflexivity. }
    destruct Hsteps as (c & Hsteps & Hf & Hout & Htick).
    rewrite <- Hout, <- Htick.
    exact (simulation_halts is_number_literal int_of_decimal code 600 100 [] []
             (sample_memory code []) (sample_data_path [] 0) 4 c (op HALT)
             eq_refl eq_refl Hsteps Hf eq_refl ltac:(lia)).
Defined.

(** [PUSH 1; DROP; DROP] fails the assertion of [latch_head] in its third
    instruction; zero to the power minus one divides by zero. *)
Lemma simulation_raises_witness :
  simulate [mkInstr PUSH (Some (SInt 1)) None; op DROP; op DROP] 600 100 [] []
  = Raised AssertionError /\
  simulate [mkInstr PUSH (Some (SInt (-1))) None; mkInstr PUSH (Some (SInt 0)) None;
            op POW; op HALT] 600 100 [] []
  = Raised ZeroDivisionError.
Proof.
  split.
  - pose (code := [mkInstr PUSH (Some (SInt 1)) None; op DROP; op DROP]).
    assert (Hsteps : exists c,
              steps is_number_literal int_of_decimal 2
                (ControlUnit_init (sample_data_path [] 0) (sample_memory code [])) c /\
              exec_step c = Raise AssertionError).
    { eexists. split.
      - eapply steps_S; [vm_compute; reflexivity|].
        eapply steps_S; [vm_compute; reflexivity|].
        apply steps_O.
      - reflexivity. }
    destruct Hsteps as (c & Hsteps & Hraise).
    exact (simulation_raises is_number_literal int_of_decimal code 600 100 [] []
             (sample_memory code []) (sample_data_path [] 0) 2 c AssertionError
             eq_refl eq_refl Hsteps Hraise ltac:(lia)).
  - pose (code := [mkInstr PUSH (Some (SInt (-1))) None;
                   mkInstr PUSH (Some (SInt 0)) None; op POW; op HALT]).
    assert (Hsteps : exists c,
              steps is_number_literal int_of_decimal 2
                (ControlUnit_init (sample_data_path [] 0) (sample_memory code [])) c /\
              exec_step c = Raise ZeroDivisionError).
    { eexists. split.
      - eapply steps_S; [vm_compute; reflexivity|].
        eapply steps_S; [vm_compute; reflexivity|].
        apply steps_O.
      - reflexivity. }
    destruct Hsteps as (c & Hsteps & Hraise).
    exact (simulation_raises is_number_literal int_of_decimal code 600 100 [] []
             (sample_memory code []) (sample_data_path [] 0) 2 c ZeroDivisionError
             eq_refl eq_refl Hsteps Hraise ltac:(lia)).
Defined.

(** The instruction that prints H, and a power with a negative exponent. *)
Lemma memory_frame_step_witness :
  (exists c',
     exec_step (sample_unit [VInt 1; VInt 72] 0 [op WR_DIR] []) = Ok tt c' /\
     memory_frame (mem (sample_unit [VInt 1; VInt 72] 0 [op WR_DIR] [])) (mem c')) /\
  (exists c',
     exec_step (sample_unit [VInt 2; VInt (-1)] 0 [op POW] []) = Ok tt c' /\
     operands (data_path c') = [VFloat one_half] /\
     memory_frame (mem (sample_unit [VInt 2; VInt (-1)] 0 [op POW] [])) (mem c')).
Proof.
  split.
  - destruct (exec_step (sample_unit [VInt 1; VInt 72] 0 [op WR_DIR] []))
      as [[] c'|c'|e] eqn:E.
    + exists c'. split; [reflexivity|].
      exact (memory_frame_step is_number_literal int_of_decimal _ _ (or_introl E)).
    + exfalso. vm_compute in E. discriminate E.
    + exfalso. vm_compute in E. discriminate E.
  - destruct (exec_step (sample_unit [VInt 2; VInt (-1)] 0 [op POW] []))
      as [[] c'|c'|e] eqn:E.
    + exists c'. split_all; [reflexivity | |].
      * vm_compute in E. injection E as <-. reflexivity.
      * exact (memory_frame_step is_number_literal int_of_decimal _ _ (or_introl E)).
    + exfalso. vm_compute in E. discriminate E.
    + exfalso. vm_compute in E. discriminate E.
Defined.

(** The state after the first instruction of [PUSH 1; HALT], and the state
    after a power with a negative exponent. *)
Lemma reachable_memory_layout_witness :
  (exists c,
     reachable is_number_literal int_of_decimal
       [mkInstr PUSH (Some (SInt 1)) None; op HALT] 600 ["a"] [7] c /\
     _tick c = 1 /\
     memory_size (mem c) = 600 /\
     program_start (mem c) = 598 /\
     program_len (mem c) = 2 /\
     len (data (mem c)) = 600) /\
  (exists c,
     reachable is_number_literal int_of_decimal
       (half_code [op DROP; op HALT]) 600 [] [] c /\
     operands (data_path c) = [VFloat one_half] /\
     memory_size (mem c) = 600 /\
     program_start (mem c) = 595 /\
     program_len (mem c) = 5 /\
     len (data (mem c)) = 600).
Proof.
  split.
  - pose (code := [mkInstr PUSH (Some (SInt 1)) None; op HALT]).
    destruct (Memory_init 600 code ["a"] [7]) as [m|e] eqn:Hm;
      [|exfalso; vm_compute in Hm; discriminate Hm].
    pose (c0 := ControlUnit_init (sample_data_path [] 0) m).
    assert (Hr0 : reachable is_number_literal int_of_decimal code 600 ["a"] [7] c0)
      by (by apply reachable_init).
    destruct (exec_step c0) as [[] c|c|e] eqn:E.
    + assert (Ht : _tick c = 1).
      { vm_compute in Hm. injection Hm as <-. vm_compute in E. injection E as <-.
        reflexivity. }
      pose proof (reachable_ok _ _ _ _ _ _ _ _ Hr0 E) as Hr.
      destruct (reachable_memory_layout is_number_literal int_of_decimal _ _ _ _ _ Hr
                  ltac:(unfold len; simpl; lia))
        as (Hs & Hp & Hn & Hl & _).
      exists c. split_all; done.
    + exfalso. vm_compute in Hm. injection Hm as <-. vm_compute in E. discriminate E.
    + exfalso. vm_compute in Hm. injection Hm as <-. vm_compute in E. discriminate E.
  - pose (code := half_code [op DROP; op HALT]).
    pose (c0 := ControlUnit_init (sample_data_path [] 0) (sample_memory code [])).
    assert (Hr0 : reachable is_number_literal int_of_decimal code 600 [] [] c0)
      by (by apply reachable_init).
    assert (Hsteps : exists c,
              steps is_number_literal int_of_decimal 3 c0 c /\
              operands (data_path c) = [VFloat one_half]).
    { eexists. split.
      - eapply steps_S; [vm_compute; reflexivity|].
        eapply steps_S; [vm_compute; reflexivity|].
        eapply steps_S; [vm_compute; reflexivity|].
        apply steps_O.
      - reflexivity. }
    destruct Hsteps as (c & Hsteps & Hops).
    pose proof (reachable_steps _ _ _ _ _ _ _ _ _ Hr0 Hsteps) as Hr.
    destruct (reachable_memory_layout is_number_literal int_of_decimal _ _ _ _ _ Hr
                ltac:(unfold len; simpl; lia))
      as (Hs & Hp & Hn & Hl & _).
    exists c. split_all; done.
Defined.

(** A direct access at the address 600 of a memory of 600 cells. *)
Lemma direct_access_last_address_witness :
  dp_wf (data_path (sample_unit [VInt 600; VInt 7] 0 [op WR_DIR] [])) /\
  len (data (mem (sample_unit [VInt 600; VInt 7] 0 [op WR_DIR] []))) = 600 /\
  exec (op WR_DIR) (sample_unit [VInt 600; VInt 7] 0 [op WR_DIR] [])
  = Raise IndexError /\
  exec (op READ_DIR) (sample_unit [VInt 600; VInt 7] 0 [op WR_DIR] [])
  = Raise IndexError.
Proof.
  assert (Hwf : dp_wf (data_path (sample_unit [VInt 600; VInt 7] 0 [op WR_DIR] [])))
    by sample_wf.
  assert (Hlen : len (data (mem (sample_unit [VInt 600; VInt 7] 0 [op WR_DIR] [])))
                 = 600) by (vm_compute; reflexivity).
  split_all; [exact Hwf | exact Hlen | |].
  - apply (direct_access_last_address is_number_literal int_of_decimal (op WR_DIR) _
             (VInt 7) []); [elem_of_list | exact Hwf | reflexivity | exact Hlen |
                            sample_le].
  - apply (direct_access_last_address is_number_literal int_of_decimal (op READ_DIR) _
             (VInt 7) []); [elem_of_list | exact Hwf | reflexivity | exact Hlen |
                            sample_le].
Defined.

(** ** The round trip of the program container *)

(** *** Strings *)

#[local] Arguments String.append !_ _ / : simpl nomatch.

Lemma append_assoc (a b c : string) : (a +:+ b) +:+ c = a +:+ (b +:+ c).
Proof. induction a as [|x a IH]; simpl; [done | by rewrite IH]. Qed.

Lemma append_nil_r (a : string) : a +:+ EmptyString = a.
Proof. induction a as [|x a IH]; simpl; [done | by rewrite IH]. Qed.

Lemma length_append (a b : string) :
  String.length (a +:+ b) = (String.length a + String.length b)%nat.
Proof. induction a as [|x a IH]; simpl; [done | by rewrite IH]. Qed.

Lemma rev_app_rev_app (s a b : string) :
  String.rev_app (String.rev_app s a) b = String.rev_app a (s +:+ b).
Proof.
  revert a b. induction s as [|c s IH]; intros a b; simpl; [done|].
  by rewrite IH.
Qed.

Lemma rev_rev_app (s : string) : String.rev (String.rev_app s EmptyString) = s.
Proof. unfold String.rev. rewrite rev_app_rev_app. simpl. apply append_nil_r. Qed.

Lemma all_chars_app p a b : all_chars p (a +:+ b) = all_chars p a && all_chars p b.
Proof.
  induction a as [|x a IH]; simpl; [done|]. rewrite IH. by rewrite andb_assoc.
Qed.

Lemma all_chars_mono (p q : ascii -> bool) s :
  (forall c, p c = true -> q c = true) -> all_chars p s = true -> all_chars q s = true.
Proof.
  intros Hpq. induction s as [|x s IH]; simpl; [done|].
  intros [Hx Hs]%andb_true_iff. rewrite (Hpq _ Hx). simpl. auto.
Qed.

(** *** Integers *)

Lemma digit_of_pretty_N_char d :
  (d < 10)%N -> digit_of (pretty_N_char d) = Some (Z.of_N d).
Proof.
  intros Hd.
  assert (d = 0 \/ d = 1 \/ d = 2 \/ d = 3 \/ d = 4 \/ d = 5 \/ d = 6 \/ d = 7
          \/ d = 8 \/ d = 9)%N as H by lia.
  repeat (destruct H as [->|H]; [reflexivity|]). by subst.
Qed.

Lemma data_char_pretty_N_char d : data_char (pretty_N_char d) = true.
Proof. unfold pretty_N_char. by repeat case_match. Qed.

Lemma pretty_N_go_app x s r : pretty_N_go x s +:+ r = pretty_N_go x (s +:+ r).
Proof.
  revert s. induction (N.lt_wf_0 x) as [x _ IH]; intros s.
  assert (x = 0 \/ 0 < x)%N as [->|Hx] by lia.
  - by rewrite !pretty_N_go_0.
  - rewrite (pretty_N_go_step x s), (pretty_N_go_step x (s +:+ r)) by done.
    rewrite IH by (by apply N.div_lt). reflexivity.
Qed.

Lemma scan_digits_pretty_N_go x :
  exists g : Z -> Z,
    g 0 = Z.of_N x /\
    forall s acc, scan_digits (pretty_N_go x s) acc = scan_digits s (g acc).
Proof.
  induction (N.lt_wf_0 x) as [x _ IH].
  assert (x = 0 \/ 0 < x)%N as [->|Hx] by lia.
  - exists (fun a => a). split; [done|]. intros s acc. by rewrite pretty_N_go_0.
  - destruct (IH (x `div` 10)%N) as (g & Hg0 & Hg); [by apply N.div_lt|].
    exists (fun a => 10 * g a + Z.of_N (x `mod` 10)). split.
    + rewrite Hg0. rewrite (N.div_mod x 10) at 3 by done. lia.
    + intros s acc. rewrite pretty_N_go_step, Hg by done. simpl.
      rewrite digit_of_pretty_N_char; [done|]. by apply N.mod_lt.
Qed.

Lemma pretty_N_go_head x s :
  (0 < x)%N ->
  exists d r, (0 < d < 10)%N /\ pretty_N_go x s = String (pretty_N_char d) r.
Proof.
  revert s. induction (N.lt_wf_0 x) as [x _ IH]; intros s Hx.
  rewrite pretty_N_go_step by done.
  assert (x < 10 \/ 10 <= x)%N as [Hlt|Hge] by lia.
  - rewrite N.div_small, pretty_N_go_0 by done.
    rewrite N.mod_small by done. by exists x, s.
  - apply IH; [by apply N.div_lt|]. apply N.div_str_pos. lia.
Qed.

Lemma all_chars_pretty_N_go x s :
  all_chars data_char (pretty_N_go x s) = all_chars data_char s.
Proof.
  revert s. induction (N.lt_wf_0 x) as [x _ IH]; intros s.
  assert (x = 0 \/ 0 < x)%N as [->|Hx] by lia.
  - by rewrite pretty_N_go_0.
  - rewrite pretty_N_go_step, IH by (done || by apply N.div_lt). simpl.
    by rewrite data_char_pretty_N_char.
Qed.

Lemma pretty_Z_pos p : pretty (Z.pos p) = pretty_N_go (N.pos p) EmptyString.
Proof. reflexivity. Qed.

Lemma pretty_Z_neg p : pretty (Z.neg p) = String "-" (pretty_N_go (N.pos p) EmptyString).
Proof. reflexivity. Qed.

Lemma int_char_pretty_N_char d : int_char (pretty_N_char d) = true.
Proof. unfold pretty_N_char. by repeat case_match. Qed.

Lemma pretty_Z_head (z : Z) :
  exists c r, pretty z = String c r /\ int_char c = true.
Proof.
  destruct z as [|p|p].
  - by exists "0"%char, EmptyString.
  - rewrite pretty_Z_pos.
    destruct (pretty_N_go_head (N.pos p) EmptyString) as (d & r & _ & ->); [lia|].
    exists (pretty_N_char d), r. split; [done | apply int_char_pretty_N_char].
  - rewrite pretty_Z_neg. by eexists _, _.
Qed.

Lemma all_chars_pretty_Z (z : Z) : all_chars data_char (pretty z) = true.
Proof.
  destruct z as [|p|p]; [done | |].
  - rewrite pretty_Z_pos. by rewrite all_chars_pretty_N_go.
  - rewrite pretty_Z_neg. simpl. by rewrite all_chars_pretty_N_go.
Qed.

Lemma scan_digits_delimited r acc : delimited r -> scan_digits r acc = (acc, r).
Proof. by intros (r' & [-> | ->]). Qed.

Lemma scan_digits_pretty_pos p r :
  delimited r -> scan_digits (pretty_N_go (N.pos p) r) 0 = (Z.pos p, r).
Proof.
  intros Hr. destruct (scan_digits_pretty_N_go (N.pos p)) as (g & Hg0 & Hg).
  rewrite Hg, Hg0. by apply scan_digits_delimited.
Qed.

Lemma scan_int_digit d r0 :
  (0 < d < 10)%N ->
  scan_int (String (pretty_N_char d) r0)
  = (let '(n, rest) := scan_digits (String (pretty_N_char d) r0) 0 in
     match rest with
     | String "." _ | String "e" _ | String "E" _ => None
     | _ => Some (n, rest)
     end).
Proof.
  intros Hd.
  assert (d = 1 \/ d = 2 \/ d = 3 \/ d = 4 \/ d = 5 \/ d = 6 \/ d = 7
          \/ d = 8 \/ d = 9)%N as H by lia.
  repeat (destruct H as [->|H]; [reflexivity|]). by subst.
Qed.

Lemma scan_int_minus_digit d r0 :
  (0 < d < 10)%N ->
  scan_int (String "-" (String (pretty_N_char d) r0))
  = (let '(n, rest) := scan_digits (String (pretty_N_char d) r0) 0 in
     match rest with
     | String "." _ | String "e" _ | String "E" _ => None
     | _ => Some (- n, rest)
     end).
Proof.
  intros Hd.
  assert (d = 1 \/ d = 2 \/ d = 3 \/ d = 4 \/ d = 5 \/ d = 6 \/ d = 7
          \/ d = 8 \/ d = 9)%N as H by lia.
  repeat (destruct H as [->|H]; [reflexivity|]). by subst.
Qed.

(** An integer literal followed by a comma or a line feed is read back. *)
Lemma scan_int_pretty (z : Z) r :
  delimited r -> scan_int (pretty z +:+ r) = Some (z, r).
Proof.
  intros Hr. destruct z as [|p|p].
  - destruct Hr as (r' & [-> | ->]); reflexivity.
  - rewrite pretty_Z_pos, pretty_N_go_app. simpl.
    pose proof (scan_digits_pretty_pos p r Hr) as Hscan.
    destruct (pretty_N_go_head (N.pos p) r) as (d & r0 & Hd & Hhead); [lia|].
    rewrite Hhead in *. rewrite scan_int_digit, Hscan by done.
    destruct Hr as (r' & [-> | ->]); reflexivity.
  - rewrite pretty_Z_neg. simpl. rewrite pretty_N_go_app. simpl.
    pose proof (scan_digits_pretty_pos p r Hr) as Hscan.
    destruct (pretty_N_go_head (N.pos p) r) as (d & r0 & Hd & Hhead); [lia|].
    rewrite Hhead in *. rewrite scan_int_minus_digit, Hscan by done.
    destruct Hr as (r' & [-> | ->]); reflexivity.
Qed.

Lemma int_char_not_ws c : int_char c = true -> is_ws c = false.
Proof. destruct c as [[] [] [] [] [] [] [] []]; done. Qed.

Lemma skip_ws_head c r : is_ws c = false -> skip_ws (String c r) = String c r.
Proof. simpl. by intros ->. Qed.

Lemma skip_ws_pretty (z : Z) r : skip_ws (pretty z +:+ r) = pretty z +:+ r.
Proof.
  destruct (pretty_Z_head z) as (c & r0 & -> & Hc). simpl.
  by rewrite (int_char_not_ws _ Hc).
Qed.

(** *** [parse_value], one case at a time *)

Lemma parse_value_int_char f c r0 :
  int_char c = true ->
  parse_value (S f) (String c r0)
  = match scan_int (String c r0) with
    | Some (z, rest) => Some (JInt z, rest)
    | None => None
    end.
Proof. destruct c as [[] [] [] [] [] [] [] []]; done. Qed.

Lemma parse_value_int f (z : Z) r :
  delimited r -> parse_value (S f) (pretty z +:+ r) = Some (JInt z, r).
Proof.
  intros Hr. pose proof (scan_int_pretty z r Hr) as Hscan.
  destruct (pretty_Z_head z) as (c & r0 & Hz & Hc). rewrite Hz in *.
  change (String c r0 +:+ r) with (String c (r0 +:+ r)) in *.
  by rewrite parse_value_int_char, Hscan.
Qed.

Lemma parse_value_string f r :
  parse_value (S f) (String DQ r)
  = match scan_string r EmptyString with
    | Some (x, rest) => Some (JStr x, rest)
    | None => None
    end.
Proof. reflexivity. Qed.

Lemma parse_value_array f r :
  parse_value (S f) (String "[" r)
  = match skip_ws r with
    | String "]" r' => Some (JArr [], r')
    | r' => match items_of (parse_value f) f r' [] with
            | Some (l, rest) => Some (JArr l, rest)
            | None => None
            end
    end.
Proof. reflexivity. Qed.

Lemma parse_value_object f r :
  parse_value (S f) (String "{" r)
  = match skip_ws r with
    | String "}" r' => Some (JObj [], r')
    | r' => match members_of (parse_value f) f r' [] with
            | Some (l, rest) => Some (JObj l, rest)
            | None => None
            end
    end.
Proof. reflexivity. Qed.

Lemma parse_value_array_items f c r0 r :
  skip_ws r = String c r0 -> c <> "]"%char ->
  parse_value (S f) (String "[" r)
  = match items_of (parse_value f) f (String c r0) [] with
    | Some (l, rest) => Some (JArr l, rest)
    | None => None
    end.
Proof.
  intros Hr Hc. rewrite parse_value_array, Hr.
  destruct c as [[] [] [] [] [] [] [] []]; done.
Qed.

Lemma parse_value_object_members f c r0 r :
  skip_ws r = String c r0 -> c <> "}"%char ->
  parse_value (S f) (String "{" r)
  = match members_of (parse_value f) f (String c r0) [] with
    | Some (l, rest) => Some (JObj l, rest)
    | None => None
    end.
Proof.
  intros Hr Hc. rewrite parse_value_object, Hr.
  destruct c as [[] [] [] [] [] [] [] []]; done.
Qed.

#[local] Arguments parse_value : simpl never.

Lemma items_of_next pv n s acc v rest r :
  pv s = Some (v, rest) -> skip_ws rest = String "," r ->
  items_of pv (S n) s acc = items_of pv n (skip_ws r) (v :: acc).
Proof. intros Hpv Hrest. simpl. by rewrite Hpv, Hrest. Qed.

Lemma items_of_last pv n s acc v rest r :
  pv s = Some (v, rest) -> skip_ws rest = String "]" r ->
  items_of pv (S n) s acc = Some (reverse (v :: acc), r).
Proof. intros Hpv Hrest. simpl. by rewrite Hpv, Hrest. Qed.

Lemma members_of_next pv n r0 acc k rest r' v rest' r'' :
  scan_string r0 EmptyString = Some (k, rest) ->
  skip_ws rest = String ":" r' ->
  pv (skip_ws r') = Some (v, rest') ->
  skip_ws rest' = String "," r'' ->
  members_of pv (S n) (String DQ r0) acc
  = members_of pv n (skip_ws r'') ((k, v) :: acc).
Proof.
  intros Hk Hrest Hpv Hrest'.
  change (members_of pv (S n) (String DQ r0) acc)
    with (match scan_string r0 EmptyString with
          | None => None
          | Some (k, rest) =>
              match skip_ws rest with
              | String ":" r' =>
                  match pv (skip_ws r') with
                  | None => None
                  | Some (v, rest') =>
                      match skip_ws rest' with
                      | String "," r'' =>
                          members_of pv n (skip_ws r'') ((k, v) :: acc)
                      | String "}" r'' => Some (reverse ((k, v) :: acc), r'')
                      | _ => None
                      end
                  end
              | _ => None
              end
          end).
  by rewrite Hk, Hrest, Hpv, Hrest'.
Qed.

Lemma members_of_last pv n r0 acc k rest r' v rest' r'' :
  scan_string r0 EmptyString = Some (k, rest) ->
  skip_ws rest = String ":" r' ->
  pv (skip_ws r') = Some (v, rest') ->
  skip_ws rest' = String "}" r'' ->
  members_of pv (S n) (String DQ r0) acc = Some (reverse ((k, v) :: acc), r'').
Proof.
  intros Hk Hrest Hpv Hrest'.
  change (members_of pv (S n) (String DQ r0) acc)
    with (match scan_string r0 EmptyString with
          | None => None
          | Some (k, rest) =>
              match skip_ws rest with
              | String ":" r' =>
                  match pv (skip_ws r') with
                  | None => None
                  | Some (v, rest') =>
                      match skip_ws rest' with
                      | String "," r'' =>
                          members_of pv n (skip_ws r'') ((k, v) :: acc)
                      | String "}" r'' => Some (reverse ((k, v) :: acc), r'')
                      | _ => None
                      end
                  end
              | _ => None
              end
          end).
  by rewrite Hk, Hrest, Hpv, Hrest'.
Qed.

(** *** String literals *)

Lemma scan_string_escape_char c r acc :
  scan_string (escape_char c +:+ r) acc = scan_string r (String c acc).
Proof. destruct c as [[] [] [] [] [] [] [] []]; reflexivity. Qed.

Lemma scan_string_escape s r acc :
  scan_string (escape s +:+ String DQ r) acc
  = Some (String.rev (String.rev_app s acc), r).
Proof.
  revert acc. induction s as [|c s IH]; intros acc.
  - reflexivity.
  - cbn [escape]. rewrite append_assoc, scan_string_escape_char. apply IH.
Qed.

Lemma encode_string_app s r :
  encode_string s +:+ r = String DQ (escape s +:+ String DQ r).
Proof.
  unfold encode_string, str1. cbn [String.append]. by rewrite append_assoc.
Qed.

Lemma scan_encode_string s r :
  exists r0, encode_string s +:+ r = String DQ r0 /\
             scan_string r0 EmptyString = Some (s, r).
Proof.
  eexists. split; [apply encode_string_app|].
  rewrite scan_string_escape. by rewrite rev_rev_app.
Qed.

Lemma parse_value_encode f s r :
  parse_value (S f) (encode_string s +:+ r) = Some (JStr s, r).
Proof.
  destruct (scan_encode_string s r) as (r0 & -> & Hscan).
  by rewrite parse_value_string, Hscan.
Qed.

(** *** White space *)

Lemma skip_ws_spaces k r : skip_ws (spaces k +:+ r) = skip_ws r.
Proof. induction k as [|k IH]; [done|]. exact IH. Qed.

Lemma skip_ws_space r : skip_ws (String " " r) = skip_ws r.
Proof. reflexivity. Qed.

Lemma newline_indent_app n r :
  newline_indent n +:+ r = String LF (spaces (4 * n) +:+ r).
Proof. reflexivity. Qed.

Lemma skip_ws_newline_indent n r : skip_ws (newline_indent n +:+ r) = skip_ws r.
Proof. rewrite newline_indent_app. apply (skip_ws_spaces (4 * n)). Qed.

Lemma delimited_newline_indent n r : delimited (newline_indent n +:+ r).
Proof. rewrite newline_indent_app. eexists. by right. Qed.

Lemma delimited_comma r : delimited (String "," r).
Proof. eexists. by left. Qed.

Lemma value_head_skip_ws s r : value_head s -> skip_ws (s +:+ r) = s +:+ r.
Proof. intros (c & r0 & -> & Hc & _). simpl. by rewrite Hc. Qed.

Lemma value_head_encode s : value_head (encode_string s).
Proof. by eexists _, _. Qed.

Lemma value_head_pretty (z : Z) : value_head (pretty z).
Proof.
  destruct (pretty_Z_head z) as (c & r & -> & Hc). exists c, r.
  destruct c as [[] [] [] [] [] [] [] []]; done.
Qed.

(** *** Lists of values *)

Lemma join_cons_app sep x l t :
  join sep (x :: l) +:+ t
  = x +:+ match l with
          | [] => t
          | _ => sep +:+ (join sep l +:+ t)
          end.
Proof. destruct l; [done|]. cbn [join]. by rewrite !append_assoc. Qed.

Lemma items_of_join pv level (l : list json) n acc r :
  (forall v r', v ∈ l -> delimited r' ->
     pv (dumps_at (S level) v +:+ r') = Some (v, r')) ->
  (forall v, v ∈ l -> value_head (dumps_at (S level) v)) ->
  l <> [] -> (length l <= n)%nat ->
  items_of pv n
    (join ("," +:+ newline_indent (S level)) (map (dumps_at (S level)) l)
     +:+ newline_indent level +:+ String "]" r) acc
  = Some (reverse acc ++ l, r).
Proof.
  intros Hpv Hhead. revert n acc.
  induction l as [|v l IH]; intros n acc Hne Hlen; [done|].
  destruct n as [|n]; [simpl in Hlen; lia|].
  destruct l as [|v2 l]; cbn [map]; rewrite join_cons_app; cbv iota.
  - erewrite items_of_last.
    + by rewrite reverse_cons.
    + apply Hpv; [apply list_elem_of_here | apply delimited_newline_indent].
    + by rewrite skip_ws_newline_indent.
  - erewrite items_of_next.
    + rewrite skip_ws_newline_indent.
      change (dumps_at (S level) v2 :: map (dumps_at (S level)) l)
        with (map (dumps_at (S level)) (v2 :: l)).
      replace (skip_ws (join ("," +:+ newline_indent (S level))
                          (map (dumps_at (S level)) (v2 :: l))
                        +:+ newline_indent level +:+ String "]" r))
        with (join ("," +:+ newline_indent (S level))
                (map (dumps_at (S level)) (v2 :: l))
              +:+ newline_indent level +:+ String "]" r).
      2:{ cbn [map]. rewrite join_cons_app. symmetry. apply value_head_skip_ws.
          apply Hhead, list_elem_of_further, list_elem_of_here. }
      rewrite IH.
      * rewrite reverse_cons, <- (assoc_L (++)). done.
      * intros v' r' Hv'. apply Hpv. by apply list_elem_of_further.
      * intros v' Hv'. apply Hhead. by apply list_elem_of_further.
      * done.
      * simpl in *. lia.
    + apply Hpv; [apply list_elem_of_here|]. cbn [String.append].
      apply delimited_comma.
    + cbn [String.append]. reflexivity.
Qed.

Lemma members_of_join pv level (l : list (string * json)) n acc r :
  (forall k v r', (k, v) ∈ l -> delimited r' ->
     pv (dumps_at (S level) v +:+ r') = Some (v, r')) ->
  (forall k v, (k, v) ∈ l -> value_head (dumps_at (S level) v)) ->
  l <> [] -> (length l <= n)%nat ->
  members_of pv n
    (join ("," +:+ newline_indent (S level))
       (map (fun kv => encode_string (fst kv) +:+ ": "
                       +:+ dumps_at (S level) (snd kv)) l)
     +:+ newline_indent level +:+ String "}" r) acc
  = Some (reverse acc ++ l, r).
Proof.
  intros Hpv Hhead. revert n acc.
  induction l as [|[k v] l IH]; intros n acc Hne Hlen; [done|].
  destruct n as [|n]; [simpl in Hlen; lia|].
  destruct l as [|[k2 v2] l]; cbn [map fst snd]; rewrite join_cons_app; cbv iota.
  - rewrite !append_assoc.
    destruct (scan_encode_string k
                (": " +:+ dumps_at (S level) v +:+ newline_indent level
                 +:+ String "}" r)) as (r0 & -> & Hscan).
    erewrite members_of_last
      with (r' := String " " (dumps_at (S level) v +:+ newline_indent level
                              +:+ String "}" r));
      [|exact Hscan|reflexivity| |].
    + by rewrite reverse_cons.
    + rewrite skip_ws_space.
      rewrite value_head_skip_ws by (apply (Hhead k), list_elem_of_here).
      apply (Hpv k); [apply list_elem_of_here | apply delimited_newline_indent].
    + by rewrite skip_ws_newline_indent.
  - rewrite !append_assoc.
    destruct (scan_encode_string k
                (": " +:+ dumps_at (S level) v
                 +:+ ("," +:+ newline_indent (S level))
                 +:+ join ("," +:+ newline_indent (S level))
                       (map (fun kv => encode_string (fst kv) +:+ ": "
                                       +:+ dumps_at (S level) (snd kv))
                          ((k2, v2) :: l))
                 +:+ newline_indent level +:+ String "}" r))
      as (r0 & Heq & Hscan).
    cbn [map fst snd] in Heq. rewrite !append_assoc in Heq. rewrite Heq.
    erewrite members_of_next
      with (r' := String " "
                    (dumps_at (S level) v
                     +:+ ("," +:+ newline_indent (S level))
                     +:+ join ("," +:+ newline_indent (S level))
                           (map (fun kv => encode_string (fst kv) +:+ ": "
                                           +:+ dumps_at (S level) (snd kv))
                              ((k2, v2) :: l))
                     +:+ newline_indent level +:+ String "}" r));
      [|exact Hscan|reflexivity| |].
    + rewrite skip_ws_newline_indent.
      replace (skip_ws
                 (join ("," +:+ newline_indent (S level))
                    (map (fun kv => encode_string (fst kv) +:+ ": "
                                    +:+ dumps_at (S level) (snd kv))
                       ((k2, v2) :: l))
                  +:+ newline_indent level +:+ String "}" r))
        with (join ("," +:+ newline_indent (S level))
                (map (fun kv => encode_string (fst kv) +:+ ": "
                                +:+ dumps_at (S level) (snd kv))
                   ((k2, v2) :: l))
              +:+ newline_indent level +:+ String "}" r).
      2:{ cbn [map fst snd]. rewrite join_cons_app, !append_assoc. symmetry.
          apply value_head_skip_ws, value_head_encode. }
      rewrite IH.
      * rewrite reverse_cons, <- (assoc_L (++)). done.
      * intros k' v' r' Hv'. apply (Hpv k'). by apply list_elem_of_further.
      * intros k' v' Hv'. apply (Hhead k'). by apply list_elem_of_further.
      * done.
      * simpl in *. lia.
    + rewrite skip_ws_space.
      rewrite value_head_skip_ws by (apply (Hhead k), list_elem_of_here).
      apply (Hpv k); [apply list_elem_of_here|]. cbn [String.append].
      apply delimited_comma.
    + reflexivity.
Qed.

Lemma dumps_at_array level l :
  l <> [] ->
  dumps_at level (JArr l)
  = String "[" (newline_indent (S level)
                +:+ join ("," +:+ newline_indent (S level))
                      (map (dumps_at (S level)) l)
                +:+ newline_indent level +:+ "]").
Proof. by destruct l. Qed.

Lemma dumps_at_object level l :
  l <> [] ->
  dumps_at level (JObj l)
  = String "{" (newline_indent (S level)
                +:+ join ("," +:+ newline_indent (S level))
                      (map (fun kv => encode_string (fst kv) +:+ ": "
                                      +:+ dumps_at (S level) (snd kv)) l)
                +:+ newline_indent level +:+ "}").
Proof. by destruct l. Qed.

Lemma value_head_array level l : value_head (dumps_at level (JArr l)).
Proof. destruct l; by eexists _, _. Qed.

Lemma value_head_object level l : value_head (dumps_at level (JObj l)).
Proof. destruct l; by eexists _, _. Qed.

(** An array whose items are read back by [parse_value f] is read back by
    [parse_value (S f)], when [f] is at least the number of items. *)
Lemma parse_value_array_of f level l r :
  (forall v r', v ∈ l -> delimited r' ->
     parse_value f (dumps_at (S level) v +:+ r') = Some (v, r')) ->
  (forall v, v ∈ l -> value_head (dumps_at (S level) v)) ->
  l <> [] -> (length l <= f)%nat ->
  parse_value (S f) (dumps_at level (JArr l) +:+ r) = Some (JArr l, r).
Proof.
  intros Hpv Hhead Hne Hlen. rewrite dumps_at_array by done.
  cbn [String.append]. rewrite !append_assoc.
  destruct l as [|v l]; [done|].
  destruct (Hhead v (list_elem_of_here _ _)) as (c & r0 & Hv & Hc & Hc1 & Hc2).
  pose proof (items_of_join (parse_value f) level (v :: l) f [] r
                Hpv Hhead Hne Hlen) as Hitems.
  erewrite parse_value_array_items; [| |exact Hc1].
  2:{ rewrite skip_ws_newline_indent. cbn [map]. rewrite join_cons_app.
      rewrite value_head_skip_ws by (by exists c, r0).
      rewrite Hv. cbn [String.append]. reflexivity. }
  cbn [map] in Hitems. rewrite join_cons_app, Hv in Hitems.
  cbn [String.append] in Hitems. cbn [String.append].
  by rewrite Hitems.
Qed.

Lemma parse_value_object_of f level l r :
  (forall k v r', (k, v) ∈ l -> delimited r' ->
     parse_value f (dumps_at (S level) v +:+ r') = Some (v, r')) ->
  (forall k v, (k, v) ∈ l -> value_head (dumps_at (S level) v)) ->
  l <> [] -> (length l <= f)%nat ->
  parse_value (S f) (dumps_at level (JObj l) +:+ r) = Some (JObj l, r).
Proof.
  intros Hpv Hhead Hne Hlen. rewrite dumps_at_object by done.
  pose proof (members_of_join (parse_value f) level l f [] r
                Hpv Hhead Hne Hlen) as Hmembers.
  destruct l as [|[k v] l]; [done|]. clear Hpv Hhead.
  cbn [map fst snd] in *.
  rewrite join_cons_app in Hmembers. rewrite !append_assoc in Hmembers.
  rewrite encode_string_app in Hmembers.
  cbn [String.append]. rewrite !append_assoc. rewrite join_cons_app.
  rewrite !append_assoc. rewrite encode_string_app.
  cbn [String.append] in *.
  erewrite parse_value_object_members;
    [|rewrite skip_ws_newline_indent; reflexivity|done].
  by rewrite Hmembers.
Qed.

(** *** The values of the container *)

Lemma value_head_length s : value_head s -> (1 <= String.length s)%nat.
Proof. intros (c & r & -> & _). simpl. lia. Qed.

Lemma value_head_scalar level a : value_head (dumps_at level (scalar_to_json a)).
Proof. destruct a; [apply value_head_pretty | apply value_head_encode]. Qed.

Lemma parse_value_scalar f level a r :
  delimited r ->
  parse_value (S f) (dumps_at level (scalar_to_json a) +:+ r)
  = Some (scalar_to_json a, r).
Proof.
  intros Hr. destruct a; [by apply parse_value_int | apply parse_value_encode].
Qed.

Lemma parse_value_Term f level t r :
  (3 <= f)%nat ->
  parse_value (S f) (dumps_at level (Term_to_json t) +:+ r)
  = Some (Term_to_json t, r).
Proof.
  intros Hf. destruct f as [|f]; [lia|].
  apply parse_value_array_of; [| |done|simpl; lia].
  - intros v r' Hv Hr'. unfold Term_to_json in Hv.
    rewrite !elem_of_cons, elem_of_nil in Hv.
    destruct Hv as [-> | [-> | [-> | []]]]; by apply parse_value_scalar.
  - intros v Hv. unfold Term_to_json in Hv.
    rewrite !elem_of_cons, elem_of_nil in Hv.
    destruct Hv as [-> | [-> | [-> | []]]]; apply value_head_scalar.
Qed.

(** The members of an instruction object are scalars, but for the term. *)
Lemma Instr_members i :
  exists l, Instr_to_json i = JObj l /\ l <> [] /\ (length l <= 3)%nat /\
    forall k v, (k, v) ∈ l ->
      (exists a, v = scalar_to_json a) \/ (exists t, v = Term_to_json t).
Proof.
  eexists. split; [reflexivity|]. split_all.
  - done.
  - destruct (arg i), (term i); simpl; lia.
  - intros k v Hv. rewrite !elem_of_app, elem_of_cons, elem_of_nil in Hv.
    destruct Hv as [[[= _ ->] | []] | [Hv | Hv]].
    + left. by exists (SStr (Opcode_value (opcode i))).
    + destruct (arg i) as [a|]; [|by apply elem_of_nil in Hv].
      apply list_elem_of_singleton in Hv as [= _ ->]. left. by exists a.
    + destruct (term i) as [t|]; [|by apply elem_of_nil in Hv].
      apply list_elem_of_singleton in Hv as [= _ ->]. right. by exists t.
Qed.

Lemma value_head_Instr level i : value_head (dumps_at level (Instr_to_json i)).
Proof. apply value_head_object. Qed.

Lemma parse_value_Instr f level i r :
  (4 <= f)%nat ->
  parse_value (S f) (dumps_at level (Instr_to_json i) +:+ r)
  = Some (Instr_to_json i, r).
Proof.
  intros Hf. destruct (Instr_members i) as (l & -> & Hne & Hlen & Hl).
  destruct f as [|f]; [lia|].
  apply parse_value_object_of; [| |done|lia].
  - intros k v r' Hv Hr'.
    destruct (Hl k v Hv) as [[a ->] | [t ->]];
      [by apply parse_value_scalar | apply parse_value_Term; lia].
  - intros k v Hv.
    destruct (Hl k v Hv) as [[a ->] | [t ->]];
      [apply value_head_scalar | apply value_head_array].
Qed.

(** *** [json.loads] of what [json.dumps] wrote *)

Lemma length_join sep (l : list string) :
  (forall x, x ∈ l -> (1 <= String.length x)%nat) ->
  (length l <= String.length (join sep l))%nat.
Proof.
  induction l as [|x l IH]; intros Hl; [simpl; lia|].
  assert (Hx : (1 <= String.length x)%nat) by apply Hl, list_elem_of_here.
  assert (IH' : (length l <= String.length (join sep l))%nat).
  { apply IH. intros y Hy. by apply Hl, list_elem_of_further. }
  destruct l as [|y l]; [simpl; lia|].
  change (join sep (x :: y :: l)) with (x +:+ sep +:+ join sep (y :: l)).
  rewrite !length_append. simpl in *. lia.
Qed.

Lemma length_dumps_array l :
  l <> [] -> (forall v, v ∈ l -> value_head (dumps_at 1 v)) ->
  (6 <= String.length (dumps (JArr l)))%nat /\
  (length l <= String.length (dumps (JArr l)))%nat.
Proof.
  intros Hne Hhead. unfold dumps. rewrite dumps_at_array by done.
  pose proof (length_join ("," +:+ newline_indent 1) (map (dumps_at 1) l)) as Hlen.
  rewrite length_map in Hlen.
  assert (Hl : (length l <= String.length (join ("," +:+ newline_indent 1)
                                             (map (dumps_at 1) l)))%nat).
  { apply Hlen. intros x (v & -> & Hv)%list_elem_of_fmap.
    by apply value_head_length, Hhead. }
  cbn [String.length]. rewrite !length_append. clear Hlen. simpl in *. lia.
Qed.

Lemma loads_array l :
  l <> [] ->
  (forall v, v ∈ l -> value_head (dumps_at 1 v)) ->
  (forall v r f, v ∈ l -> delimited r -> (4 <= f)%nat ->
     parse_value (S f) (dumps_at 1 v +:+ r) = Some (v, r)) ->
  loads (dumps (JArr l)) = Some (JArr l).
Proof.
  intros Hne Hhead Hpv. unfold loads.
  destruct (length_dumps_array l Hne Hhead) as [H6 Hlen].
  rewrite <- (append_nil_r (dumps (JArr l))) at 2.
  rewrite value_head_skip_ws by apply value_head_array.
  unfold dumps in *. rewrite parse_value_array_of; [done| |done|done|lia].
  intros v r' Hv Hr'.
  destruct (String.length (dumps_at 0 (JArr l))) as [|f]; [lia|].
  apply Hpv; [done | done | lia].
Qed.

Lemma loads_code (code : list Instr) :
  loads (dumps (JArr (Instr_to_json <$> code))) = Some (JArr (Instr_to_json <$> code)).
Proof.
  destruct (decide (code = [])) as [->|Hne]; [reflexivity|].
  apply loads_array.
  - by destruct code.
  - intros v (i & -> & _)%list_elem_of_fmap. apply value_head_Instr.
  - intros v r f (i & -> & _)%list_elem_of_fmap Hr Hf. by apply parse_value_Instr.
Qed.

Lemma loads_data (data : list Z) :
  data <> [] ->
  loads (dumps (JArr (JInt <$> data))) = Some (JArr (JInt <$> data)).
Proof.
  intros Hne. apply loads_array.
  - by destruct data.
  - intros v (z & -> & _)%list_elem_of_fmap. apply value_head_pretty.
  - intros v r f (z & -> & _)%list_elem_of_fmap Hr Hf. by apply parse_value_int.
Qed.

(** *** The boundary between the two arrays *)

Lemma strip_prefix_Some p s r : strip_prefix p s = Some r -> s = p +:+ r.
Proof.
  revert s. induction p as [|a p IH]; intros s; simpl.
  - by intros [= ->].
  - destruct s as [|b s]; [done|].
    destruct (Ascii.eqb a b) eqn:E; [|done].
    apply Ascii.eqb_eq in E as ->. by intros ->%IH.
Qed.

(** [split] passes over the characters that do not start a separator. *)
Lemma split_go_pass a sep P s cur :
  all_chars (fun c => negb (Ascii.eqb a c)) P = true ->
  split_go (String a sep) (P +:+ s) 0 cur
  = split_go (String a sep) s 0 (String.rev_app P cur).
Proof.
  revert cur. induction P as [|c P IH]; intros cur; [done|].
  cbn [all_chars]. intros [Hc HP]%andb_true_iff.
  cbn [String.append split_go strip_prefix String.rev_app].
  destruct (Ascii.eqb a c); [done|]. by apply IH.
Qed.

Lemma split_go_end sep cur : split_go sep EmptyString 0 cur = [String.rev cur].
Proof. reflexivity. Qed.

(** A text in which no line feed is followed by an opening bracket has no
    boundary. *)
Lemma split_go_lf_safe s p cur :
  lf_safe p s = true ->
  split_go (String "]" (String LF "[")) s 0 cur = [String.rev (String.rev_app s cur)].
Proof.
  revert p cur. induction s as [|a s IH]; intros p cur Hs; [done|].
  cbn [split_go].
  destruct (strip_prefix _ (String a s)) as [r|] eqn:E.
  - apply strip_prefix_Some in E. injection E as -> ->.
    destruct p; discriminate Hs.
  - cbn [String.rev_app]. apply (IH (Ascii.eqb a LF)).
    cbn [lf_safe] in Hs. by destruct (p && Ascii.eqb a "[").
Qed.

Lemma lf_safe_escape_char c r :
  lf_safe false (escape_char c +:+ r) = lf_safe false r.
Proof. destruct c as [[] [] [] [] [] [] [] []]; reflexivity. Qed.

Lemma lf_safe_escape s r : lf_safe false (escape s +:+ r) = lf_safe false r.
Proof.
  induction s as [|c s IH]; [done|].
  cbn [escape]. by rewrite append_assoc, lf_safe_escape_char.
Qed.

Lemma lf_safe_encode s r : lf_safe false (encode_string s +:+ r) = lf_safe false r.
Proof.
  rewrite encode_string_app. cbn [lf_safe andb].
  change (Ascii.eqb DQ LF) with false. by rewrite lf_safe_escape.
Qed.

Lemma lf_safe_data_chars s r :
  all_chars int_char s = true -> lf_safe false (s +:+ r) = lf_safe false r.
Proof.
  induction s as [|c s IH]; [done|].
  cbn [all_chars]. intros [Hc Hs]%andb_true_iff.
  cbn [String.append lf_safe andb]. rewrite <- (IH Hs).
  by destruct c as [[] [] [] [] [] [] [] []].
Qed.

Lemma all_chars_int_pretty_N_go x s :
  all_chars int_char (pretty_N_go x s) = all_chars int_char s.
Proof.
  revert s. induction (N.lt_wf_0 x) as [x _ IH]; intros s.
  assert (x = 0 \/ 0 < x)%N as [->|Hx] by lia.
  - by rewrite pretty_N_go_0.
  - rewrite pretty_N_go_step, IH by (done || by apply N.div_lt). simpl.
    by rewrite int_char_pretty_N_char.
Qed.

Lemma all_chars_int_pretty (z : Z) : all_chars int_char (pretty z) = true.
Proof.
  destruct z as [|p|p]; [done | |].
  - rewrite pretty_Z_pos. by rewrite all_chars_int_pretty_N_go.
  - rewrite pretty_Z_neg. simpl. by rewrite all_chars_int_pretty_N_go.
Qed.

Lemma lf_safe_pretty (z : Z) r : lf_safe false (pretty z +:+ r) = lf_safe false r.
Proof. apply lf_safe_data_chars, all_chars_int_pretty. Qed.

Lemma lf_safe_spaces p k r :
  lf_safe p (spaces (S k) +:+ r) = lf_safe false r.
Proof.
  revert p. induction k as [|k IH]; intros p.
  - by destruct p.
  - change (spaces (S (S k)) +:+ r) with (String " " (spaces (S k) +:+ r)).
    cbn [lf_safe]. rewrite IH. by destruct p.
Qed.

Lemma lf_safe_newline_indent p n r :
  lf_safe p (newline_indent (S n) +:+ r) = lf_safe false r.
Proof.
  rewrite newline_indent_app. cbn [lf_safe].
  replace (4 * S n)%nat with (S (4 * n + 3)) by lia.
  rewrite lf_safe_spaces. by destruct p.
Qed.

Lemma lf_safe_scalar level a r :
  lf_safe false (dumps_at level (scalar_to_json a) +:+ r) = lf_safe false r.
Proof. destruct a; [apply lf_safe_pretty | apply lf_safe_encode]. Qed.

Lemma lf_safe_join n (l : list string) r :
  (forall x r', x ∈ l -> lf_safe false (x +:+ r') = lf_safe false r') ->
  lf_safe false (join (String "," (newline_indent (S n))) l +:+ r) = lf_safe false r.
Proof.
  induction l as [|x l IH]; intros Hl; [done|].
  rewrite join_cons_app, Hl by apply list_elem_of_here.
  destruct l as [|y l]; [done|].
  cbn [String.append lf_safe andb]. change (Ascii.eqb "," LF) with false.
  rewrite lf_safe_newline_indent. apply IH.
  intros z r' Hz. by apply Hl, list_elem_of_further.
Qed.

Lemma lf_safe_array n l r :
  (forall v r', v ∈ l ->
     lf_safe false (dumps_at (S (S n)) v +:+ r') = lf_safe false r') ->
  lf_safe false (dumps_at (S n) (JArr l) +:+ r) = lf_safe false r.
Proof.
  intros Hl. destruct (decide (l = [])) as [->|Hne]; [done|].
  rewrite dumps_at_array by done.
  cbn [String.append lf_safe andb]. change (Ascii.eqb "[" LF) with false.
  rewrite !append_assoc, lf_safe_newline_indent, lf_safe_join, lf_safe_newline_indent.
  - done.
  - intros x r' (v & -> & Hv)%list_elem_of_fmap. by apply Hl.
Qed.

Lemma lf_safe_object n l r :
  (forall k v r', (k, v) ∈ l ->
     lf_safe false (dumps_at (S (S n)) v +:+ r') = lf_safe false r') ->
  lf_safe false (dumps_at (S n) (JObj l) +:+ r) = lf_safe false r.
Proof.
  intros Hl. destruct (decide (l = [])) as [->|Hne]; [done|].
  rewrite dumps_at_object by done.
  cbn [String.append lf_safe andb]. change (Ascii.eqb "{" LF) with false.
  rewrite !append_assoc, lf_safe_newline_indent, lf_safe_join, lf_safe_newline_indent.
  - done.
  - intros x r' ([k v] & -> & Hv)%list_elem_of_fmap. cbn [fst snd].
    rewrite !append_assoc, lf_safe_encode. cbn [String.append lf_safe andb].
    change (Ascii.eqb ":" LF) with false. change (Ascii.eqb " " LF) with false.
    by apply (Hl k).
Qed.

Lemma lf_safe_Instr n i r :
  lf_safe false (dumps_at (S n) (Instr_to_json i) +:+ r) = lf_safe false r.
Proof.
  destruct (Instr_members i) as (l & -> & _ & _ & Hl).
  apply lf_safe_object. intros k v r' Hv.
  destruct (Hl k v Hv) as [[a ->] | [t ->]]; [apply lf_safe_scalar|].
  apply lf_safe_array. intros v' r'' Hv'. unfold Term_to_json in Hv'.
  rewrite !elem_of_cons, elem_of_nil in Hv'.
  destruct Hv' as [-> | [-> | [-> | []]]]; apply lf_safe_scalar.
Qed.

(** The text of the instructions after its opening bracket. *)
Lemma dumps_code_shape (code : list Instr) :
  exists C,
    dumps (JArr (Instr_to_json <$> code)) = String "[" C /\
    lf_safe false C = true.
Proof.
  destruct (decide (code = [])) as [->|Hne]; [by exists "]"|].
  unfold dumps. rewrite dumps_at_array by (by destruct code).
  eexists. split; [reflexivity|]. cbn [String.append].
  rewrite lf_safe_newline_indent, lf_safe_join; [done|].
  intros x r' (v & -> & (i & -> & _)%list_elem_of_fmap)%list_elem_of_fmap.
  apply lf_safe_Instr.
Qed.

Lemma all_chars_spaces k : all_chars data_char (spaces k) = true.
Proof. induction k as [|k IH]; [done|]. exact IH. Qed.

Lemma all_chars_newline_indent n : all_chars data_char (newline_indent n) = true.
Proof. apply (all_chars_spaces (4 * n)). Qed.

Lemma all_chars_join_pretty sep (data : list Z) :
  all_chars data_char sep = true ->
  all_chars data_char (join sep (pretty <$> data)) = true.
Proof.
  intros Hsep. induction data as [|z data IH]; [done|].
  destruct data as [|z' data]; [apply all_chars_pretty_Z|].
  change (join sep (pretty <$> z :: z' :: data))
    with (pretty z +:+ sep +:+ join sep (pretty <$> z' :: data)).
  by rewrite !all_chars_app, all_chars_pretty_Z, Hsep, IH.
Qed.

(** The text of a data segment that is not empty: a closing bracket at its
    end and nowhere else, and no letter. *)
Lemma dumps_data_shape (data : list Z) :
  data <> [] ->
  exists P,
    dumps (JArr (JInt <$> data)) = P +:+ "]" /\
    all_chars data_char P = true.
Proof.
  intros Hne. unfold dumps. rewrite dumps_at_array by (by destruct data).
  exists (String "[" (newline_indent 1
                      +:+ join ("," +:+ newline_indent 1) (pretty <$> data)
                      +:+ newline_indent 0)).
  split.
  - cbn [String.append]. f_equal. rewrite !append_assoc. do 2 f_equal.
    rewrite <- list_fmap_compose. reflexivity.
  - cbn [all_chars]. rewrite !all_chars_app, all_chars_join_pretty; done.
Qed.

Lemma data_char_not_bracket c :
  data_char c = true -> negb (Ascii.eqb "]" c) = true.
Proof. destruct c as [[] [] [] [] [] [] [] []]; done. Qed.

Lemma data_char_not_d c :
  data_char c = true -> negb (Ascii.eqb "d" c) = true.
Proof. destruct c as [[] [] [] [] [] [] [] []]; done. Qed.

(** *** Reading the instructions and the data back *)

Lemma Opcode_of_value_value op : Opcode_of_value (Opcode_value op) = Some op.
Proof. by destruct op. Qed.

Lemma json_to_scalar_to_json a : json_to_scalar (scalar_to_json a) = Some a.
Proof. by destruct a. Qed.

Lemma rehydrate_Instr_to_json i : rehydrate (Instr_to_json i) = inl i.
Proof.
  destruct i as [op [a|] [[x y z]|]]; unfold Instr_to_json, Term_to_json;
    cbn [opcode arg term line_num com t_arg app];
    unfold rehydrate, member; cbn [filter list_filter fst snd];
    repeat (case_decide; try done);
    cbn [last fmap option_fmap option_map snd];
    rewrite Opcode_of_value_value, ?json_to_scalar_to_json; reflexivity.
Qed.

Lemma collect_rehydrate (code : list Instr) :
  collect (rehydrate <$> (Instr_to_json <$> code)) = inl code.
Proof.
  induction code as [|i code IH]; [done|].
  cbn [fmap list_fmap collect]. rewrite rehydrate_Instr_to_json.
  cbn [fmap list_fmap] in IH. by rewrite IH.
Qed.

Lemma json_to_data_of (data : list Z) :
  json_to_data (JArr (JInt <$> data)) = inl data.
Proof.
  unfold json_to_data. induction data as [|z data IH]; [done|].
  cbn [fmap list_fmap collect] in *. by rewrite IH.
Qed.

(** The two pieces that [read_code] finds in the text of [write_code]. *)
Lemma split_write_code (code : list Instr) (data : list Z) :
  data <> [] ->
  exists P C,
    dumps (JArr (JInt <$> data)) = P +:+ "]" /\
    dumps (JArr (Instr_to_json <$> code)) = String "[" C /\
    all_chars data_char P = true /\
    split (String "]" (String LF "[")) (write_code code data)
    = ["data: " +:+ P; C].
Proof.
  intros Hne.
  destruct (dumps_data_shape data Hne) as (P & HP & Hchars).
  destruct (dumps_code_shape code) as (C & HC & Hsafe).
  exists P, C. split_all; try done.
  unfold write_code, split.
  rewrite bool_decide_eq_false_2 by (unfold len; destruct data; simpl; [done | lia]).
  cbn [negb]. rewrite HP, HC. unfold str1.
  rewrite !append_assoc.
  rewrite <- (append_assoc "data: " P).
  rewrite split_go_pass.
  2:{ rewrite all_chars_app. apply andb_true_iff. split; [reflexivity|].
      eapply all_chars_mono; [|exact Hchars]. apply data_char_not_bracket. }
  cbn [String.append split_go strip_prefix Ascii.eqb Bool.eqb String.length
       Nat.sub].
  rewrite rev_rev_app. f_equal.
  rewrite (split_go_lf_safe C false) by done. by rewrite rev_rev_app.
Qed.

Lemma replace_data_prefix P :
  all_chars data_char P = true ->
  replace "data: " EmptyString ("data: " +:+ P) = P.
Proof.
  intros Hchars. unfold replace, split.
  cbn [String.append split_go strip_prefix Ascii.eqb Bool.eqb String.length
       Nat.sub].
  rewrite <- (append_nil_r P) at 1. rewrite split_go_pass.
  2:{ eapply all_chars_mono; [|exact Hchars]. apply data_char_not_d. }
  rewrite split_go_end, rev_rev_app. reflexivity.
Qed.

Lemma contains_data (code : list Instr) (data : list Z) :
  data <> [] -> contains "data" (write_code code data) = true.
Proof.
  intros Hne. unfold write_code.
  rewrite bool_decide_eq_false_2 by (unfold len; destruct data; simpl; [done | lia]).
  reflexivity.
Qed.

(** X30: for a data segment that is not empty, [read_code] of the text that
    [write_code] writes gives back the instructions and the data. *)
Theorem read_code_write_code (code : list Instr) (data : list Z) :
  data <> [] ->
  read_code (write_code code data) = inl (code, data).
Proof.
  intros Hne.
  destruct (split_write_code code data Hne) as (P & C & HP & HC & Hchars & Hsplit).
  unfold read_code, file_read.
  rewrite contains_data, Hsplit by done. cbn [lookup list_lookup].
  rewrite replace_data_prefix by done.
  change ("[" +:+ C) with (String "[" C).
  rewrite <- HP, <- HC, loads_data, loads_code by done.
  by rewrite collect_rehydrate, json_to_data_of.
Qed.

(** The sample program with three words of data. *)
Lemma read_code_write_code_witness :
  [1; -2; 3] <> ([] : list Z) /\
  read_code (write_code sample_code [1; -2; 3]) = inl (sample_code, [1; -2; 3]).
Proof.
  assert (Hne : [1; -2; 3] <> ([] : list Z)) by discriminate.
  split; [exact Hne|].
  exact (read_code_write_code sample_code [1; -2; 3] Hne).
Defined.
